(** * The Li-Ion battery energy source of NS33

    A shallow embedding of [src/energy/model/li-ion-battery-model.cc]
    (class [LiIonBatteryModel]) and of its caller [PrintCellInfo] of
    [scratch/LiBatteryTest.cc], and the properties of its energy update,
    its RV discharge transform, its voltage curve and its depletion
    notification.

    Conventions of the embedding.
    - A C++ [double] is a real number of [R]: arithmetic is exact, and
      rounding, infinities and NaN are outside the model.  A division by
      zero, which gives the code an infinity or a NaN, gives [R] the value 0:
      a statement about a value that the code computes with a division holds
      for the code where its hypotheses keep the divisor from zero.  The
      divisors are [m_beta] in [RvModelAFunction], and [m_qExp], [m_qNom] and
      [m_qRated - m_drainedCapacity] in [GetVoltage].
    - An ns-3 [Time] is its value in seconds.
    - A method of the class is a computation of the monad [M]: it reads and
      writes the object, may abort on an [NS_ASSERT], may read a
      [std::vector] out of range, and leaves a log of what it asked of the
      simulator and of the registered devices. *)

From Stdlib Require Import Reals Lra Lia ZArith List Bool Sorted.
Import ListNotations.
Local Open Scope R_scope.

(** * The program *)

(** ** Numbers and time *)

Definition Rltb (x y : R) : bool := if Rlt_dec x y then true else false.
Definition Rleb (x y : R) : bool := if Rle_dec x y then true else false.
(** [x != y] on doubles. *)
Definition Rneb (x y : R) : bool := if Req_dec_T x y then false else true.

Abbreviation Time := R (only parsing).
Definition Seconds (s : R) : Time := s.
Definition GetSeconds (t : Time) : R := t.

(** ** The object *)

(** What a method asks of its collaborators, in the order it asks. *)
Inductive Effect : Type :=
| EvCancel                    (* m_energyUpdateEvent.Cancel () *)
| EvSchedule (delay : Time)   (* Simulator::Schedule (delay, &UpdateEnergySource, this) *)
| EvEnergyDrained.            (* NotifyEnergyDrained () *)

(** The data members of [LiIonBatteryModel].  [m_energyUpdateEvent] is the
    expiry time of the pending update event, [None] when there is none. *)
Record LiIonBatteryModel : Type := mkLiIonBatteryModel {
  m_initialEnergyJ : R;
  m_remainingEnergyJ : R;
  m_supplyVoltageV : R;
  m_lowBatteryTh : R;
  m_eFull : R;
  m_eNom : R;
  m_eExp : R;
  m_qRated : R;
  m_qNom : R;
  m_qExp : R;
  m_internalResistance : R;
  m_typCurrent : R;
  m_minVoltTh : R;
  m_drainedCapacity : R;
  m_energyUpdateInterval : Time;
  m_lastUpdateTime : Time;
  m_energyUpdateEvent : option Time;
  m_alpha : R;
  m_beta : R;
  m_previousLoad : R;
  m_lastUpdateAlpha : R;
  m_lastSampleTime : Time;
  m_load : list R;
  m_timeStamps : list Time
}.

(** Modelled from the spec: the clock and the device registry, which live in
    ns-3's [Simulator] and in the base class [EnergySource].  The clock gives
    the current time and whether it has finished; each registered device
    reports its present current draw in amperes. *)
Record World : Type := mkWorld {
  Now : Time;
  IsFinished : bool;
  deviceCurrents : list R
}.

(** Assignments to the members the methods write. *)
Definition set_m_initialEnergyJ (v : R) (s : LiIonBatteryModel) : LiIonBatteryModel :=
  mkLiIonBatteryModel v (m_remainingEnergyJ s) (m_supplyVoltageV s)
    (m_lowBatteryTh s) (m_eFull s) (m_eNom s) (m_eExp s) (m_qRated s) (m_qNom s)
    (m_qExp s) (m_internalResistance s) (m_typCurrent s) (m_minVoltTh s)
    (m_drainedCapacity s) (m_energyUpdateInterval s) (m_lastUpdateTime s)
    (m_energyUpdateEvent s) (m_alpha s) (m_beta s) (m_previousLoad s)
    (m_lastUpdateAlpha s) (m_lastSampleTime s) (m_load s) (m_timeStamps s).

Definition set_m_remainingEnergyJ (v : R) (s : LiIonBatteryModel) : LiIonBatteryModel :=
  mkLiIonBatteryModel (m_initialEnergyJ s) v (m_supplyVoltageV s)
    (m_lowBatteryTh s) (m_eFull s) (m_eNom s) (m_eExp s) (m_qRated s) (m_qNom s)
    (m_qExp s) (m_internalResistance s) (m_typCurrent s) (m_minVoltTh s)
    (m_drainedCapacity s) (m_energyUpdateInterval s) (m_lastUpdateTime s)
    (m_energyUpdateEvent s) (m_alpha s) (m_beta s) (m_previousLoad s)
    (m_lastUpdateAlpha s) (m_lastSampleTime s) (m_load s) (m_timeStamps s).

Definition set_m_supplyVoltageV (v : R) (s : LiIonBatteryModel) : LiIonBatteryModel :=
  mkLiIonBatteryModel (m_initialEnergyJ s) (m_remainingEnergyJ s) v
    (m_lowBatteryTh s) (m_eFull s) (m_eNom s) (m_eExp s) (m_qRated s) (m_qNom s)
    (m_qExp s) (m_internalResistance s) (m_typCurrent s) (m_minVoltTh s)
    (m_drainedCapacity s) (m_energyUpdateInterval s) (m_lastUpdateTime s)
    (m_energyUpdateEvent s) (m_alpha s) (m_beta s) (m_previousLoad s)
    (m_lastUpdateAlpha s) (m_lastSampleTime s) (m_load s) (m_timeStamps s).

Definition set_m_eFull (v : R) (s : LiIonBatteryModel) : LiIonBatteryModel :=
  mkLiIonBatteryModel (m_initialEnergyJ s) (m_remainingEnergyJ s) (m_supplyVoltageV s)
    (m_lowBatteryTh s) v (m_eNom s) (m_eExp s) (m_qRated s) (m_qNom s)
    (m_qExp s) (m_internalResistance s) (m_typCurrent s) (m_minVoltTh s)
    (m_drainedCapacity s) (m_energyUpdateInterval s) (m_lastUpdateTime s)
    (m_energyUpdateEvent s) (m_alpha s) (m_beta s) (m_previousLoad s)
    (m_lastUpdateAlpha s) (m_lastSampleTime s) (m_load s) (m_timeStamps s).

Definition set_m_drainedCapacity (v : R) (s : LiIonBatteryModel) : LiIonBatteryModel :=
  mkLiIonBatteryModel (m_initialEnergyJ s) (m_remainingEnergyJ s) (m_supplyVoltageV s)
    (m_lowBatteryTh s) (m_eFull s) (m_eNom s) (m_eExp s) (m_qRated s) (m_qNom s)
    (m_qExp s) (m_internalResistance s) (m_typCurrent s) (m_minVoltTh s)
    v (m_energyUpdateInterval s) (m_lastUpdateTime s)
    (m_energyUpdateEvent s) (m_alpha s) (m_beta s) (m_previousLoad s)
    (m_lastUpdateAlpha s) (m_lastSampleTime s) (m_load s) (m_timeStamps s).

Definition set_m_energyUpdateInterval (v : Time) (s : LiIonBatteryModel) : LiIonBatteryModel :=
  mkLiIonBatteryModel (m_initialEnergyJ s) (m_remainingEnergyJ s) (m_supplyVoltageV s)
    (m_lowBatteryTh s) (m_eFull s) (m_eNom s) (m_eExp s) (m_qRated s) (m_qNom s)
    (m_qExp s) (m_internalResistance s) (m_typCurrent s) (m_minVoltTh s)
    (m_drainedCapacity s) v (m_lastUpdateTime s)
    (m_energyUpdateEvent s) (m_alpha s) (m_beta s) (m_previousLoad s)
    (m_lastUpdateAlpha s) (m_lastSampleTime s) (m_load s) (m_timeStamps s).

Definition set_m_lastUpdateTime (v : Time) (s : LiIonBatteryModel) : LiIonBatteryModel :=
  mkLiIonBatteryModel (m_initialEnergyJ s) (m_remainingEnergyJ s) (m_supplyVoltageV s)
    (m_lowBatteryTh s) (m_eFull s) (m_eNom s) (m_eExp s) (m_qRated s) (m_qNom s)
    (m_qExp s) (m_internalResistance s) (m_typCurrent s) (m_minVoltTh s)
    (m_drainedCapacity s) (m_energyUpdateInterval s) v
    (m_energyUpdateEvent s) (m_alpha s) (m_beta s) (m_previousLoad s)
    (m_lastUpdateAlpha s) (m_lastSampleTime s) (m_load s) (m_timeStamps s).

Definition set_m_energyUpdateEvent (v : option Time) (s : LiIonBatteryModel) : LiIonBatteryModel :=
  mkLiIonBatteryModel (m_initialEnergyJ s) (m_remainingEnergyJ s) (m_supplyVoltageV s)
    (m_lowBatteryTh s) (m_eFull s) (m_eNom s) (m_eExp s) (m_qRated s) (m_qNom s)
    (m_qExp s) (m_internalResistance s) (m_typCurrent s) (m_minVoltTh s)
    (m_drainedCapacity s) (m_energyUpdateInterval s) (m_lastUpdateTime s)
    v (m_alpha s) (m_beta s) (m_previousLoad s)
    (m_lastUpdateAlpha s) (m_lastSampleTime s) (m_load s) (m_timeStamps s).

Definition set_m_beta (v : R) (s : LiIonBatteryModel) : LiIonBatteryModel :=
  mkLiIonBatteryModel (m_initialEnergyJ s) (m_remainingEnergyJ s) (m_supplyVoltageV s)
    (m_lowBatteryTh s) (m_eFull s) (m_eNom s) (m_eExp s) (m_qRated s) (m_qNom s)
    (m_qExp s) (m_internalResistance s) (m_typCurrent s) (m_minVoltTh s)
    (m_drainedCapacity s) (m_energyUpdateInterval s) (m_lastUpdateTime s)
    (m_energyUpdateEvent s) (m_alpha s) v (m_previousLoad s)
    (m_lastUpdateAlpha s) (m_lastSampleTime s) (m_load s) (m_timeStamps s).

Definition set_m_previousLoad (v : R) (s : LiIonBatteryModel) : LiIonBatteryModel :=
  mkLiIonBatteryModel (m_initialEnergyJ s) (m_remainingEnergyJ s) (m_supplyVoltageV s)
    (m_lowBatteryTh s) (m_eFull s) (m_eNom s) (m_eExp s) (m_qRated s) (m_qNom s)
    (m_qExp s) (m_internalResistance s) (m_typCurrent s) (m_minVoltTh s)
    (m_drainedCapacity s) (m_energyUpdateInterval s) (m_lastUpdateTime s)
    (m_energyUpdateEvent s) (m_alpha s) (m_beta s) v
    (m_lastUpdateAlpha s) (m_lastSampleTime s) (m_load s) (m_timeStamps s).

Definition set_m_lastUpdateAlpha (v : R) (s : LiIonBatteryModel) : LiIonBatteryModel :=
  mkLiIonBatteryModel (m_initialEnergyJ s) (m_remainingEnergyJ s) (m_supplyVoltageV s)
    (m_lowBatteryTh s) (m_eFull s) (m_eNom s) (m_eExp s) (m_qRated s) (m_qNom s)
    (m_qExp s) (m_internalResistance s) (m_typCurrent s) (m_minVoltTh s)
    (m_drainedCapacity s) (m_energyUpdateInterval s) (m_lastUpdateTime s)
    (m_energyUpdateEvent s) (m_alpha s) (m_beta s) (m_previousLoad s)
    v (m_lastSampleTime s) (m_load s) (m_timeStamps s).

Definition set_m_lastSampleTime (v : Time) (s : LiIonBatteryModel) : LiIonBatteryModel :=
  mkLiIonBatteryModel (m_initialEnergyJ s) (m_remainingEnergyJ s) (m_supplyVoltageV s)
    (m_lowBatteryTh s) (m_eFull s) (m_eNom s) (m_eExp s) (m_qRated s) (m_qNom s)
    (m_qExp s) (m_internalResistance s) (m_typCurrent s) (m_minVoltTh s)
    (m_drainedCapacity s) (m_energyUpdateInterval s) (m_lastUpdateTime s)
    (m_energyUpdateEvent s) (m_alpha s) (m_beta s) (m_previousLoad s)
    (m_lastUpdateAlpha s) v (m_load s) (m_timeStamps s).

Definition set_m_load (v : list R) (s : LiIonBatteryModel) : LiIonBatteryModel :=
  mkLiIonBatteryModel (m_initialEnergyJ s) (m_remainingEnergyJ s) (m_supplyVoltageV s)
    (m_lowBatteryTh s) (m_eFull s) (m_eNom s) (m_eExp s) (m_qRated s) (m_qNom s)
    (m_qExp s) (m_internalResistance s) (m_typCurrent s) (m_minVoltTh s)
    (m_drainedCapacity s) (m_energyUpdateInterval s) (m_lastUpdateTime s)
    (m_energyUpdateEvent s) (m_alpha s) (m_beta s) (m_previousLoad s)
    (m_lastUpdateAlpha s) (m_lastSampleTime s) v (m_timeStamps s).

Definition set_m_timeStamps (v : list Time) (s : LiIonBatteryModel) : LiIonBatteryModel :=
  mkLiIonBatteryModel (m_initialEnergyJ s) (m_remainingEnergyJ s) (m_supplyVoltageV s)
    (m_lowBatteryTh s) (m_eFull s) (m_eNom s) (m_eExp s) (m_qRated s) (m_qNom s)
    (m_qExp s) (m_internalResistance s) (m_typCurrent s) (m_minVoltTh s)
    (m_drainedCapacity s) (m_energyUpdateInterval s) (m_lastUpdateTime s)
    (m_energyUpdateEvent s) (m_alpha s) (m_beta s) (m_previousLoad s)
    (m_lastUpdateAlpha s) (m_lastSampleTime s) (m_load s) v.

(** ** The monad of the methods *)

Inductive outcome (A : Type) : Type :=
| Ok (a : A)
| AssertFailed     (* an NS_ASSERT aborted the process *)
| OutOfBounds.     (* operator[] of a std::vector past its end *)

Arguments Ok {A} a.
Arguments AssertFailed {A}.
Arguments OutOfBounds {A}.

Definition M (A : Type) : Type :=
  LiIonBatteryModel -> outcome (A * LiIonBatteryModel * list Effect).

Definition ret {A : Type} (a : A) : M A := fun s => Ok (a, s, []).

Definition bind {A B : Type} (c : M A) (k : A -> M B) : M B :=
  fun s =>
    match c s with
    | Ok (a, s1, e1) =>
        match k a s1 with
        | Ok (b, s2, e2) => Ok (b, s2, e1 ++ e2)
        | AssertFailed => AssertFailed
        | OutOfBounds => OutOfBounds
        end
    | AssertFailed => AssertFailed
    | OutOfBounds => OutOfBounds
    end.

Declare Scope method_scope.
Delimit Scope method_scope with method.
Notation "x <- c ;; k" := (bind c (fun x => k))
  (at level 61, c at next level, right associativity) : method_scope.
Notation "c ;; k" := (bind c (fun _ => k))
  (at level 61, right associativity) : method_scope.
Local Open Scope method_scope.

Definition get : M LiIonBatteryModel := fun s => Ok (s, s, []).
Definition gets {A : Type} (f : LiIonBatteryModel -> A) : M A :=
  fun s => Ok (f s, s, []).
Definition modify (f : LiIonBatteryModel -> LiIonBatteryModel) : M unit :=
  fun s => Ok (tt, f s, []).
Definition emit (e : Effect) : M unit := fun s => Ok (tt, s, [e]).
Definition NS_ASSERT (b : bool) : M unit :=
  fun s => if b then Ok (tt, s, []) else AssertFailed.

(** [v[i]] of a [std::vector]. *)
Definition vec_at {A : Type} (v : list A) (i : nat) : M A :=
  fun s => match nth_error v i with
           | Some x => Ok (x, s, [])
           | None => OutOfBounds
           end.

(** [v.size () - 1] in [size_t]: it wraps on the empty vector. *)
Definition size_minus_1 {A : Type} (v : list A) : Z :=
  match v with
  | [] => (2 ^ 64 - 1)%Z
  | _ :: _ => (Z.of_nat (length v) - 1)%Z
  end.

(** [m_timeStamps[m_timeStamps.size () - 1] = x]. *)
Definition set_last_timeStamp (x : Time) : M unit :=
  fun s => match m_timeStamps s with
           | [] => OutOfBounds
           | _ :: _ => Ok (tt, set_m_timeStamps (removelast (m_timeStamps s) ++ [x]) s, [])
           end.

(** ** Attribute accessors *)

Definition SetBeta (beta : R) : M unit :=
  NS_ASSERT (Rleb 0 beta) ;;
  modify (set_m_beta beta).

Definition GetBeta : M R := gets m_beta.

Definition SetInitialEnergy (initialEnergyJ : R) : M unit :=
  NS_ASSERT (Rleb 0 initialEnergyJ) ;;
  modify (set_m_initialEnergyJ initialEnergyJ) ;;
  (* set remaining energy to be initial energy *)
  modify (fun s => set_m_remainingEnergyJ (m_initialEnergyJ s) s).

Definition GetInitialEnergy : M R := gets m_initialEnergyJ.

Definition SetInitialSupplyVoltage (supplyVoltageV : R) : M unit :=
  modify (set_m_eFull supplyVoltageV) ;;
  modify (set_m_supplyVoltageV supplyVoltageV).

Definition GetSupplyVoltage : M R := gets m_supplyVoltageV.

Definition SetEnergyUpdateInterval (interval : Time) : M unit :=
  modify (set_m_energyUpdateInterval interval).

Definition GetEnergyUpdateInterval : M Time := gets m_energyUpdateInterval.

(** The constructor, run at simulated time [now], followed by the attribute
    defaults of [GetTypeId]. *)
Definition LiIonBatteryModel_new (now : Time) : LiIonBatteryModel :=
  {| m_initialEnergyJ := 31752;
     m_remainingEnergyJ := 31752;
     m_supplyVoltageV := 4.05;
     m_lowBatteryTh := 0.10;
     m_eFull := 4.05;
     m_eNom := 3.6;
     m_eExp := 3.6;
     m_qRated := 2.45;
     m_qNom := 1.1;
     m_qExp := 1.2;
     m_internalResistance := 0.083;
     m_typCurrent := 2.33;
     m_minVoltTh := 3.3;
     m_drainedCapacity := 0;
     m_energyUpdateInterval := Seconds 1;
     m_lastUpdateTime := Seconds 0;
     m_energyUpdateEvent := None;
     m_alpha := 35220;
     m_beta := 0.637;
     m_previousLoad := -1;
     m_lastUpdateAlpha := 0;
     m_lastSampleTime := now;
     m_load := [];
     m_timeStamps := [now] |}.

(** ** The RV discharge transform *)

(** The loop [for (int m = 1; m <= 10; m++)] of [RvModelAFunction], with
    [iters] iterations left and the running [sum]. *)
Fixpoint RvModelAFunction_loop (iters : nat) (m : Z)
    (beta firstDelta secondDelta sum : R) : R :=
  match iters with
  | O => sum
  | S iters' =>
      let square := beta * beta * IZR m * IZR m in
      RvModelAFunction_loop iters' (m + 1) beta firstDelta secondDelta
        (sum + (exp (- square * firstDelta) - exp (- square * secondDelta)) / square)
  end.

Definition RvModelAFunction (t sk sk_1 : Time) (beta : R) : R :=
  (* everything is in minutes *)
  let firstDelta := (GetSeconds t - GetSeconds sk) / 60 in
  let secondDelta := (GetSeconds t - GetSeconds sk_1) / 60 in
  let delta := (GetSeconds sk - GetSeconds sk_1) / 60 in
  let sum := RvModelAFunction_loop 10 1 beta firstDelta secondDelta 0 in
  delta + 2 * sum.

(** The loop [for (uint64_t i = 1; i < m_timeStamps.size (); i++)] of
    [Discharge], with [iters] iterations left. *)
Fixpoint Discharge_loop (iters i : nat) (t : Time) (calculatedAlpha : R) : M R :=
  match iters with
  | O => ret calculatedAlpha
  | S iters' =>
      load <- gets m_load ;;
      timeStamps <- gets m_timeStamps ;;
      beta <- gets m_beta ;;
      l <- vec_at load (i - 1) ;;
      sk <- vec_at timeStamps i ;;
      sk_1 <- vec_at timeStamps (i - 1) ;;
      Discharge_loop iters' (S i) t
        (calculatedAlpha + l * RvModelAFunction t sk sk_1 beta)
  end.

(** The first half of [Discharge]: record only when load changes. *)
Definition Discharge_record (load : R) (t : Time) : M unit :=
  previousLoad <- gets m_previousLoad ;;
  (if Rneb load previousLoad then
     modify (fun s => set_m_load (m_load s ++ [load]) s) ;;
     modify (set_m_previousLoad load) ;;
     lastSampleTime <- gets m_lastSampleTime ;;
     set_last_timeStamp lastSampleTime ;;
     modify (fun s => set_m_timeStamps (m_timeStamps s ++ [t]) s)
   else
     timeStamps <- gets m_timeStamps ;;
     match timeStamps with
     | [] => ret tt
     | _ :: _ => set_last_timeStamp t
     end) ;;
  modify (set_m_lastSampleTime t).

(** The second half: calculate alpha for new t. *)
Definition Discharge_alpha (t : Time) : M R :=
  load <- gets m_load ;;
  timeStamps <- gets m_timeStamps ;;
  NS_ASSERT (Z.of_nat (length load) =? size_minus_1 timeStamps)%Z ;;
  if (length timeStamps =? 1)%nat then
    (* constant load *)
    beta <- gets m_beta ;;
    l0 <- vec_at load 0 ;;
    ret (l0 * RvModelAFunction t t (Seconds 0) beta)
  else
    (* changing load *)
    Discharge_loop (length timeStamps - 1) 1 t 0.

Definition Discharge (load : R) (t : Time) : M R :=
  Discharge_record load t ;;
  Discharge_alpha t.

(** ** The voltage curve *)

Definition GetVoltage (s : LiIonBatteryModel) (i : R) : R :=
  (* integral of i in dt, drained capacity in Ah *)
  let it := m_drainedCapacity s in
  (* empirical factors *)
  let A := m_eFull s - m_eExp s in
  let B := 3 / m_qExp s in
  (* slope of the polarization curve *)
  let K := Rabs ((m_eFull s - m_eNom s + A * (exp (- B * m_qNom s) - 1))
                 * (m_qRated s - m_qNom s) / m_qNom s) in
  (* constant voltage *)
  let E0 := m_eFull s + K + m_internalResistance s * m_typCurrent s - A in
  let E := E0 - K * m_qRated s / (m_qRated s - it) + A * exp (- B * it) in
  (* cell voltage *)
  let V := E - m_internalResistance s * i in
  V.

(** ** The energy source *)

(** Modelled from the spec: [EnergySource::CalculateTotalCurrent] of the base
    class, "the Energy Source sums all registered devices' draws". *)
Definition CalculateTotalCurrent (w : World) : R :=
  fold_left Rplus (deviceCurrents w) 0.

(** Modelled from the spec: [EnergySource::NotifyEnergyDrained] of the base
    class, "all registered Device Energy Models are notified". *)
Definition NotifyEnergyDrained : M unit := emit EvEnergyDrained.

Definition HandleEnergyDrainedEvent : M unit :=
  NotifyEnergyDrained. (* notify DeviceEnergyModel objects *)

Definition CalculateRemainingEnergy (w : World) : M unit :=
  let totalCurrentA := CalculateTotalCurrent w in
  lastUpdateTime <- gets m_lastUpdateTime ;;
  let duration := Now w - lastUpdateTime in
  calculatedAlpha <- Discharge (totalCurrentA * 1000) (Now w) ;;
  NS_ASSERT (Rleb 0 (GetSeconds duration)) ;;
  lastUpdateAlpha <- gets m_lastUpdateAlpha ;;
  supplyVoltageV <- gets m_supplyVoltageV ;;
  let energyToDecreaseJ := (calculatedAlpha - lastUpdateAlpha) * supplyVoltageV in
  remainingEnergyJ <- gets m_remainingEnergyJ ;;
  (if Rltb remainingEnergyJ energyToDecreaseJ then
     modify (set_m_remainingEnergyJ 0) (* energy never goes below 0 *)
   else
     modify (set_m_remainingEnergyJ (remainingEnergyJ - energyToDecreaseJ)) ;;
     modify (set_m_drainedCapacity (calculatedAlpha / 3600))) ;;
  (* update the supply voltage *)
  modify (fun s => set_m_supplyVoltageV (GetVoltage s totalCurrentA) s) ;;
  modify (set_m_lastUpdateAlpha calculatedAlpha).

Definition UpdateEnergySource (w : World) : M unit :=
  (* do not update if simulation has finished *)
  if IsFinished w then ret tt
  else
    modify (set_m_energyUpdateEvent None) ;; emit EvCancel ;;
    CalculateRemainingEnergy w ;;
    modify (set_m_lastUpdateTime (Now w)) ;;
    s <- get ;;
    if Rleb (m_remainingEnergyJ s) (m_lowBatteryTh s * m_initialEnergyJ s) then
      HandleEnergyDrainedEvent (* stop periodic update *)
    else
      modify (set_m_energyUpdateEvent (Some (Now w + m_energyUpdateInterval s))) ;;
      emit (EvSchedule (m_energyUpdateInterval s)).

Definition GetRemainingEnergy (w : World) : M R :=
  (* update energy source to get the latest remaining energy. *)
  UpdateEnergySource w ;;
  gets m_remainingEnergyJ.

Definition GetEnergyFraction (w : World) : M R :=
  (* update energy source to get the latest remaining energy. *)
  UpdateEnergySource w ;;
  s <- get ;;
  ret (m_remainingEnergyJ s / m_initialEnergyJ s).

Definition DecreaseRemainingEnergy (energyJ : R) : M unit :=
  NS_ASSERT (Rleb 0 energyJ) ;;
  modify (fun s => set_m_remainingEnergyJ (m_remainingEnergyJ s - energyJ) s) ;;
  (* check if remaining energy is 0 *)
  s <- get ;;
  if Rleb (m_supplyVoltageV s) (m_minVoltTh s) then HandleEnergyDrainedEvent
  else ret tt.

Definition IncreaseRemainingEnergy (energyJ : R) : M unit :=
  NS_ASSERT (Rleb 0 energyJ) ;;
  modify (fun s => set_m_remainingEnergyJ (m_remainingEnergyJ s + energyJ) s).

Definition DoInitialize (w : World) : M unit :=
  UpdateEnergySource w. (* start periodic update *)

(** ** The attribute that no method uses *)

(** The attribute [RvBatteryModelAlphaValue] of [GetTypeId] writes [m_alpha]
    through its accessor. *)
Definition set_m_alpha (v : R) (s : LiIonBatteryModel) : LiIonBatteryModel :=
  mkLiIonBatteryModel (m_initialEnergyJ s) (m_remainingEnergyJ s) (m_supplyVoltageV s)
    (m_lowBatteryTh s) (m_eFull s) (m_eNom s) (m_eExp s) (m_qRated s) (m_qNom s)
    (m_qExp s) (m_internalResistance s) (m_typCurrent s) (m_minVoltTh s)
    (m_drainedCapacity s) (m_energyUpdateInterval s) (m_lastUpdateTime s)
    (m_energyUpdateEvent s) v (m_beta s) (m_previousLoad s)
    (m_lastUpdateAlpha s) (m_lastSampleTime s) (m_load s) (m_timeStamps s).

(** ** The caller in [scratch/LiBatteryTest.cc] *)

(** What [PrintCellInfo] puts out: the voltage and the energy of the line it
    prints, the energy it writes to the log file, and the delay after which
    it asks the simulator to call it again. *)
Record CellInfo : Type := mkCellInfo {
  printedVoltage : R;
  printedEnergy : R;
  loggedEnergy : R;
  nextPrint : option Time
}.

(** [PrintCellInfo (es)].  The operands of the chain of [<<] are evaluated in
    an order the language leaves open: [voltage_first] tells whether
    [es->GetSupplyVoltage ()] runs before [es->GetRemainingEnergy ()]. *)
Definition PrintCellInfo (voltage_first : bool) (w : World) : M CellInfo :=
  line <- (if voltage_first then
             v <- GetSupplyVoltage ;;
             r <- GetRemainingEnergy w ;;
             ret (v, r)
           else
             r <- GetRemainingEnergy w ;;
             v <- GetSupplyVoltage ;;
             ret (v, r)) ;;
  logged <- GetRemainingEnergy w ;;
  ret (mkCellInfo (fst line) (snd line) logged
         (if IsFinished w then None else Some (Seconds 20))).

(** * Definitions for the statements *)

(** ** The discharge transform in the words of the specification *)

(** [Rsum f a n] is the sum of [f k] for [k] from [a] to [a + n - 1]. *)
Fixpoint Rsum (f : nat -> R) (a n : nat) : R :=
  match n with
  | O => 0
  | S n' => f a + Rsum f (S a) n'
  end.

(** The segment contribution
    [A = δ + 2 * Σ_{m=1..10} (exp(-β²m²Δ1) - exp(-β²m²Δ2)) / (β²m²)]. *)
Definition spec_A (t sk sk_1 beta : R) : R :=
  let D1 := (t - sk) / 60 in
  let D2 := (t - sk_1) / 60 in
  let d := (sk - sk_1) / 60 in
  d + 2 * Rsum (fun m =>
                  (exp (- (beta² * (INR m)²) * D1) - exp (- (beta² * (INR m)²) * D2))
                  / (beta² * (INR m)²)) 1 10.

(** The total [Σ_k L_{k-1} · A(t, s_k, s_{k-1}, β)] over the segments of a
    history with loads [L_0 .. L_{n-1}] and boundaries [s_0 .. s_n]. *)
Definition spec_alpha (L : list R) (s : list Time) (t beta : R) : R :=
  Rsum (fun k => nth (k - 1) L 0 * spec_A t (nth k s 0) (nth (k - 1) s 0) beta)
       1 (length s - 1).

(** ** The voltage curve in the words of the specification *)

(** [V = E - R_internal·i] with
    [E = E0 - K·Q_rated/(Q_rated - it) + A·exp(-B·it)],
    [A = E_full - E_exp], [B = 3/Q_exp],
    [K = |(E_full - E_nom + A·(exp(-B·Q_nom) - 1)) · (Q_rated - Q_nom) / Q_nom|]
    and [E0 = E_full + K + R_internal·I_typ - A]. *)
Definition spec_A_factor (E_full E_exp : R) : R := E_full - E_exp.
Definition spec_B_factor (Q_exp : R) : R := 3 / Q_exp.
Definition spec_K (E_full E_nom E_exp Q_rated Q_nom Q_exp : R) : R :=
  Rabs ((E_full - E_nom
         + spec_A_factor E_full E_exp * (exp (- spec_B_factor Q_exp * Q_nom) - 1))
        * (Q_rated - Q_nom) / Q_nom).
Definition spec_E0 (E_full E_nom E_exp Q_rated Q_nom Q_exp R_internal I_typ : R) : R :=
  E_full + spec_K E_full E_nom E_exp Q_rated Q_nom Q_exp + R_internal * I_typ
  - spec_A_factor E_full E_exp.
Definition spec_E (E_full E_nom E_exp Q_rated Q_nom Q_exp R_internal I_typ it : R) : R :=
  spec_E0 E_full E_nom E_exp Q_rated Q_nom Q_exp R_internal I_typ
  - spec_K E_full E_nom E_exp Q_rated Q_nom Q_exp * Q_rated / (Q_rated - it)
  + spec_A_factor E_full E_exp * exp (- spec_B_factor Q_exp * it).
Definition spec_V (E_full E_nom E_exp Q_rated Q_nom Q_exp R_internal I_typ it i : R) : R :=
  spec_E E_full E_nom E_exp Q_rated Q_nom Q_exp R_internal I_typ it - R_internal * i.

(** ** The invariant of the load history *)

(** One more timestamp than loads, timestamps in non-decreasing order, and the
    final timestamp, the open end of the current segment, is the time of the
    last sample. *)
Definition history_inv (s : LiIonBatteryModel) : Prop :=
  length (m_timeStamps s) = S (length (m_load s)) /\
  Sorted Rle (m_timeStamps s) /\
  last (m_timeStamps s) 0 = m_lastSampleTime s.

(** The history is ready for an update: the sizes agree and a load has been
    recorded, or is about to be. *)
Definition ready (w : World) (s : LiIonBatteryModel) : Prop :=
  length (m_timeStamps s) = S (length (m_load s)) /\
  (m_load s <> [] \/ CalculateTotalCurrent w * 1000 <> m_previousLoad s) /\
  m_lastUpdateTime s <= Now w.

(** ** Closed forms of the energy update *)

(** What [CalculateRemainingEnergy] and [UpdateEnergySource] do to the object
    once [Discharge] has returned [calculatedAlpha].  The lemmas
    [CalculateRemainingEnergy_run] and [UpdateEnergySource_run] prove that the
    methods compute exactly these. *)

(** The energy delta of an update. *)
Definition energyToDecreaseJ (calculatedAlpha : R) (s : LiIonBatteryModel) : R :=
  (calculatedAlpha - m_lastUpdateAlpha s) * m_supplyVoltageV s.

(** The clamp branch of [CalculateRemainingEnergy] is taken. *)
Definition clamped (calculatedAlpha : R) (s : LiIonBatteryModel) : Prop :=
  m_remainingEnergyJ s < energyToDecreaseJ calculatedAlpha s.

(** The two branches on the remaining energy. *)
Definition energy_branch (calculatedAlpha : R) (s : LiIonBatteryModel)
  : LiIonBatteryModel :=
  if Rltb (m_remainingEnergyJ s) (energyToDecreaseJ calculatedAlpha s) then
    set_m_remainingEnergyJ 0 s
  else
    set_m_drainedCapacity (calculatedAlpha / 3600)
      (set_m_remainingEnergyJ
         (m_remainingEnergyJ s - energyToDecreaseJ calculatedAlpha s) s).

(** The whole of [CalculateRemainingEnergy] after [Discharge]. *)
Definition energy_step (totalCurrentA calculatedAlpha : R) (s : LiIonBatteryModel)
  : LiIonBatteryModel :=
  let s2 := energy_branch calculatedAlpha s in
  set_m_lastUpdateAlpha calculatedAlpha
    (set_m_supplyVoltageV (GetVoltage s2 totalCurrentA) s2).

(** The source counts as depleted for [UpdateEnergySource]. *)
Definition depleted (s : LiIonBatteryModel) : Prop :=
  m_remainingEnergyJ s <= m_lowBatteryTh s * m_initialEnergyJ s.

(** The end of [UpdateEnergySource], after [CalculateRemainingEnergy]: the
    object it leaves and the whole log of the update. *)
Definition update_finish (w : World) (s : LiIonBatteryModel)
  : LiIonBatteryModel * list Effect :=
  let s3 := set_m_lastUpdateTime (Now w) s in
  if Rleb (m_remainingEnergyJ s3) (m_lowBatteryTh s3 * m_initialEnergyJ s3) then
    (s3, [EvCancel; EvEnergyDrained])
  else
    (set_m_energyUpdateEvent (Some (Now w + m_energyUpdateInterval s3)) s3,
     [EvCancel; EvSchedule (m_energyUpdateInterval s3)]).

(** How many times a log notifies the devices that the energy is drained,
    and how many update events it schedules. *)
Definition drained_count (log : list Effect) : nat :=
  length (filter (fun e => match e with EvEnergyDrained => true | _ => false end) log).

Definition scheduled_count (log : list Effect) : nat :=
  length (filter (fun e => match e with EvSchedule _ => true | _ => false end) log).

(** [Discharge] writes the load history only: the four members
    [m_load], [m_previousLoad], [m_timeStamps] and [m_lastSampleTime]. *)
Definition same_but_history (s s1 : LiIonBatteryModel) : Prop :=
  s1 = set_m_lastSampleTime (m_lastSampleTime s1)
         (set_m_timeStamps (m_timeStamps s1)
            (set_m_previousLoad (m_previousLoad s1)
               (set_m_load (m_load s1) s))).

(** [clamped_updates s ws s'] : the updates under the worlds [ws], one after
    the other from the object [s], all run on a running clock, all take the
    clamp branch, and leave the object [s']. *)
Inductive clamped_updates : LiIonBatteryModel -> list World -> LiIonBatteryModel -> Prop :=
| clamped_updates_nil (s : LiIonBatteryModel) : clamped_updates s [] s
| clamped_updates_cons (s : LiIonBatteryModel) (w : World) (ws : list World)
    (alpha : R) (h s1 : LiIonBatteryModel) (e : list Effect) (s2 : LiIonBatteryModel) :
    IsFinished w = false ->
    Discharge (CalculateTotalCurrent w * 1000) (Now w) (set_m_energyUpdateEvent None s)
      = Ok (alpha, h, []) ->
    clamped alpha h ->
    UpdateEnergySource w s = Ok (tt, s1, e) ->
    clamped_updates s1 ws s2 ->
    clamped_updates s (w :: ws) s2.

(** ** Scenarios *)

(** A running clock at time [t] with one registered device that draws [I]
    amperes. *)
Definition w_at (t : Time) (I : R) : World := mkWorld t false [I].

(** The default cell of [GetTypeId] with the given initial energy and the
    given values of the members that the methods write. *)
Definition cell (initialEnergyJ remainingEnergyJ supplyVoltageV drainedCapacity : R)
    (lastUpdateTime : Time) (energyUpdateEvent : option Time)
    (previousLoad lastUpdateAlpha : R) (lastSampleTime : Time)
    (load : list R) (timeStamps : list Time) : LiIonBatteryModel :=
  {| m_initialEnergyJ := initialEnergyJ;
     m_remainingEnergyJ := remainingEnergyJ;
     m_supplyVoltageV := supplyVoltageV;
     m_lowBatteryTh := 0.10;
     m_eFull := 4.05;
     m_eNom := 3.6;
     m_eExp := 3.6;
     m_qRated := 2.45;
     m_qNom := 1.1;
     m_qExp := 1.2;
     m_internalResistance := 0.083;
     m_typCurrent := 2.33;
     m_minVoltTh := 3.3;
     m_drainedCapacity := drainedCapacity;
     m_energyUpdateInterval := Seconds 1;
     m_lastUpdateTime := lastUpdateTime;
     m_energyUpdateEvent := energyUpdateEvent;
     m_alpha := 35220;
     m_beta := 0.637;
     m_previousLoad := previousLoad;
     m_lastUpdateAlpha := lastUpdateAlpha;
     m_lastSampleTime := lastSampleTime;
     m_load := load;
     m_timeStamps := timeStamps |}.

(** The alpha of six seconds at 1000 mA. *)
Definition alpha_6 : R := 1000 * spec_A 6 6 0 0.637.

(** The voltage after the first update at 1 A. *)
Definition V_first : R := 4.05 + 0.083 * (2.33 - 1).

(** The voltage after the update at six seconds. *)
Definition V_6 : R := spec_V 4.05 3.6 3.6 2.45 1.1 1.2 0.083 2.33 (alpha_6 / 3600) 1.

(** The new cell after its first update, at time 0 and 1 A. *)
Definition after_first : LiIonBatteryModel :=
  cell 31752 31752 V_first 0 0 (Some 1) (1 * 1000) 0 0 [1 * 1000] [0; 0].

(** And after the update at time 6, still at 1 A. *)
Definition after_6 : LiIonBatteryModel :=
  cell 31752 (31752 - alpha_6 * V_first) V_6 (alpha_6 / 3600) 6 (Some 7)
       (1 * 1000) alpha_6 6 [1 * 1000] [0; 6].

(** A new cell configured with an initial energy of 10 J. *)
Definition small_new : LiIonBatteryModel := cell 10 10 4.05 0 0 None (-1) 0 0 [] [0].

(** After its first update, at time 0 and 1 A. *)
Definition small_first : LiIonBatteryModel :=
  cell 10 10 V_first 0 0 (Some 1) (1 * 1000) 0 0 [1 * 1000] [0; 0].

(** After the update at time 6, which clamps. *)
Definition small_clamped : LiIonBatteryModel :=
  cell 10 0 V_first 0 6 None (1 * 1000) alpha_6 6 [1 * 1000] [0; 6].

(** After a second update at time 6. *)
Definition small_again : LiIonBatteryModel :=
  cell 10 0 V_6 (alpha_6 / 3600) 6 None (1 * 1000) alpha_6 6 [1 * 1000] [0; 6].

(** After [IncreaseRemainingEnergy (100)]. *)
Definition small_refilled : LiIonBatteryModel :=
  cell 10 100 V_6 (alpha_6 / 3600) 6 None (1 * 1000) alpha_6 6 [1 * 1000] [0; 6].

(** And after one more update at time 6. *)
Definition small_rescheduled : LiIonBatteryModel :=
  cell 10 100 V_6 (alpha_6 / 3600) 6 (Some 7) (1 * 1000) alpha_6 6 [1 * 1000] [0; 6].

(** The alpha of twelve seconds at 1000 mA. *)
Definition alpha_12 : R := 1000 * spec_A 12 12 0 0.637.

(** After the update at time 12, which clamps again. *)
Definition small_clamped_12 : LiIonBatteryModel :=
  cell 10 0 V_first 0 12 None (1 * 1000) alpha_12 12 [1 * 1000] [0; 12].

(** The voltage after the first update at 12 A. *)
Definition V_heavy : R := 4.05 + 0.083 * (2.33 - 12).

(** The new cell after its first update, at time 0 and 12 A. *)
Definition heavy_first : LiIonBatteryModel :=
  cell 31752 31752 V_heavy 0 0 (Some 1) (12 * 1000) 0 0 [12 * 1000] [0; 0].

(** And after [DecreaseRemainingEnergy (1)]. *)
Definition heavy_decreased : LiIonBatteryModel :=
  cell 31752 31751 V_heavy 0 0 (Some 1) (12 * 1000) 0 0 [12 * 1000] [0; 0].

(** ** Runs of updates *)

(** The updates under the worlds [ws], one after the other: the periodic
    event and the calls of the devices, in the order the simulator runs
    them. *)
Fixpoint updates (ws : list World) : M unit :=
  match ws with
  | [] => ret tt
  | w :: ws' => UpdateEnergySource w ;; updates ws'
  end.

(** The object is as the constructor has left it at time [c], whatever its
    attributes are. *)
Definition fresh (c : Time) (s : LiIonBatteryModel) : Prop :=
  m_drainedCapacity s = 0 /\
  m_lastUpdateTime s = Seconds 0 /\
  m_previousLoad s = -1 /\
  m_lastUpdateAlpha s = 0 /\
  m_lastSampleTime s = c /\
  m_load s = [] /\
  m_timeStamps s = [c].


(** The object has been under the one load [L] since the time [s0], and its
    last update has charged the alpha of that load up to the last sample. *)
Definition constant_load (L : R) (s0 : Time) (s : LiIonBatteryModel) : Prop :=
  m_load s = [L] /\
  m_timeStamps s = [s0; m_lastSampleTime s] /\
  m_previousLoad s = L /\
  s0 <= m_lastSampleTime s /\
  m_lastUpdateAlpha s
  = L * RvModelAFunction (m_lastSampleTime s) (m_lastSampleTime s) s0 (m_beta s).

(** The charge drawn over a history, in mA·min: the sum over the segments of
    load times length. *)
Definition drawn_charge (L : list R) (s : list Time) : R :=
  Rsum (fun k => nth (k - 1) L 0 * ((nth k s 0 - nth (k - 1) s 0) / 60))
       1 (length s - 1).

(** The members that hold the attributes of [GetTypeId]: the configuration of
    the cell. *)
Definition configuration (s : LiIonBatteryModel) : list R :=
  [m_initialEnergyJ s; m_lowBatteryTh s; m_eFull s; m_eNom s; m_eExp s; m_qRated s;
   m_qNom s; m_qExp s; m_internalResistance s; m_typCurrent s; m_minVoltTh s;
   GetSeconds (m_energyUpdateInterval s); m_alpha s; m_beta s].

(** ** Methods that do not see a member *)

(** The outcome of a method with [f] applied to the object it leaves. *)
Definition outcome_map {A : Type} (f : LiIonBatteryModel -> LiIonBatteryModel)
    (o : outcome (A * LiIonBatteryModel * list Effect))
  : outcome (A * LiIonBatteryModel * list Effect) :=
  match o with
  | Ok (a, s, e) => Ok (a, f s, e)
  | AssertFailed => AssertFailed
  | OutOfBounds => OutOfBounds
  end.

(** The method [c] neither reads nor undoes what [f] writes: running it after
    [f] is running it before [f]. *)
Definition commutes {A : Type} (f : LiIonBatteryModel -> LiIonBatteryModel) (c : M A)
  : Prop :=
  forall s, c (f s) = outcome_map f (c s).

(** * Properties *)

(** ** Comparisons *)

Lemma Rltb_true (x y : R) : x < y -> Rltb x y = true.
Proof. intros H. unfold Rltb. destruct (Rlt_dec x y); [reflexivity | contradiction]. Qed.

Lemma Rltb_false (x y : R) : y <= x -> Rltb x y = false.
Proof. intros H. unfold Rltb. destruct (Rlt_dec x y); [lra | reflexivity]. Qed.

Lemma Rleb_true (x y : R) : x <= y -> Rleb x y = true.
Proof. intros H. unfold Rleb. destruct (Rle_dec x y); [reflexivity | contradiction]. Qed.

Lemma Rleb_false (x y : R) : y < x -> Rleb x y = false.
Proof. intros H. unfold Rleb. destruct (Rle_dec x y); [lra | reflexivity]. Qed.

Lemma Rneb_true (x y : R) : x <> y -> Rneb x y = true.
Proof. intros H. unfold Rneb. destruct (Req_dec_T x y); [contradiction | reflexivity]. Qed.

Lemma Rneb_false (x y : R) : x = y -> Rneb x y = false.
Proof. intros H. unfold Rneb. destruct (Req_dec_T x y); [reflexivity | contradiction]. Qed.

(** ** Running the monad *)

Ltac run := unfold bind, ret, get, gets, modify, emit, NS_ASSERT, vec_at; simpl.
Ltac run_only :=
  unfold bind, ret, get, gets, modify, emit, NS_ASSERT, vec_at; cbv beta iota.

Lemma bind_Ok {A B : Type} (c : M A) (k : A -> M B) s a s1 e1 :
  c s = Ok (a, s1, e1) ->
  bind c k s =
  match k a s1 with
  | Ok (b, s2, e2) => Ok (b, s2, e1 ++ e2)
  | AssertFailed => AssertFailed
  | OutOfBounds => OutOfBounds
  end.
Proof. intros H. unfold bind. rewrite H. reflexivity. Qed.

Lemma bind_inv {A B : Type} (c : M A) (k : A -> M B) s b s2 e :
  bind c k s = Ok (b, s2, e) ->
  exists a s1 e1 e2,
    c s = Ok (a, s1, e1) /\ k a s1 = Ok (b, s2, e2) /\ e = e1 ++ e2.
Proof.
  unfold bind. intros H.
  destruct (c s) as [[[a s1] e1]| |]; try discriminate.
  destruct (k a s1) as [[[b' s2'] e2]| |] eqn:Hk; try discriminate.
  inversion H; subst. exists a, s1, e1, e2. auto.
Qed.

(** ** The recording half of [Discharge] *)

(** The recording half of [Discharge] in closed form: the object after it,
    when the load changed and when it did not. *)
Lemma Discharge_record_changed load t s :
  load <> m_previousLoad s -> m_timeStamps s <> [] ->
  Discharge_record load t s =
  Ok (tt,
      set_m_lastSampleTime t
        (set_m_timeStamps ((removelast (m_timeStamps s) ++ [m_lastSampleTime s]) ++ [t])
           (set_m_previousLoad load (set_m_load (m_load s ++ [load]) s))),
      []).
Proof.
  intros Hne Hts. unfold Discharge_record, set_last_timeStamp. run.
  rewrite (Rneb_true _ _ Hne). simpl.
  destruct (m_timeStamps s) as [|t0 ts] eqn:E; [contradiction|]. reflexivity.
Qed.

Lemma Discharge_record_same load t s :
  load = m_previousLoad s -> m_timeStamps s <> [] ->
  Discharge_record load t s =
  Ok (tt,
      set_m_lastSampleTime t
        (set_m_timeStamps (removelast (m_timeStamps s) ++ [t]) s),
      []).
Proof.
  intros He Hts. unfold Discharge_record, set_last_timeStamp. run.
  rewrite (Rneb_false _ _ He). simpl.
  destruct (m_timeStamps s) as [|t0 ts] eqn:E; [contradiction|]. simpl.
  rewrite E. reflexivity.
Qed.

Lemma set_last_timeStamp_inv x s u s1 e :
  set_last_timeStamp x s = Ok (u, s1, e) ->
  s1 = set_m_timeStamps (removelast (m_timeStamps s) ++ [x]) s /\ e = [].
Proof.
  unfold set_last_timeStamp. destruct (m_timeStamps s); intros H;
    [discriminate | inversion H; auto].
Qed.

Lemma Discharge_record_frame load t s u s1 e :
  Discharge_record load t s = Ok (u, s1, e) -> same_but_history s s1 /\ e = [].
Proof.
  unfold Discharge_record. run. intros H.
  destruct (Rneb load (m_previousLoad s)).
  - simpl in H.
    destruct (set_last_timeStamp _ _) as [[[u1 s2] e2]| |] eqn:E; try discriminate.
    apply set_last_timeStamp_inv in E. destruct E as [-> ->].
    simpl in H. inversion H; subst. unfold same_but_history. simpl.
    destruct s; split; reflexivity.
  - destruct (m_timeStamps s) as [|t0 ts] eqn:Ets; simpl in H.
    + inversion H; subst. unfold same_but_history. simpl. rewrite Ets.
      destruct s; simpl in *; subst; split; reflexivity.
    + destruct (set_last_timeStamp _ _) as [[[u1 s2] e2]| |] eqn:E; try discriminate.
      apply set_last_timeStamp_inv in E. destruct E as [-> ->].
      simpl in H. inversion H; subst. unfold same_but_history. simpl.
      destruct s; split; reflexivity.
Qed.

(** What the recording leaves in the history members. *)
Lemma Discharge_record_post load t s u s1 e :
  Discharge_record load t s = Ok (u, s1, e) ->
  m_previousLoad s1 = load /\
  m_lastSampleTime s1 = t /\
  (m_timeStamps s1 = [] \/ m_timeStamps s1 = removelast (m_timeStamps s1) ++ [t]).
Proof.
  intros H.
  destruct (m_timeStamps s) as [|t0 ts] eqn:Ets.
  - (* no timestamp at all: only the unchanged-load branch returns *)
    revert H. unfold Discharge_record, set_last_timeStamp. run_only.
    destruct (Rneb load (m_previousLoad s)) eqn:En; cbn [m_timeStamps set_m_load set_m_previousLoad].
    + rewrite Ets. discriminate.
    + rewrite Ets. cbv beta iota. intros H. inversion H; subst. simpl.
      unfold Rneb in En. destruct (Req_dec_T load (m_previousLoad s)); [|discriminate].
      rewrite Ets. auto.
  - assert (Hne : m_timeStamps s <> []) by (rewrite Ets; discriminate).
    destruct (Req_dec_T load (m_previousLoad s)) as [Heq | Hneq].
    + rewrite (Discharge_record_same load t s Heq Hne) in H. inversion H; subst.
      simpl. rewrite removelast_last. auto.
    + rewrite (Discharge_record_changed load t s Hneq Hne) in H. inversion H; subst.
      simpl. rewrite removelast_last. auto.
Qed.

(** On an object whose history already ends at [t] with the load [load],
    the recording changes nothing. *)
Lemma Discharge_record_fixpoint load t s :
  m_previousLoad s = load ->
  m_lastSampleTime s = t ->
  (m_timeStamps s = [] \/ m_timeStamps s = removelast (m_timeStamps s) ++ [t]) ->
  Discharge_record load t s = Ok (tt, s, []).
Proof.
  intros Hp Hl Hts. unfold Discharge_record, set_last_timeStamp. run_only.
  rewrite (Rneb_false load (m_previousLoad s)) by (symmetry; exact Hp).
  destruct (m_timeStamps s) as [|t0 ts] eqn:Ets; cbv beta iota.
  - rewrite <- Hl. destruct s; reflexivity.
  - destruct Hts as [Hts | Hts]; [discriminate|].
    rewrite Ets. cbv beta iota. rewrite <- Hts. rewrite <- Hl.
    destruct s; simpl in *. subst. reflexivity.
Qed.

(** ** The alpha computation *)

(** The accumulating loop of [RvModelAFunction] adds up the terms of the
    series from [m = a] on. *)
Lemma RvModelAFunction_loop_sum (n a : nat) (beta D1 D2 acc : R) :
  RvModelAFunction_loop n (Z.of_nat a) beta D1 D2 acc =
  acc + Rsum (fun m =>
                (exp (- (beta² * (INR m)²) * D1) - exp (- (beta² * (INR m)²) * D2))
                / (beta² * (INR m)²)) a n.
Proof.
  revert a acc. induction n as [|n IH]; intros a acc; simpl.
  - lra.
  - replace (Z.of_nat a + 1)%Z with (Z.of_nat (S a)) by lia.
    rewrite IH. rewrite <- INR_IZR_INZ. unfold Rsqr.
    replace (beta * beta * INR a * INR a) with (beta * beta * (INR a * INR a)) by ring.
    lra.
Qed.

Lemma RvModelAFunction_spec (t sk sk_1 : Time) (beta : R) :
  RvModelAFunction t sk sk_1 beta = spec_A t sk sk_1 beta.
Proof.
  unfold RvModelAFunction, spec_A, GetSeconds.
  change 1%Z with (Z.of_nat 1). rewrite RvModelAFunction_loop_sum. lra.
Qed.

(** The loop of [Discharge] reads inside both vectors and adds up the
    contributions of the segments from [i] on. *)
Lemma Discharge_loop_sum (t : Time) (s : LiIonBatteryModel) :
  forall (iters i : nat) (acc : R),
    (1 <= i)%nat ->
    (i + iters = length (m_timeStamps s))%nat ->
    (length (m_timeStamps s) <= S (length (m_load s)))%nat ->
    Discharge_loop iters i t acc s =
    Ok (acc + Rsum (fun k => nth (k - 1) (m_load s) 0
                             * spec_A t (nth k (m_timeStamps s) 0)
                                 (nth (k - 1) (m_timeStamps s) 0) (m_beta s))
                   i iters,
        s, []).
Proof.
  induction iters as [|iters IH]; intros i acc Hi Hlen Hload; simpl.
  - unfold ret. f_equal. f_equal. f_equal. lra.
  - run.
    rewrite (nth_error_nth' (m_load s) 0) by lia.
    rewrite (nth_error_nth' (m_timeStamps s) 0) by lia.
    rewrite (nth_error_nth' (m_timeStamps s) 0) by lia.
    rewrite IH by lia. simpl.
    rewrite RvModelAFunction_spec.
    f_equal. f_equal. f_equal. lra.
Qed.

(** With at least one recorded segment the alpha computation succeeds, leaves
    the object alone and returns the sum of the specification. *)
Lemma Discharge_alpha_segments (t : Time) (s : LiIonBatteryModel) :
  length (m_timeStamps s) = S (length (m_load s)) ->
  m_load s <> [] ->
  Discharge_alpha t s =
  Ok (spec_alpha (m_load s) (m_timeStamps s) t (m_beta s), s, []).
Proof.
  intros Hlen Hne. unfold Discharge_alpha. run.
  assert (Hl : (1 <= length (m_load s))%nat).
  { destruct (m_load s); [contradiction | simpl; lia]. }
  destruct (m_timeStamps s) as [|t0 ts] eqn:E; [discriminate|].
  unfold size_minus_1.
  replace (Z.of_nat (length (m_load s)) =? Z.of_nat (length (t0 :: ts)) - 1)%Z
    with true by (symmetry; apply Z.eqb_eq; lia).
  simpl.
  destruct (length ts =? 0)%nat eqn:E0.
  { apply Nat.eqb_eq in E0. simpl in Hlen. lia. }
  rewrite Nat.sub_0_r. rewrite (Discharge_loop_sum t s (length ts) 1 0).
  - simpl. unfold spec_alpha. rewrite E. simpl length.
    replace (S (length ts) - 1)%nat with (length ts) by lia.
    f_equal. f_equal. f_equal. lra.
  - lia.
  - rewrite E. simpl. lia.
  - rewrite E. simpl in *. lia.
Qed.

(** With a single timestamp the alpha computation never returns: either the
    size assertion fails or [m_load[0]] is read from an empty vector. *)
Lemma Discharge_alpha_single (t : Time) (s : LiIonBatteryModel) :
  length (m_timeStamps s) = 1%nat ->
  Discharge_alpha t s = OutOfBounds \/ Discharge_alpha t s = AssertFailed.
Proof.
  intros Hlen. unfold Discharge_alpha. run.
  destruct (m_timeStamps s) as [|t0 [|t1 ts]] eqn:E; try discriminate.
  unfold size_minus_1. simpl.
  destruct (m_load s) as [|l0 ls] eqn:El; simpl.
  - left. reflexivity.
  - right. destruct (Z.pos (Pos.of_succ_nat (length ls)) =? 0)%Z eqn:Ez;
      [apply Z.eqb_eq in Ez; lia | reflexivity].
Qed.

Lemma Discharge_loop_frame t : forall iters i acc s a s1 e,
  Discharge_loop iters i t acc s = Ok (a, s1, e) -> s1 = s /\ e = [].
Proof.
  induction iters as [|iters IH]; intros i acc s a s1 e; simpl.
  - intros H. inversion H; auto.
  - run.
    destruct (nth_error (m_load s) (i - 1)); simpl; [|intros H; discriminate H].
    destruct (nth_error (m_timeStamps s) i); simpl; [|intros H; discriminate H].
    destruct (nth_error (m_timeStamps s) (i - 1)); simpl; [|intros H; discriminate H].
    destruct (Discharge_loop iters (S i) t _ s) as [[[a2 s2] e2]| |] eqn:E;
      try (intros H; discriminate H).
    apply IH in E. destruct E as [-> ->]. intros H. inversion H; subst.
    split; reflexivity.
Qed.

Lemma Discharge_alpha_frame t s a s1 e :
  Discharge_alpha t s = Ok (a, s1, e) -> s1 = s /\ e = [].
Proof.
  unfold Discharge_alpha. run_only.
  destruct (Z.of_nat (length (m_load s)) =? size_minus_1 (m_timeStamps s))%Z;
    cbv beta iota; [|intros H; discriminate H].
  destruct (length (m_timeStamps s) =? 1)%nat; cbv beta iota.
  - destruct (nth_error (m_load s) 0); cbv beta iota; [|intros H; discriminate H].
    intros H; inversion H; auto.
  - destruct (Discharge_loop _ 1 t 0 s) as [[[a2 s2] e2]| |] eqn:E;
      try (intros H; discriminate H).
    apply Discharge_loop_frame in E. destruct E as [-> ->].
    intros H; inversion H; auto.
Qed.

(** The alpha computation reads the history and [m_beta] only. *)
Lemma Discharge_loop_ext t s s' :
  m_load s' = m_load s -> m_timeStamps s' = m_timeStamps s -> m_beta s' = m_beta s ->
  forall iters i acc a,
    Discharge_loop iters i t acc s = Ok (a, s, []) ->
    Discharge_loop iters i t acc s' = Ok (a, s', []).
Proof.
  intros Hl Hts Hb. induction iters as [|iters IH]; intros i acc a; simpl.
  - unfold ret. intros H. inversion H. reflexivity.
  - run_only. rewrite Hl, Hts, Hb.
    destruct (nth_error (m_load s) (i - 1)); cbv beta iota; [|intros H; discriminate H].
    destruct (nth_error (m_timeStamps s) i); cbv beta iota; [|intros H; discriminate H].
    destruct (nth_error (m_timeStamps s) (i - 1)); cbv beta iota;
      [|intros H; discriminate H].
    destruct (Discharge_loop iters (S i) t _ s) as [[[a2 s2] e2]| |] eqn:E;
      try (intros H; discriminate H).
    destruct (Discharge_loop_frame _ _ _ _ _ _ _ _ E) as [-> ->].
    rewrite (IH _ _ _ E). intros H. inversion H; subst. reflexivity.
Qed.

Lemma Discharge_alpha_ext t s s' a s1 e :
  m_load s' = m_load s -> m_timeStamps s' = m_timeStamps s -> m_beta s' = m_beta s ->
  Discharge_alpha t s = Ok (a, s1, e) ->
  Discharge_alpha t s' = Ok (a, s', []).
Proof.
  intros Hl Hts Hb H.
  destruct (Discharge_alpha_frame _ _ _ _ _ H) as [-> ->].
  revert H. unfold Discharge_alpha. run_only. rewrite Hl, Hts.
  destruct (Z.of_nat (length (m_load s)) =? size_minus_1 (m_timeStamps s))%Z;
    cbv beta iota; [|intros H; discriminate H].
  destruct (length (m_timeStamps s) =? 1)%nat; cbv beta iota.
  - rewrite ?Hb.
    destruct (nth_error (m_load s) 0); cbv beta iota; [|intros H; discriminate H].
    rewrite ?Hb. intros H. inversion H; subst. reflexivity.
  - destruct (Discharge_loop _ 1 t 0 s) as [[[a2 s2] e2]| |] eqn:E;
      try (intros H; discriminate H).
    destruct (Discharge_loop_frame _ _ _ _ _ _ _ _ E) as [-> ->].
    rewrite (Discharge_loop_ext t s s' Hl Hts Hb _ _ _ _ E).
    intros H. inversion H; subst. reflexivity.
Qed.

(** ** [Discharge] as a whole *)

Lemma Discharge_frame load t s a s1 e :
  Discharge load t s = Ok (a, s1, e) -> same_but_history s s1 /\ e = [].
Proof.
  unfold Discharge. intros H. apply bind_inv in H.
  destruct H as (u & s2 & e1 & e2 & Hr & Ha & ->).
  apply Discharge_record_frame in Hr. destruct Hr as [Hr ->].
  apply Discharge_alpha_frame in Ha. destruct Ha as [-> ->]. auto.
Qed.

Lemma Discharge_frame_members load t s a h e :
  Discharge load t s = Ok (a, h, e) ->
  m_remainingEnergyJ h = m_remainingEnergyJ s /\
  m_supplyVoltageV h = m_supplyVoltageV s /\
  m_lastUpdateAlpha h = m_lastUpdateAlpha s /\
  m_drainedCapacity h = m_drainedCapacity s /\
  m_initialEnergyJ h = m_initialEnergyJ s /\
  m_lowBatteryTh h = m_lowBatteryTh s /\
  m_energyUpdateInterval h = m_energyUpdateInterval s /\
  m_energyUpdateEvent h = m_energyUpdateEvent s /\
  (forall i, GetVoltage h i = GetVoltage s i).
Proof.
  intros H. destruct (Discharge_frame _ _ _ _ _ _ H) as [Hf _].
  unfold same_but_history in Hf. rewrite Hf. simpl. repeat split.
Qed.

Lemma Discharge_run_changed load t s :
  load <> m_previousLoad s ->
  length (m_timeStamps s) = S (length (m_load s)) ->
  let s1 := set_m_lastSampleTime t
              (set_m_timeStamps
                 ((removelast (m_timeStamps s) ++ [m_lastSampleTime s]) ++ [t])
                 (set_m_previousLoad load (set_m_load (m_load s ++ [load]) s))) in
  Discharge load t s =
  Ok (spec_alpha (m_load s ++ [load])
        ((removelast (m_timeStamps s) ++ [m_lastSampleTime s]) ++ [t]) t (m_beta s),
      s1, []).
Proof.
  intros Hne Hlen s1.
  assert (Hts : m_timeStamps s <> []) by (intros E; rewrite E in Hlen; discriminate).
  unfold Discharge. rewrite (bind_Ok _ _ _ _ _ _ (Discharge_record_changed load t s Hne Hts)).
  fold s1. rewrite Discharge_alpha_segments.
  - reflexivity.
  - subst s1. simpl. rewrite !length_app. simpl.
    assert (Hr : length (removelast (m_timeStamps s)) = length (m_load s)).
    { rewrite (app_removelast_last 0 Hts) in Hlen. rewrite length_app in Hlen.
      simpl in Hlen. lia. }
    lia.
  - subst s1. simpl. intros E. apply (f_equal (@length R)) in E.
    rewrite length_app in E. simpl in E. lia.
Qed.

Lemma Discharge_run_same load t s :
  load = m_previousLoad s ->
  length (m_timeStamps s) = S (length (m_load s)) ->
  m_load s <> [] ->
  let s1 := set_m_lastSampleTime t
              (set_m_timeStamps (removelast (m_timeStamps s) ++ [t]) s) in
  Discharge load t s =
  Ok (spec_alpha (m_load s) (removelast (m_timeStamps s) ++ [t]) t (m_beta s), s1, []).
Proof.
  intros He Hlen Hl s1.
  assert (Hts : m_timeStamps s <> []) by (intros E; rewrite E in Hlen; discriminate).
  unfold Discharge. rewrite (bind_Ok _ _ _ _ _ _ (Discharge_record_same load t s He Hts)).
  fold s1. rewrite Discharge_alpha_segments.
  - reflexivity.
  - subst s1. simpl. rewrite length_app. simpl.
    rewrite (app_removelast_last 0 Hts) in Hlen. rewrite length_app in Hlen.
    simpl in Hlen. lia.
  - exact Hl.
Qed.

(** Once a load has been recorded, [Discharge (load, t)] returns the sum of
    the specification over the segments of the history it has just
    recorded. *)
Lemma Discharge_returns_spec_alpha (s : LiIonBatteryModel) (load : R) (t : Time) :
  length (m_timeStamps s) = S (length (m_load s)) ->
  m_load s <> [] \/ load <> m_previousLoad s ->
  exists s1,
    Discharge_record load t s = Ok (tt, s1, []) /\
    Discharge load t s =
    Ok (spec_alpha (m_load s1) (m_timeStamps s1) t (m_beta s1), s1, []).
Proof.
  intros Hlen Hrec.
  destruct (Req_dec_T load (m_previousLoad s)) as [Heq | Hneq].
  - destruct Hrec as [Hl | Hc]; [|contradiction].
    eexists. split.
    + apply Discharge_record_same; [exact Heq|].
      intros E. rewrite E in Hlen. discriminate.
    + rewrite (Discharge_run_same load t s Heq Hlen Hl). reflexivity.
  - eexists. split.
    + apply Discharge_record_changed; [exact Hneq|].
      intros E. rewrite E in Hlen. discriminate.
    + rewrite (Discharge_run_changed load t s Hneq Hlen). reflexivity.
Qed.

(** The first call on an object constructed at time 0, with a load other than
    the sentinel, records one segment [[0, t)] and returns the single term
    [load * A(t, t, 0, beta)], through the loop over the segments. *)
Lemma Discharge_first_load (load : R) (t : Time) :
  load <> -1 ->
  exists alpha s1,
    Discharge load t (LiIonBatteryModel_new 0) = Ok (alpha, s1, []) /\
    alpha = load * spec_A t t 0 0.637 /\
    m_load s1 = [load] /\ m_timeStamps s1 = [0; t].
Proof.
  intros Hne.
  pose proof (Discharge_run_changed load t (LiIonBatteryModel_new 0) Hne eq_refl) as HD.
  simpl in HD. unfold spec_alpha in HD. simpl in HD.
  eexists. eexists. split; [exact HD|].
  split; [lra | split; reflexivity].
Qed.

(** And so does every later call with the same load. *)
Lemma Discharge_constant_load (load : R) (t t0 : Time) (s : LiIonBatteryModel) :
  m_load s = [load] -> m_timeStamps s = [0; t0] -> m_previousLoad s = load ->
  exists alpha s1,
    Discharge load t s = Ok (alpha, s1, []) /\
    alpha = load * spec_A t t 0 (m_beta s) /\
    m_load s1 = [load] /\ m_timeStamps s1 = [0; t].
Proof.
  intros Hl Hts Hp.
  assert (Hlen : length (m_timeStamps s) = S (length (m_load s)))
    by (rewrite Hl, Hts; reflexivity).
  assert (Hne : m_load s <> []) by (rewrite Hl; discriminate).
  pose proof (Discharge_run_same load t s (eq_sym Hp) Hlen Hne) as HD.
  cbv zeta in HD. rewrite Hl, Hts in HD. simpl in HD. unfold spec_alpha in HD.
  simpl in HD.
  eexists. eexists. split; [exact HD|].
  split; [lra | split; [simpl; exact Hl | reflexivity]].
Qed.

(** The first call on a new object with the load [-1.0] of the sentinel in
    [m_previousLoad] records nothing and reads [m_load[0]] of an empty
    vector. *)
Lemma Discharge_new_sentinel (now t : Time) :
  Discharge (-1) t (LiIonBatteryModel_new now) = OutOfBounds.
Proof.
  unfold Discharge, bind.
  rewrite Discharge_record_same; [|reflexivity | discriminate].
  reflexivity.
Qed.

(** Asked again with the same load at the same time, on an object with the
    history the first call left, [Discharge] returns the same alpha and
    changes nothing. *)
Lemma Discharge_again load t s alpha s1 e s' :
  Discharge load t s = Ok (alpha, s1, e) ->
  m_load s' = m_load s1 -> m_timeStamps s' = m_timeStamps s1 ->
  m_previousLoad s' = m_previousLoad s1 -> m_lastSampleTime s' = m_lastSampleTime s1 ->
  m_beta s' = m_beta s1 ->
  Discharge load t s' = Ok (alpha, s', []).
Proof.
  intros H Hl Hts Hp Hls Hb. unfold Discharge in H. apply bind_inv in H.
  destruct H as (u & s2 & e1 & e2 & Hr & Ha & ->).
  destruct (Discharge_alpha_frame _ _ _ _ _ Ha) as [-> ->].
  destruct (Discharge_record_post _ _ _ _ _ _ Hr) as (Hp2 & Hl2 & Hts2).
  unfold Discharge.
  rewrite (bind_Ok _ _ s' tt s' []).
  - rewrite (Discharge_alpha_ext t s2 s' _ _ _ Hl Hts Hb Ha). reflexivity.
  - apply Discharge_record_fixpoint.
    + rewrite Hp. exact Hp2.
    + rewrite Hls. exact Hl2.
    + rewrite Hts. exact Hts2.
Qed.

Lemma Discharge_keeps_sizes load t s alpha h e :
  length (m_timeStamps s) = S (length (m_load s)) ->
  Discharge load t s = Ok (alpha, h, e) ->
  length (m_timeStamps h) = S (length (m_load h)) /\ m_load h <> [].
Proof.
  intros Hlen HD.
  assert (Hts : m_timeStamps s <> []) by (intros E; rewrite E in Hlen; discriminate).
  destruct (Req_dec_T load (m_previousLoad s)) as [Heq | Hneq].
  - destruct (m_load s) as [|l0 ls] eqn:El.
    + exfalso. unfold Discharge in HD.
      rewrite (bind_Ok _ _ _ _ _ _ (Discharge_record_same load t s Heq Hts)) in HD.
      destruct (Discharge_alpha_single t
                  (set_m_lastSampleTime t
                     (set_m_timeStamps (removelast (m_timeStamps s) ++ [t]) s)))
        as [Hc | Hc].
      * simpl. rewrite length_app. simpl.
        rewrite (app_removelast_last 0 Hts) in Hlen. rewrite length_app in Hlen.
        simpl in Hlen. lia.
      * rewrite Hc in HD. discriminate.
      * rewrite Hc in HD. discriminate.
    + assert (Hl : m_load s <> []) by (rewrite El; discriminate).
      rewrite <- El in Hlen.
      rewrite (Discharge_run_same load t s Heq Hlen Hl) in HD.
      inversion HD; subst. simpl. split; [|exact Hl].
      rewrite length_app. simpl.
      rewrite (app_removelast_last 0 Hts) in Hlen. rewrite length_app in Hlen.
      simpl in Hlen. lia.
  - rewrite (Discharge_run_changed load t s Hneq Hlen) in HD.
    inversion HD; subst. simpl. split.
    + rewrite !length_app. simpl.
      rewrite (app_removelast_last 0 Hts) in Hlen. rewrite length_app in Hlen.
      simpl in Hlen. lia.
    + intros E. apply (f_equal (@length R)) in E. rewrite length_app in E.
      simpl in E. lia.
Qed.

(** ** The invariant of the load history is kept *)

Lemma Sorted_replace_last (l : list R) (z t : R) :
  Sorted Rle (l ++ [z]) -> z <= t -> Sorted Rle (l ++ [t]).
Proof.
  induction l as [|a l IH]; intros Hs Hz; simpl in *.
  - apply Sorted_cons; [apply Sorted_nil | apply HdRel_nil].
  - inversion Hs as [|? ? Hs' Hd]; subst. apply Sorted_cons.
    + apply IH; assumption.
    + destruct l as [|b l]; simpl in *.
      * inversion Hd; subst. apply HdRel_cons. lra.
      * inversion Hd; subst. apply HdRel_cons. assumption.
Qed.

Lemma Sorted_push (l : list R) (z t : R) :
  Sorted Rle (l ++ [z]) -> z <= t -> Sorted Rle ((l ++ [z]) ++ [t]).
Proof.
  induction l as [|a l IH]; intros Hs Hz; simpl in *.
  - apply Sorted_cons; [apply Sorted_cons; [apply Sorted_nil | apply HdRel_nil]|].
    apply HdRel_cons. exact Hz.
  - inversion Hs as [|? ? Hs' Hd]; subst. apply Sorted_cons.
    + apply IH; assumption.
    + destruct l as [|b l]; simpl in *; inversion Hd; subst; apply HdRel_cons; assumption.
Qed.

Lemma sizes_agree (s : LiIonBatteryModel) :
  length (m_timeStamps s) = S (length (m_load s)) ->
  Z.of_nat (length (m_load s)) = size_minus_1 (m_timeStamps s).
Proof.
  intros H. destruct (m_timeStamps s) as [|t0 ts]; [discriminate|].
  change (Z.of_nat (length (m_load s)) = Z.of_nat (length (t0 :: ts)) - 1)%Z.
  rewrite H. lia.
Qed.

(** The constructor establishes the invariant. *)
Lemma history_inv_new (now : Time) : history_inv (LiIonBatteryModel_new now).
Proof.
  unfold history_inv. simpl. repeat split.
  apply Sorted_cons; [apply Sorted_nil | apply HdRel_nil].
Qed.

Lemma history_inv_nonempty (s : LiIonBatteryModel) :
  history_inv s -> m_timeStamps s <> [].
Proof. intros [H _] E. rewrite E in H. discriminate. Qed.

Lemma history_inv_split (s : LiIonBatteryModel) :
  history_inv s ->
  m_timeStamps s = removelast (m_timeStamps s) ++ [m_lastSampleTime s].
Proof.
  intros H. destruct H as (Hl & _ & Hlast). rewrite <- Hlast.
  apply app_removelast_last. intros E. rewrite E in Hl. discriminate.
Qed.

(** The invariant depends on the history members only. *)
Lemma history_inv_ext (s s' : LiIonBatteryModel) :
  m_load s' = m_load s -> m_timeStamps s' = m_timeStamps s ->
  m_lastSampleTime s' = m_lastSampleTime s ->
  history_inv s -> history_inv s'.
Proof. unfold history_inv. intros -> -> ->. auto. Qed.

(** The recording keeps the invariant when time does not go back. *)
Lemma Discharge_record_keeps_history (s : LiIonBatteryModel) (load : R) (t : Time) :
  history_inv s ->
  m_lastSampleTime s <= t ->
  exists s1 : LiIonBatteryModel,
    Discharge_record load t s = Ok (tt, s1, []) /\
    (load = m_previousLoad s ->
       m_load s1 = m_load s /\
       m_timeStamps s1 = removelast (m_timeStamps s) ++ [t] /\
       length (m_timeStamps s1) = length (m_timeStamps s)) /\
    (load <> m_previousLoad s ->
       m_load s1 = m_load s ++ [load] /\
       m_timeStamps s1 = m_timeStamps s ++ [t]) /\
    history_inv s1.
Proof.
  intros Hinv Ht.
  pose proof (history_inv_nonempty s Hinv) as Hne.
  pose proof (history_inv_split s Hinv) as Hsplit.
  destruct Hinv as (Hlen & Hsorted & Hlast).
  destruct (Req_dec_T load (m_previousLoad s)) as [Heq | Hneq].
  - (* the load did not change *)
    pose proof (Discharge_record_same load t s Heq Hne) as Hrec.
    eexists. split; [exact Hrec|].
    assert (Hlen1 : length (removelast (m_timeStamps s) ++ [t]) = length (m_timeStamps s)).
    { rewrite Hsplit at 2. rewrite !length_app. reflexivity. }
    split; [intros _; simpl; auto|].
    split; [intros Hc; contradiction|].
    unfold history_inv. simpl. repeat split.
    + rewrite Hlen1. exact Hlen.
    + apply Sorted_replace_last with (z := m_lastSampleTime s);
        [rewrite <- Hsplit; exact Hsorted | exact Ht].
    + apply last_last.
  - (* the load changed *)
    pose proof (Discharge_record_changed load t s Hneq Hne) as Hrec.
    rewrite <- Hsplit in Hrec.
    eexists. split; [exact Hrec|].
    split; [intros Hc; contradiction|].
    split; [intros _; simpl; auto|].
    unfold history_inv. simpl. repeat split.
    + rewrite !length_app. simpl. lia.
    + replace (m_timeStamps s ++ [t])
        with ((removelast (m_timeStamps s) ++ [m_lastSampleTime s]) ++ [t])
        by (rewrite <- Hsplit; reflexivity).
      apply Sorted_push; [rewrite <- Hsplit; exact Hsorted | exact Ht].
    + apply last_last.
Qed.

(** ** The energy update in closed form *)

Lemma CalculateRemainingEnergy_run w s alpha s1 :
  Discharge (CalculateTotalCurrent w * 1000) (Now w) s = Ok (alpha, s1, []) ->
  m_lastUpdateTime s <= Now w ->
  CalculateRemainingEnergy w s =
  Ok (tt, energy_step (CalculateTotalCurrent w) alpha s1, []).
Proof.
  intros HD Ht. unfold CalculateRemainingEnergy. run_only. rewrite HD. cbv beta iota.
  rewrite Rleb_true by (unfold GetSeconds; lra). cbv beta iota.
  unfold energy_step, energy_branch, energyToDecreaseJ.
  destruct (Rltb (m_remainingEnergyJ s1) _); reflexivity.
Qed.

Lemma CalculateRemainingEnergy_inv w s u s' e :
  CalculateRemainingEnergy w s = Ok (u, s', e) ->
  exists alpha s1,
    Discharge (CalculateTotalCurrent w * 1000) (Now w) s = Ok (alpha, s1, []) /\
    m_lastUpdateTime s <= Now w /\
    s' = energy_step (CalculateTotalCurrent w) alpha s1 /\ e = [].
Proof.
  intros H.
  destruct (Discharge (CalculateTotalCurrent w * 1000) (Now w) s)
    as [[[alpha s1] e1]| |] eqn:HD.
  - destruct (Discharge_frame _ _ _ _ _ _ HD) as [_ ->].
    destruct (Rle_dec (m_lastUpdateTime s) (Now w)) as [Ht | Ht].
    + rewrite (CalculateRemainingEnergy_run w s alpha s1 HD Ht) in H.
      inversion H; subst. exists alpha, s1. auto.
    + exfalso. revert H. unfold CalculateRemainingEnergy. run_only.
      rewrite HD. cbv beta iota.
      rewrite Rleb_false by (unfold GetSeconds; lra). discriminate.
  - exfalso. revert H. unfold CalculateRemainingEnergy. run_only.
    rewrite HD. discriminate.
  - exfalso. revert H. unfold CalculateRemainingEnergy. run_only.
    rewrite HD. discriminate.
Qed.

Lemma CalculateRemainingEnergy_step w I s alpha s1 :
  CalculateTotalCurrent w = I ->
  Discharge (I * 1000) (Now w) s = Ok (alpha, s1, []) ->
  m_lastUpdateTime s <= Now w ->
  CalculateRemainingEnergy w s = Ok (tt, energy_step I alpha s1, []).
Proof. intros <- HD Ht. apply CalculateRemainingEnergy_run; assumption. Qed.

Lemma UpdateEnergySource_run w s s2 :
  IsFinished w = false ->
  CalculateRemainingEnergy w (set_m_energyUpdateEvent None s) = Ok (tt, s2, []) ->
  UpdateEnergySource w s = Ok (tt, fst (update_finish w s2), snd (update_finish w s2)).
Proof.
  intros Hf HC. unfold UpdateEnergySource. rewrite Hf. run_only. rewrite HC.
  cbv beta iota. unfold update_finish, HandleEnergyDrainedEvent, NotifyEnergyDrained, emit.
  cbv zeta.
  destruct (Rleb _ _); reflexivity.
Qed.

Lemma UpdateEnergySource_inv w s u s' e :
  IsFinished w = false ->
  UpdateEnergySource w s = Ok (u, s', e) ->
  exists s2,
    CalculateRemainingEnergy w (set_m_energyUpdateEvent None s) = Ok (tt, s2, []) /\
    s' = fst (update_finish w s2) /\ e = snd (update_finish w s2).
Proof.
  intros Hf H.
  destruct (CalculateRemainingEnergy w (set_m_energyUpdateEvent None s))
    as [[[[] s2] e2]| |] eqn:HC.
  - destruct (CalculateRemainingEnergy_inv _ _ _ _ _ HC) as (alpha & s1 & _ & _ & _ & ->).
    rewrite (UpdateEnergySource_run w s s2 Hf HC) in H. inversion H; subst.
    exists s2. auto.
  - exfalso. revert H. unfold UpdateEnergySource. rewrite Hf. run_only.
    rewrite HC. discriminate.
  - exfalso. revert H. unfold UpdateEnergySource. rewrite Hf. run_only.
    rewrite HC. discriminate.
Qed.

(** The update with its effects, once [Discharge] has returned. *)
Lemma UpdateEnergySource_inv_full w s s' e :
  IsFinished w = false ->
  UpdateEnergySource w s = Ok (tt, s', e) ->
  exists alpha h,
    Discharge (CalculateTotalCurrent w * 1000) (Now w) (set_m_energyUpdateEvent None s)
      = Ok (alpha, h, []) /\
    m_lastUpdateTime s <= Now w /\
    s' = fst (update_finish w (energy_step (CalculateTotalCurrent w) alpha h)) /\
    e = snd (update_finish w (energy_step (CalculateTotalCurrent w) alpha h)).
Proof.
  intros Hf HU.
  destruct (UpdateEnergySource_inv _ _ _ _ _ Hf HU) as (s2 & HC & -> & ->).
  destruct (CalculateRemainingEnergy_inv _ _ _ _ _ HC) as (alpha & h & HD & Ht & -> & _).
  exists alpha, h. simpl in Ht. auto.
Qed.

(** When the clock has finished the update does nothing. *)
Lemma UpdateEnergySource_finished w s :
  IsFinished w = true -> UpdateEnergySource w s = Ok (tt, s, []).
Proof. intros Hf. unfold UpdateEnergySource. rewrite Hf. reflexivity. Qed.

Lemma UpdateEnergySource_step w I s alpha s1 :
  IsFinished w = false ->
  CalculateTotalCurrent w = I ->
  Discharge (I * 1000) (Now w) (set_m_energyUpdateEvent None s) = Ok (alpha, s1, []) ->
  m_lastUpdateTime s <= Now w ->
  UpdateEnergySource w s =
  Ok (tt, fst (update_finish w (energy_step I alpha s1)),
      snd (update_finish w (energy_step I alpha s1))).
Proof.
  intros Hf <- HD Ht. apply UpdateEnergySource_run; [exact Hf|].
  apply CalculateRemainingEnergy_run; [exact HD | exact Ht].
Qed.

Lemma CalculateTotalCurrent_one t f I : CalculateTotalCurrent (mkWorld t f [I]) = I.
Proof. unfold CalculateTotalCurrent. simpl. lra. Qed.

Lemma GetRemainingEnergy_inv w s v s' e :
  GetRemainingEnergy w s = Ok (v, s', e) ->
  UpdateEnergySource w s = Ok (tt, s', e) /\ v = m_remainingEnergyJ s'.
Proof.
  unfold GetRemainingEnergy. intros H. apply bind_inv in H.
  destruct H as ([] & s1 & e1 & e2 & HU & HG & ->).
  unfold gets in HG. inversion HG; subst. rewrite app_nil_r. auto.
Qed.

Lemma GetRemainingEnergy_run w s s' e :
  UpdateEnergySource w s = Ok (tt, s', e) ->
  GetRemainingEnergy w s = Ok (m_remainingEnergyJ s', s', e).
Proof.
  intros H. unfold GetRemainingEnergy. rewrite (bind_Ok _ _ _ _ _ _ H).
  unfold gets. rewrite app_nil_r. reflexivity.
Qed.



Lemma DecreaseRemainingEnergy_inv energyJ s u s' e :
  DecreaseRemainingEnergy energyJ s = Ok (u, s', e) ->
  0 <= energyJ /\
  s' = set_m_remainingEnergyJ (m_remainingEnergyJ s - energyJ) s /\
  e = if Rleb (m_supplyVoltageV s) (m_minVoltTh s) then [EvEnergyDrained] else [].
Proof.
  unfold DecreaseRemainingEnergy, HandleEnergyDrainedEvent, NotifyEnergyDrained.
  run_only.
  destruct (Rle_dec 0 energyJ) as [H | H].
  - rewrite Rleb_true by exact H. cbv beta iota. simpl.
    destruct (Rleb (m_supplyVoltageV s) (m_minVoltTh s)); intros E; inversion E; auto.
  - rewrite Rleb_false by lra. discriminate.
Qed.

(** ** Members after an energy step *)

Lemma energy_branch_cases alpha s :
  (clamped alpha s /\ energy_branch alpha s = set_m_remainingEnergyJ 0 s) \/
  (energyToDecreaseJ alpha s <= m_remainingEnergyJ s /\
   energy_branch alpha s =
   set_m_drainedCapacity (alpha / 3600)
     (set_m_remainingEnergyJ (m_remainingEnergyJ s - energyToDecreaseJ alpha s) s)).
Proof.
  unfold energy_branch, clamped.
  destruct (Rlt_dec (m_remainingEnergyJ s) (energyToDecreaseJ alpha s)) as [H | H].
  - left. rewrite Rltb_true by exact H. auto.
  - right. rewrite Rltb_false by lra. split; [lra | reflexivity].
Qed.

Lemma energy_step_remaining I alpha s :
  m_remainingEnergyJ (energy_step I alpha s) =
  m_remainingEnergyJ (energy_branch alpha s).
Proof. reflexivity. Qed.

Lemma energy_step_nonneg I alpha s :
  0 <= m_remainingEnergyJ (energy_step I alpha s).
Proof.
  rewrite energy_step_remaining.
  destruct (energy_branch_cases alpha s) as [[_ ->] | [H ->]]; simpl; lra.
Qed.

Lemma energy_step_lastUpdateAlpha I alpha s :
  m_lastUpdateAlpha (energy_step I alpha s) = alpha.
Proof. reflexivity. Qed.

Lemma energy_step_history I alpha s :
  m_load (energy_step I alpha s) = m_load s /\
  m_timeStamps (energy_step I alpha s) = m_timeStamps s /\
  m_previousLoad (energy_step I alpha s) = m_previousLoad s /\
  m_lastSampleTime (energy_step I alpha s) = m_lastSampleTime s /\
  m_beta (energy_step I alpha s) = m_beta s.
Proof.
  unfold energy_step, energy_branch.
  destruct (Rltb _ _); simpl; repeat split; reflexivity.
Qed.

Lemma energy_step_unclamped I alpha s :
  energyToDecreaseJ alpha s <= m_remainingEnergyJ s ->
  energy_step I alpha s =
  let s2 := set_m_drainedCapacity (alpha / 3600)
              (set_m_remainingEnergyJ (m_remainingEnergyJ s - energyToDecreaseJ alpha s) s) in
  set_m_lastUpdateAlpha alpha (set_m_supplyVoltageV (GetVoltage s2 I) s2).
Proof.
  intros H. unfold energy_step, energy_branch. rewrite Rltb_false by exact H. reflexivity.
Qed.

Lemma energy_step_clamped I alpha s :
  clamped alpha s ->
  energy_step I alpha s =
  let s2 := set_m_remainingEnergyJ 0 s in
  set_m_lastUpdateAlpha alpha (set_m_supplyVoltageV (GetVoltage s2 I) s2).
Proof.
  intros H. unfold energy_step, energy_branch. rewrite Rltb_true by exact H. reflexivity.
Qed.

Lemma update_finish_members w s :
  let s' := fst (update_finish w s) in
  m_remainingEnergyJ s' = m_remainingEnergyJ s /\
  m_lastUpdateAlpha s' = m_lastUpdateAlpha s /\
  m_supplyVoltageV s' = m_supplyVoltageV s /\
  m_drainedCapacity s' = m_drainedCapacity s /\
  m_lastUpdateTime s' = Now w /\
  m_load s' = m_load s /\
  m_timeStamps s' = m_timeStamps s /\
  m_previousLoad s' = m_previousLoad s /\
  m_lastSampleTime s' = m_lastSampleTime s /\
  m_beta s' = m_beta s.
Proof.
  unfold update_finish. cbv zeta.
  destruct (Rleb _ _); simpl; repeat split; reflexivity.
Qed.

Lemma update_finish_active w s :
  m_lowBatteryTh s * m_initialEnergyJ s < m_remainingEnergyJ s ->
  update_finish w s =
  (set_m_energyUpdateEvent (Some (Now w + m_energyUpdateInterval s))
     (set_m_lastUpdateTime (Now w) s),
   [EvCancel; EvSchedule (m_energyUpdateInterval s)]).
Proof.
  intros H. unfold update_finish. cbv zeta. 
  rewrite Rleb_false; [reflexivity | exact H].
Qed.

Lemma update_finish_depleted w s :
  depleted s ->
  update_finish w s = (set_m_lastUpdateTime (Now w) s, [EvCancel; EvEnergyDrained]).
Proof.
  intros H. unfold update_finish. cbv zeta. 
  rewrite Rleb_true; [reflexivity | exact H].
Qed.

(** An energy step with the alpha of the last update removes nothing. *)
Lemma energy_step_same_alpha I s :
  0 <= m_remainingEnergyJ s ->
  energyToDecreaseJ (m_lastUpdateAlpha s) s = 0 /\
  m_remainingEnergyJ (energy_step I (m_lastUpdateAlpha s) s) = m_remainingEnergyJ s.
Proof.
  intros Hr.
  assert (He : energyToDecreaseJ (m_lastUpdateAlpha s) s = 0)
    by (unfold energyToDecreaseJ; ring).
  split; [exact He|].
  rewrite energy_step_remaining.
  destruct (energy_branch_cases (m_lastUpdateAlpha s) s) as [[Hc _] | [_ ->]].
  - unfold clamped in Hc. lra.
  - simpl. lra.
Qed.


Lemma depleted_dec (s : LiIonBatteryModel) : {depleted s} + {~ depleted s}.
Proof. unfold depleted. apply Rle_dec. Qed.

(** The log and the pending event of one update on a running clock. *)
Lemma update_effects w s s' e :
  IsFinished w = false ->
  UpdateEnergySource w s = Ok (tt, s', e) ->
  (depleted s' /\ e = [EvCancel; EvEnergyDrained] /\ m_energyUpdateEvent s' = None) \/
  (~ depleted s' /\ e = [EvCancel; EvSchedule (m_energyUpdateInterval s')] /\
   m_energyUpdateEvent s' = Some (Now w + m_energyUpdateInterval s')).
Proof.
  intros Hf HU.
  destruct (UpdateEnergySource_inv_full _ _ _ _ Hf HU) as (alpha & h & HD & _ & -> & ->).
  destruct (Discharge_frame_members _ _ _ _ _ _ HD) as (_ & _ & _ & _ & _ & _ & _ & Hev & _).
  simpl in Hev.
  assert (Hev2 : m_energyUpdateEvent (energy_step (CalculateTotalCurrent w) alpha h) = None).
  { unfold energy_step, energy_branch.
    destruct (Rltb _ _); simpl; exact Hev. }
  remember (energy_step (CalculateTotalCurrent w) alpha h) as s2 eqn:Es2.
  destruct (depleted_dec s2) as [Hd | Hn].
  - left. rewrite (update_finish_depleted w s2 Hd). simpl.
    split; [exact Hd | split; [reflexivity | exact Hev2]].
  - right. unfold depleted in Hn.
    rewrite (update_finish_active w s2) by lra. simpl.
    split; [unfold depleted; simpl; lra | split; reflexivity].
Qed.

(** One update that takes the clamp branch. *)
Lemma clamped_update w s s' e alpha h :
  IsFinished w = false ->
  Discharge (CalculateTotalCurrent w * 1000) (Now w) (set_m_energyUpdateEvent None s)
    = Ok (alpha, h, []) ->
  clamped alpha h ->
  UpdateEnergySource w s = Ok (tt, s', e) ->
  m_remainingEnergyJ s' = 0 /\
  m_drainedCapacity s' = m_drainedCapacity s /\
  m_lastUpdateAlpha s' = alpha /\
  m_supplyVoltageV s' = GetVoltage s (CalculateTotalCurrent w) /\
  (forall i, GetVoltage s' i = GetVoltage s i).
Proof.
  intros Hf HD Hc HU.
  destruct (UpdateEnergySource_inv_full _ _ _ _ Hf HU) as (alpha' & h' & HD' & _ & -> & _).
  rewrite HD in HD'. inversion HD'; subst alpha' h'. clear HD'.
  destruct (update_finish_members w (energy_step (CalculateTotalCurrent w) alpha h))
    as (Hr & Ha & HV & Hdc & _).
  rewrite Hr, Ha, HV, Hdc.
  destruct (Discharge_frame_members _ _ _ _ _ _ HD) as (_ & _ & _ & Hdh & _ & _ & _ & _ & HG).
  simpl in Hdh.
  rewrite (energy_step_clamped _ _ _ Hc). cbv zeta. simpl.
  split; [reflexivity|]. split; [exact Hdh|]. split; [reflexivity|].
  assert (HG2 : forall i, GetVoltage (set_m_remainingEnergyJ 0 h) i = GetVoltage s i).
  { intros i.
    transitivity (GetVoltage h i); [reflexivity|].
    transitivity (GetVoltage (set_m_energyUpdateEvent None s) i); [apply HG | reflexivity]. }
  split; [apply HG2|].
  intros i. rewrite <- (HG2 i).
  unfold update_finish. cbv zeta. destruct (Rleb _ _); reflexivity.
Qed.

Lemma clamped_updates_snoc s ws w s' :
  clamped_updates s (ws ++ [w]) s' ->
  exists sp, clamped_updates s ws sp /\ clamped_updates sp [w] s'.
Proof.
  revert s. induction ws as [|w0 ws IH]; intros s H; simpl in H.
  - exists s. split; [constructor | exact H].
  - inversion H as [|? ? ? alpha h s1 e ? Hf HD Hc HU Hrest]; subst.
    destruct (IH _ Hrest) as (sp & Hsp & Hlast).
    exists sp. split; [|exact Hlast].
    econstructor; eassumption.
Qed.

(** A run of clamped updates keeps the drained capacity and the voltage
    curve. *)
Lemma clamped_updates_stale s ws s' :
  clamped_updates s ws s' ->
  m_drainedCapacity s' = m_drainedCapacity s /\
  (forall i, GetVoltage s' i = GetVoltage s i).
Proof.
  induction 1 as [s | s w ws alpha h s1 e s2 Hf HD Hc HU Hrest IH].
  - split; reflexivity.
  - destruct (clamped_update _ _ _ _ _ _ Hf HD Hc HU) as (_ & Hd & _ & _ & HG).
    destruct IH as [IHd IHG]. split; [congruence|].
    intros i. rewrite IHG. apply HG.
Qed.

(** Whatever the history, [CalculateRemainingEnergy] leaves a remaining
    energy that is not negative. *)
Lemma CalculateRemainingEnergy_clamps w s u s' e :
  CalculateRemainingEnergy w s = Ok (u, s', e) -> 0 <= m_remainingEnergyJ s'.
Proof.
  intros H.
  destruct (CalculateRemainingEnergy_inv _ _ _ _ _ H) as (alpha & h & _ & _ & -> & _).
  apply energy_step_nonneg.
Qed.

(** ** Updates return and keep the invariant *)

(** An update on a ready object returns. *)
Lemma UpdateEnergySource_returns w s :
  ready w s -> exists s' e, UpdateEnergySource w s = Ok (tt, s', e).
Proof.
  intros (Hlen & Hrec & Ht).
  destruct (IsFinished w) eqn:Hf.
  - exists s, []. apply UpdateEnergySource_finished. exact Hf.
  - destruct (Discharge_returns_spec_alpha (set_m_energyUpdateEvent None s)
                (CalculateTotalCurrent w * 1000) (Now w) Hlen Hrec)
      as (s1 & _ & HD).
    eexists. eexists.
    apply (UpdateEnergySource_step w _ s _ _ Hf eq_refl HD Ht).
Qed.

(** After an update that returned on a running clock, the object is ready
    for every later update, whatever the devices draw then. *)
Lemma UpdateEnergySource_keeps_ready w s s' e w' :
  IsFinished w = false ->
  length (m_timeStamps s) = S (length (m_load s)) ->
  UpdateEnergySource w s = Ok (tt, s', e) ->
  Now w <= Now w' ->
  ready w' s'.
Proof.
  intros Hf Hlen HU Hw.
  destruct (UpdateEnergySource_inv _ _ _ _ _ Hf HU) as (s2 & HC & -> & _).
  destruct (CalculateRemainingEnergy_inv _ _ _ _ _ HC) as (alpha & h & HD & _ & -> & _).
  destruct (Discharge_keeps_sizes _ _ (set_m_energyUpdateEvent None s) _ _ _ Hlen HD)
    as [Hlen' Hl'].
  destruct (update_finish_members w (energy_step (CalculateTotalCurrent w) alpha h))
    as (_ & _ & _ & _ & Hlt & Hl & Hts & _).
  destruct (energy_step_history (CalculateTotalCurrent w) alpha h) as (Hl2 & Hts2 & _).
  unfold ready. rewrite Hl, Hts, Hlt, Hl2, Hts2.
  split; [exact Hlen' | split; [left; exact Hl' | exact Hw]].
Qed.

(** An update on a clock that has not gone back keeps the invariant. *)
Lemma UpdateEnergySource_keeps_history (w : World) (s s' : LiIonBatteryModel)
    (e : list Effect) :
  history_inv s ->
  m_lastSampleTime s <= Now w ->
  UpdateEnergySource w s = Ok (tt, s', e) ->
  history_inv s'.
Proof.
  intros Hinv Ht HU.
  destruct (IsFinished w) eqn:Hf.
  - rewrite (UpdateEnergySource_finished w s Hf) in HU. inversion HU; subst. exact Hinv.
  - destruct (UpdateEnergySource_inv_full _ _ _ _ Hf HU) as (alpha & h & HD & _ & -> & _).
    assert (Hinv0 : history_inv (set_m_energyUpdateEvent None s)) by exact Hinv.
    destruct (Discharge_record_keeps_history _ (CalculateTotalCurrent w * 1000) (Now w)
                Hinv0 Ht) as (s1 & Hrec & _ & _ & Hinv1).
    unfold Discharge in HD. rewrite (bind_Ok _ _ _ _ _ _ Hrec) in HD.
    destruct (Discharge_alpha (Now w) s1) as [[[a s2] e2]| |] eqn:Ha; try discriminate.
    destruct (Discharge_alpha_frame _ _ _ _ _ Ha) as [-> ->].
    inversion HD; subst.
    destruct (update_finish_members w (energy_step (CalculateTotalCurrent w) alpha h))
      as (_ & _ & _ & _ & _ & Hl & Hts & _ & Hls & _).
    destruct (energy_step_history (CalculateTotalCurrent w) alpha h)
      as (Hl2 & Hts2 & _ & Hls2 & _).
    apply (history_inv_ext h); [congruence | congruence | congruence | exact Hinv1].
Qed.

(** ** Bounds on the series *)

Lemma Rsum_bounds (f : nat -> R) (lo hi : R) (a n : nat) :
  (forall k, (a <= k < a + n)%nat -> lo <= f k <= hi) ->
  INR n * lo <= Rsum f a n <= INR n * hi.
Proof.
  revert a. induction n as [|n IH]; intros a H.
  - simpl. lra.
  - rewrite S_INR. simpl Rsum.
    assert (Ha : lo <= f a <= hi) by (apply H; lia).
    assert (Hr : INR n * lo <= Rsum f (S a) n <= INR n * hi).
    { apply IH. intros k Hk. apply H. lia. }
    lra.
Qed.

Lemma Rsum_le (f g : nat -> R) (a n : nat) :
  (forall k, (a <= k < a + n)%nat -> f k <= g k) -> Rsum f a n <= Rsum g a n.
Proof.
  revert a. induction n as [|n IH]; intros a H; simpl; [lra|].
  assert (f a <= g a) by (apply H; lia).
  assert (Rsum f (S a) n <= Rsum g (S a) n) by (apply IH; intros k Hk; apply H; lia).
  lra.
Qed.

Lemma exp_neg_le_1 (y : R) : 0 <= y -> exp (- y) <= 1.
Proof.
  intros Hy. destruct (Req_dec_T y 0) as [-> | Hne].
  - rewrite Ropp_0, exp_0. lra.
  - rewrite <- exp_0. left. apply exp_increasing. lra.
Qed.

Lemma exp_le (x y : R) : x <= y -> exp x <= exp y.
Proof.
  intros [H | ->]; [left; apply exp_increasing; exact H | right; reflexivity].
Qed.

(** One term of the series lies between [0] and the length of its segment. *)
Lemma series_term_bounds (sq D1 D2 : R) :
  0 < sq -> 0 <= D1 -> D1 <= D2 ->
  0 <= (exp (- sq * D1) - exp (- sq * D2)) / sq <= D2 - D1.
Proof.
  intros Hsq HD1 HD12.
  assert (Hx : 0 < exp (- sq * D1) <= 1).
  { split; [apply exp_pos|]. replace (- sq * D1) with (- (sq * D1)) by ring.
    apply exp_neg_le_1. nra. }
  assert (Hsplit : exp (- sq * D2) = exp (- sq * D1) * exp (- (sq * (D2 - D1)))).
  { rewrite <- exp_plus. f_equal. ring. }
  assert (Hy : 1 - sq * (D2 - D1) <= exp (- (sq * (D2 - D1))) <= 1).
  { split.
    - pose proof (exp_ineq1_le (- (sq * (D2 - D1)))). lra.
    - apply exp_neg_le_1. nra. }
  rewrite Hsplit.
  set (x := exp (- sq * D1)) in *. set (y := exp (- (sq * (D2 - D1)))) in *.
  split.
  - apply Rmult_le_pos; [nra | left; apply Rinv_0_lt_compat; exact Hsq].
  - apply Rmult_le_reg_r with (r := sq); [exact Hsq|].
    unfold Rdiv. rewrite Rmult_assoc, Rinv_l by lra. nra.
Qed.

Lemma square_pos (beta : R) (m : nat) :
  beta <> 0 -> (1 <= m)%nat -> 0 < beta² * (INR m)².
Proof.
  intros Hb Hm. apply Rmult_lt_0_compat.
  - apply Rsqr_pos_lt. exact Hb.
  - apply Rsqr_pos_lt. apply not_0_INR. lia.
Qed.

(** A segment that ended before [t] contributes between its length in
    minutes and twenty-one times that. *)
Lemma spec_A_bounds (t sk sk_1 beta : R) :
  beta <> 0 -> sk_1 <= sk -> sk <= t ->
  (sk - sk_1) / 60 <= spec_A t sk sk_1 beta <= 21 * ((sk - sk_1) / 60).
Proof.
  intros Hb H1 H2. unfold spec_A.
  set (f := fun m : nat => _).
  assert (H : INR 10 * 0 <= Rsum f 1 10 <= INR 10 * ((sk - sk_1) / 60)).
  { apply Rsum_bounds. intros k Hk. subst f. cbv beta.
    replace ((sk - sk_1) / 60) with ((t - sk_1) / 60 - (t - sk) / 60) by lra.
    apply series_term_bounds; [apply square_pos; [exact Hb | lia] | lra | lra]. }
  replace (INR 10) with 10 in H by (simpl; lra).
  lra.
Qed.

(** A segment of length zero contributes nothing. *)
Lemma spec_A_empty (t sk beta : R) : spec_A t sk sk beta = 0.
Proof.
  unfold spec_A. simpl. lra.
Qed.

(** Under a constant load since time 0 the contribution of the open segment
    grows at least as fast as the time. *)
Lemma spec_A_constant_load_grows (beta t1 t2 : R) :
  beta <> 0 -> 0 <= t1 -> t1 <= t2 ->
  spec_A t1 t1 0 beta + (t2 - t1) / 60 <= spec_A t2 t2 0 beta.
Proof.
  intros Hb H1 H2. unfold spec_A.
  set (f := fun m : nat => _). set (g := fun m : nat => _).
  assert (H : Rsum f 1 10 <= Rsum g 1 10).
  { apply Rsum_le. intros k Hk. subst f g. cbv beta.
    pose proof (square_pos beta k Hb ltac:(lia)) as Hsq.
    set (sq := beta² * (INR k)²) in *.
    replace ((t1 - t1) / 60) with 0 by lra.
    replace ((t2 - t2) / 60) with 0 by lra.
    assert (He : exp (- sq * ((t2 - 0) / 60)) <= exp (- sq * ((t1 - 0) / 60))).
    { apply exp_le. nra. }
    apply Rmult_le_compat_r; [left; apply Rinv_0_lt_compat; exact Hsq | lra]. }
  lra.
Qed.




(** ** The voltage of the default cell *)

Lemma GetVoltage_spec_V (s : LiIonBatteryModel) (i : R) :
  GetVoltage s i =
  spec_V (m_eFull s) (m_eNom s) (m_eExp s) (m_qRated s) (m_qNom s) (m_qExp s)
         (m_internalResistance s) (m_typCurrent s) (m_drainedCapacity s) i.
Proof. reflexivity. Qed.

(** The voltage of the default cell before anything has been drained. *)
Lemma GetVoltage_default_full (s : LiIonBatteryModel) (i : R) :
  m_eFull s = 4.05 -> m_eNom s = 3.6 -> m_eExp s = 3.6 ->
  m_qRated s = 2.45 -> m_qNom s = 1.1 -> m_qExp s = 1.2 ->
  m_internalResistance s = 0.083 -> m_typCurrent s = 2.33 ->
  m_drainedCapacity s = 0 ->
  GetVoltage s i = 4.05 + 0.083 * (2.33 - i).
Proof.
  unfold GetVoltage. intros -> -> -> -> -> -> -> -> ->.
  set (K := Rabs _).
  replace (- (3 / 1.2) * 0) with 0 by lra. rewrite exp_0.
  replace (K * 2.45 / (2.45 - 0)) with K by (field; lra).
  lra.
Qed.


(** ** Concrete runs *)

Ltac state_eq :=
  unfold cell, Seconds;
  cbv [set_m_initialEnergyJ set_m_remainingEnergyJ set_m_supplyVoltageV set_m_eFull
       set_m_drainedCapacity set_m_energyUpdateInterval set_m_lastUpdateTime
       set_m_energyUpdateEvent set_m_beta set_m_previousLoad set_m_lastUpdateAlpha
       set_m_lastSampleTime set_m_load set_m_timeStamps
       m_initialEnergyJ m_remainingEnergyJ m_supplyVoltageV m_lowBatteryTh m_eFull
       m_eNom m_eExp m_qRated m_qNom m_qExp m_internalResistance m_typCurrent
       m_minVoltTh m_drainedCapacity m_energyUpdateInterval m_lastUpdateTime
       m_energyUpdateEvent m_alpha m_beta m_previousLoad m_lastUpdateAlpha
       m_lastSampleTime m_load m_timeStamps LiIonBatteryModel_new energyToDecreaseJ
       Now IsFinished deviceCurrents w_at removelast app fst snd];
  repeat match goal with
         | |- Ok _ = Ok _ => apply f_equal
         | |- (_, _) = (_, _) => apply f_equal2
         | |- Some _ = Some _ => apply f_equal
         | |- _ :: _ = _ :: _ => apply f_equal2
         | |- EvSchedule _ = EvSchedule _ => apply f_equal
         | |- mkLiIonBatteryModel _ _ _ _ _ _ _ _ _ _ _ _ _ _ _ _ _ _ _ _ _ _ _ _ = _ =>
             f_equal
         end;
  try reflexivity; try lra.

Lemma new_is_cell now :
  LiIonBatteryModel_new now = cell 31752 31752 4.05 0 0 None (-1) 0 now [] [now].
Proof. reflexivity. Qed.

(** The first update, at time 0, of a cell that has never been sampled. *)
Lemma first_update (E0 I : R) :
  I * 1000 <> -1 -> 0 < E0 ->
  UpdateEnergySource (w_at 0 I) (cell E0 E0 4.05 0 0 None (-1) 0 0 [] [0]) =
  Ok (tt,
      cell E0 E0 (4.05 + 0.083 * (2.33 - I)) 0 0 (Some 1) (I * 1000) 0 0 [I * 1000] [0; 0],
      [EvCancel; EvSchedule 1]).
Proof.
  intros HI HE.
  pose proof (Discharge_run_changed (I * 1000) 0
                (set_m_energyUpdateEvent None (cell E0 E0 4.05 0 0 None (-1) 0 0 [] [0]))
                HI eq_refl) as HD.
  simpl in HD. unfold spec_alpha in HD. simpl in HD. rewrite spec_A_empty in HD.
  rewrite (UpdateEnergySource_step (w_at 0 I) I _ _ _ eq_refl
             (CalculateTotalCurrent_one _ _ _) HD)
    by (simpl; unfold Seconds; lra).
  rewrite energy_step_unclamped by (unfold energyToDecreaseJ; simpl; lra).
  cbv zeta.
  rewrite update_finish_active by (unfold energyToDecreaseJ; simpl; lra).
  state_eq.
  apply GetVoltage_default_full; simpl; lra.
Qed.

Lemma alpha_6_bounds : 100 <= alpha_6 <= 2100.
Proof.
  unfold alpha_6.
  pose proof (spec_A_bounds 6 6 0 0.637) as H.
  assert (0.637 <> 0) by lra. assert (0 <= 6) by lra. assert (6 <= 6) by lra.
  specialize (H ltac:(assumption) ltac:(assumption) ltac:(assumption)). lra.
Qed.


Lemma update_at_0 :
  UpdateEnergySource (w_at 0 1) (LiIonBatteryModel_new 0)
  = Ok (tt, after_first, [EvCancel; EvSchedule 1]).
Proof.
  rewrite new_is_cell. unfold after_first, V_first. apply first_update; lra.
Qed.

Lemma update_at_6 :
  UpdateEnergySource (w_at 6 1) after_first = Ok (tt, after_6, [EvCancel; EvSchedule 1]).
Proof.
  pose proof (Discharge_run_same (1 * 1000) 6 (set_m_energyUpdateEvent None after_first)
                eq_refl eq_refl ltac:(discriminate)) as HD.
  simpl in HD. unfold spec_alpha in HD. simpl in HD.
  pose proof alpha_6_bounds as HA. unfold alpha_6 in HA.
  rewrite (UpdateEnergySource_step (w_at 6 1) 1 _ _ _ eq_refl
             (CalculateTotalCurrent_one _ _ _) HD)
    by (simpl; lra).
  rewrite energy_step_unclamped
    by (unfold energyToDecreaseJ, after_first, V_first; simpl; lra).
  cbv zeta.
  rewrite update_finish_active
    by (unfold energyToDecreaseJ, after_first, V_first; simpl; lra).
  unfold after_6, after_first, V_6, alpha_6, V_first. state_eq.
  rewrite GetVoltage_spec_V. simpl. f_equal. lra.
Qed.


Lemma small_SetInitialEnergy :
  SetInitialEnergy 10 (LiIonBatteryModel_new 0) = Ok (tt, small_new, []).
Proof.
  unfold SetInitialEnergy. run_only. rewrite Rleb_true by lra. cbv beta iota.
  unfold small_new. state_eq.
Qed.

Lemma small_update_at_0 :
  UpdateEnergySource (w_at 0 1) small_new = Ok (tt, small_first, [EvCancel; EvSchedule 1]).
Proof. unfold small_new, small_first, V_first. apply first_update; lra. Qed.

Lemma small_Discharge_at (t t0 : Time) (s : LiIonBatteryModel) :
  m_load s = [1 * 1000] -> m_timeStamps s = [0; t0] ->
  m_previousLoad s = 1 * 1000 -> m_beta s = 0.637 ->
  Discharge (1 * 1000) t s =
  Ok (1 * 1000 * spec_A t t 0 0.637 + 0,
      set_m_lastSampleTime t (set_m_timeStamps [0; t] s), []).
Proof.
  intros Hl Hts Hp Hb.
  rewrite (Discharge_run_same (1 * 1000) t s).
  - rewrite Hl, Hb, Hts. reflexivity.
  - symmetry. exact Hp.
  - rewrite Hl, Hts. reflexivity.
  - rewrite Hl. discriminate.
Qed.

Lemma small_update_at_6 :
  UpdateEnergySource (w_at 6 1) small_first
  = Ok (tt, small_clamped, [EvCancel; EvEnergyDrained]).
Proof.
  pose proof (small_Discharge_at 6 0 (set_m_energyUpdateEvent None small_first)
                eq_refl eq_refl eq_refl eq_refl) as HD.
  pose proof alpha_6_bounds as HA. unfold alpha_6 in HA.
  rewrite (UpdateEnergySource_step (w_at 6 1) 1 _ _ _ eq_refl
             (CalculateTotalCurrent_one _ _ _) HD)
    by (simpl; lra).
  rewrite energy_step_clamped
    by (unfold clamped, energyToDecreaseJ, small_first, V_first; simpl; lra).
  cbv zeta.
  rewrite update_finish_depleted by (unfold depleted; simpl; lra).
  unfold small_clamped, small_first, alpha_6, V_first. state_eq.
  apply GetVoltage_default_full; simpl; lra.
Qed.

Lemma small_update_again :
  UpdateEnergySource (w_at 6 1) small_clamped
  = Ok (tt, small_again, [EvCancel; EvEnergyDrained]).
Proof.
  pose proof (small_Discharge_at 6 6 (set_m_energyUpdateEvent None small_clamped)
                eq_refl eq_refl eq_refl eq_refl) as HD.
  rewrite (UpdateEnergySource_step (w_at 6 1) 1 _ _ _ eq_refl
             (CalculateTotalCurrent_one _ _ _) HD)
    by (simpl; lra).
  rewrite energy_step_unclamped
    by (unfold energyToDecreaseJ, small_clamped, alpha_6; simpl; lra).
  cbv zeta.
  rewrite update_finish_depleted
    by (unfold depleted, energyToDecreaseJ, small_clamped, alpha_6; simpl; lra).
  unfold small_again, small_clamped, V_6, alpha_6. state_eq.
  rewrite GetVoltage_spec_V. simpl. f_equal. lra.
Qed.

Lemma small_refill :
  IncreaseRemainingEnergy 100 small_again = Ok (tt, small_refilled, []).
Proof.
  unfold IncreaseRemainingEnergy. run_only. rewrite Rleb_true by lra. cbv beta iota.
  unfold small_refilled, small_again. state_eq.
Qed.

Lemma small_update_refilled :
  UpdateEnergySource (w_at 6 1) small_refilled
  = Ok (tt, small_rescheduled, [EvCancel; EvSchedule 1]).
Proof.
  pose proof (small_Discharge_at 6 6 (set_m_energyUpdateEvent None small_refilled)
                eq_refl eq_refl eq_refl eq_refl) as HD.
  rewrite (UpdateEnergySource_step (w_at 6 1) 1 _ _ _ eq_refl
             (CalculateTotalCurrent_one _ _ _) HD)
    by (simpl; lra).
  rewrite energy_step_unclamped
    by (unfold energyToDecreaseJ, small_refilled, alpha_6; simpl; lra).
  cbv zeta.
  rewrite update_finish_active
    by (unfold energyToDecreaseJ, small_refilled, alpha_6; simpl; lra).
  unfold small_rescheduled, small_refilled, V_6, alpha_6. state_eq.
  rewrite GetVoltage_spec_V. simpl. f_equal. lra.
Qed.

Lemma small_calculate_at_6 :
  CalculateRemainingEnergy (w_at 6 1) small_first
  = Ok (tt,
        energy_step 1 (1 * 1000 * spec_A 6 6 0 0.637 + 0)
          (set_m_lastSampleTime 6 (set_m_timeStamps [0; 6] small_first)),
        []).
Proof.
  pose proof (small_Discharge_at 6 0 small_first eq_refl eq_refl eq_refl eq_refl)
    as HD.
  apply CalculateRemainingEnergy_step;
    [apply CalculateTotalCurrent_one | exact HD | simpl; lra].
Qed.

Lemma small_first_clamps :
  clamped (1 * 1000 * spec_A 6 6 0 0.637 + 0)
    (set_m_lastSampleTime 6
       (set_m_timeStamps [0; 6] (set_m_energyUpdateEvent None small_first))).
Proof.
  pose proof alpha_6_bounds as HA. unfold alpha_6 in HA.
  unfold clamped, energyToDecreaseJ, small_first, V_first. simpl. lra.
Qed.

Lemma alpha_12_above_alpha_6 : alpha_6 + 100 <= alpha_12.
Proof.
  unfold alpha_6, alpha_12.
  pose proof (spec_A_constant_load_grows 0.637 6 12 ltac:(lra) ltac:(lra) ltac:(lra)).
  lra.
Qed.

Lemma small_clamped_clamps :
  clamped (1 * 1000 * spec_A 12 12 0 0.637 + 0)
    (set_m_lastSampleTime 12
       (set_m_timeStamps [0; 12] (set_m_energyUpdateEvent None small_clamped))).
Proof.
  pose proof alpha_12_above_alpha_6 as HA. unfold alpha_6, alpha_12 in HA.
  unfold clamped, energyToDecreaseJ, small_clamped, V_first, alpha_6. simpl. lra.
Qed.

Lemma small_update_at_12 :
  UpdateEnergySource (w_at 12 1) small_clamped
  = Ok (tt, small_clamped_12, [EvCancel; EvEnergyDrained]).
Proof.
  pose proof (small_Discharge_at 12 6 (set_m_energyUpdateEvent None small_clamped)
                eq_refl eq_refl eq_refl eq_refl) as HD.
  rewrite (UpdateEnergySource_step (w_at 12 1) 1 _ _ _ eq_refl
             (CalculateTotalCurrent_one _ _ _) HD)
    by (simpl; lra).
  rewrite (energy_step_clamped _ _ _ small_clamped_clamps).
  cbv zeta.
  rewrite update_finish_depleted by (unfold depleted; simpl; lra).
  unfold small_clamped_12, small_clamped, alpha_12, alpha_6, V_first. state_eq.
  apply GetVoltage_default_full; simpl; lra.
Qed.

Lemma small_clamped_run :
  clamped_updates small_first ([w_at 6 1] ++ [w_at 12 1]) small_clamped_12.
Proof.
  simpl. eapply clamped_updates_cons.
  - reflexivity.
  - unfold w_at. rewrite CalculateTotalCurrent_one. simpl Now.
    apply (small_Discharge_at 6 0 (set_m_energyUpdateEvent None small_first)
             eq_refl eq_refl eq_refl eq_refl).
  - exact small_first_clamps.
  - exact small_update_at_6.
  - eapply clamped_updates_cons.
    + reflexivity.
    + unfold w_at. rewrite CalculateTotalCurrent_one. simpl Now.
      apply (small_Discharge_at 12 6 (set_m_energyUpdateEvent None small_clamped)
               eq_refl eq_refl eq_refl eq_refl).
    + exact small_clamped_clamps.
    + exact small_update_at_12.
    + constructor.
Qed.


Lemma heavy_update_at_0 :
  UpdateEnergySource (w_at 0 12) (LiIonBatteryModel_new 0)
  = Ok (tt, heavy_first, [EvCancel; EvSchedule 1]).
Proof.
  rewrite new_is_cell. unfold heavy_first, V_heavy. apply first_update; lra.
Qed.

Lemma heavy_decrease :
  DecreaseRemainingEnergy 1 heavy_first = Ok (tt, heavy_decreased, [EvEnergyDrained]).
Proof.
  unfold DecreaseRemainingEnergy, HandleEnergyDrainedEvent, NotifyEnergyDrained, emit.
  run_only. rewrite Rleb_true by lra. cbv beta iota.
  rewrite Rleb_true by (unfold heavy_first, V_heavy; simpl; lra).
  unfold heavy_decreased, heavy_first. state_eq.
Qed.

(** The periodic update one second later finds more than the threshold and
    schedules the next one. *)
Lemma heavy_update_at_1 :
  exists s',
    UpdateEnergySource (w_at 1 12) heavy_decreased
    = Ok (tt, s', [EvCancel; EvSchedule 1]).
Proof.
  pose proof (Discharge_run_same (12 * 1000) 1
                (set_m_energyUpdateEvent None heavy_decreased)
                eq_refl eq_refl ltac:(discriminate)) as HD.
  simpl in HD. unfold spec_alpha in HD. simpl in HD.
  pose proof (spec_A_bounds 1 1 0 0.637 ltac:(lra) ltac:(lra) ltac:(lra)) as HA.
  rewrite (UpdateEnergySource_step (w_at 1 12) 12 _ _ _ eq_refl
             (CalculateTotalCurrent_one _ _ _) HD)
    by (simpl; lra).
  rewrite energy_step_unclamped
    by (unfold energyToDecreaseJ, heavy_decreased, V_heavy; simpl; lra).
  cbv zeta.
  rewrite update_finish_active
    by (unfold energyToDecreaseJ, heavy_decreased, V_heavy; simpl; lra).
  eexists. reflexivity.
Qed.

(** * The claims of the specification *)

(** ** C1: the remaining energy is not negative *)




(** ** C2: what triggers the drained notification *)

(** C2, as the code has it.  An update on a running clock notifies the devices
    exactly when the remaining energy it leaves is at or below
    [m_lowBatteryTh * m_initialEnergyJ], whatever the supply voltage; otherwise
    it schedules the next update.  The voltage is compared with [m_minVoltTh] by
    [DecreaseRemainingEnergy] only, which notifies exactly when the supply
    voltage stored by the last update is at or below the threshold. *)
Theorem drained_notification_triggers
    (w : World) (s s' : LiIonBatteryModel) (e : list Effect) :
  IsFinished w = false ->
  UpdateEnergySource w s = Ok (tt, s', e) ->
  (depleted s' -> e = [EvCancel; EvEnergyDrained]) /\
  (~ depleted s' -> e = [EvCancel; EvSchedule (m_energyUpdateInterval s')]) /\
  (drained_count e = 1%nat <-> depleted s') /\
  (forall energyJ d d' ed,
     DecreaseRemainingEnergy energyJ d = Ok (tt, d', ed) ->
     (m_supplyVoltageV d <= m_minVoltTh d -> ed = [EvEnergyDrained]) /\
     (m_minVoltTh d < m_supplyVoltageV d -> ed = [])).
Proof.
  intros Hf HU.
  assert (HDec : forall energyJ d d' ed,
             DecreaseRemainingEnergy energyJ d = Ok (tt, d', ed) ->
             (m_supplyVoltageV d <= m_minVoltTh d -> ed = [EvEnergyDrained]) /\
             (m_minVoltTh d < m_supplyVoltageV d -> ed = [])).
  { intros energyJ d d' ed HD. apply DecreaseRemainingEnergy_inv in HD.
    destruct HD as (_ & _ & ->). split; intros H.
    - rewrite Rleb_true by exact H. reflexivity.
    - rewrite Rleb_false by exact H. reflexivity. }
  destruct (update_effects w s s' e Hf HU) as [(Hd & -> & _) | (Hn & -> & _)].
  - split; [reflexivity|]. split; [intros Hc; contradiction|].
    split; [split; [intros _; exact Hd | reflexivity] | exact HDec].
  - split; [intros Hc; contradiction|]. split; [reflexivity|].
    split; [split; [intros Hc; discriminate Hc | intros Hc; contradiction] | exact HDec].
Qed.

Lemma drained_notification_triggers_witness :
  IsFinished (w_at 6 1) = false /\
  UpdateEnergySource (w_at 6 1) small_first
    = Ok (tt, small_clamped, [EvCancel; EvEnergyDrained]) /\
  (drained_count [EvCancel; EvEnergyDrained] = 1%nat <-> depleted small_clamped).
Proof.
  split; [reflexivity|]. split; [exact small_update_at_6|].
  apply (drained_notification_triggers (w_at 6 1) small_first small_clamped
           [EvCancel; EvEnergyDrained] eq_refl small_update_at_6).
Defined.

(** C2 as stated fails: on a new cell a device that draws 12 A brings the
    supply voltage to 3.25 V, under the threshold of 3.3 V, in the first
    update; the update notifies nobody and schedules the next update. *)
Lemma low_voltage_update_is_silent :
  UpdateEnergySource (w_at 0 12) (LiIonBatteryModel_new 0)
  = Ok (tt, heavy_first, [EvCancel; EvSchedule 1]) /\
  m_supplyVoltageV heavy_first <= m_minVoltTh heavy_first /\
  ~ depleted heavy_first /\
  drained_count [EvCancel; EvSchedule 1] = 0%nat.
Proof.
  split; [exact heavy_update_at_0|].
  split; [unfold heavy_first, V_heavy; simpl; lra|].
  split; [unfold depleted, heavy_first; simpl; lra | reflexivity].
Qed.

(** ** C3: notifying and rescheduling *)

(** C3, as the code has it.  One update on a running clock first cancels
    the pending event.  If it leaves the source depleted it notifies the
    devices once, schedules nothing and leaves no event pending; otherwise it
    notifies nobody, schedules exactly one update, [m_energyUpdateInterval]
    later, and leaves that event pending.  This holds for every update: one
    that finds the source depleted again notifies again. *)
Theorem one_update_notifies_or_reschedules
    (w : World) (s s' : LiIonBatteryModel) (e : list Effect) :
  IsFinished w = false ->
  UpdateEnergySource w s = Ok (tt, s', e) ->
  (exists rest, e = EvCancel :: rest) /\
  (depleted s' ->
   drained_count e = 1%nat /\ scheduled_count e = 0%nat /\
   m_energyUpdateEvent s' = None) /\
  (~ depleted s' ->
   drained_count e = 0%nat /\ scheduled_count e = 1%nat /\
   m_energyUpdateEvent s' = Some (Now w + m_energyUpdateInterval s')).
Proof.
  intros Hf HU.
  destruct (update_effects w s s' e Hf HU) as [(Hd & -> & Hev) | (Hn & -> & Hev)].
  - split; [eexists; reflexivity|].
    split; [intros _; (split; [reflexivity | split; [reflexivity | exact Hev]])
           | intros Hc; contradiction].
  - split; [eexists; reflexivity|].
    split; [intros Hc; contradiction
           | intros _; (split; [reflexivity | split; [reflexivity | exact Hev]])].
Qed.

Lemma one_update_notifies_or_reschedules_witness :
  IsFinished (w_at 6 1) = false /\
  UpdateEnergySource (w_at 6 1) small_refilled
    = Ok (tt, small_rescheduled, [EvCancel; EvSchedule 1]) /\
  (~ depleted small_rescheduled ->
   drained_count [EvCancel; EvSchedule 1] = 0%nat /\
   scheduled_count [EvCancel; EvSchedule 1] = 1%nat /\
   m_energyUpdateEvent small_rescheduled
   = Some (Now (w_at 6 1) + m_energyUpdateInterval small_rescheduled)).
Proof.
  split; [reflexivity|]. split; [exact small_update_refilled|].
  apply (one_update_notifies_or_reschedules (w_at 6 1) small_refilled small_rescheduled
           [EvCancel; EvSchedule 1] eq_refl small_update_refilled).
Defined.

(** C3 as stated fails.  A cell of 10 J is drained at 1 A: the update at six
    seconds finds it depleted and notifies the devices; a second
    [GetRemainingEnergy ()] at the same time notifies them again; and after
    [IncreaseRemainingEnergy (100)] the next update schedules a periodic
    update again.  And on a new default cell drained at 12 A, whose voltage is
    under the threshold after the first update, [DecreaseRemainingEnergy (1)]
    notifies the devices, the update event stays pending, and the periodic
    update one second later schedules the next one. *)
Lemma drained_notified_twice_then_rescheduled :
  (SetInitialEnergy 10 (LiIonBatteryModel_new 0) = Ok (tt, small_new, []) /\
   UpdateEnergySource (w_at 0 1) small_new
     = Ok (tt, small_first, [EvCancel; EvSchedule 1]) /\
   GetRemainingEnergy (w_at 6 1) small_first
     = Ok (0, small_clamped, [EvCancel; EvEnergyDrained]) /\
   GetRemainingEnergy (w_at 6 1) small_clamped
     = Ok (0, small_again, [EvCancel; EvEnergyDrained]) /\
   drained_count ([EvCancel; EvEnergyDrained] ++ [EvCancel; EvEnergyDrained]) = 2%nat /\
   IncreaseRemainingEnergy 100 small_again = Ok (tt, small_refilled, []) /\
   GetRemainingEnergy (w_at 6 1) small_refilled
     = Ok (100, small_rescheduled, [EvCancel; EvSchedule 1]) /\
   scheduled_count [EvCancel; EvSchedule 1] = 1%nat) /\
  (UpdateEnergySource (w_at 0 12) (LiIonBatteryModel_new 0)
     = Ok (tt, heavy_first, [EvCancel; EvSchedule 1]) /\
   DecreaseRemainingEnergy 1 heavy_first = Ok (tt, heavy_decreased, [EvEnergyDrained]) /\
   m_energyUpdateEvent heavy_decreased = Some 1 /\
   exists s',
     UpdateEnergySource (w_at 1 12) heavy_decreased
     = Ok (tt, s', [EvCancel; EvSchedule 1])).
Proof.
  split.
  - split; [exact small_SetInitialEnergy|].
    split; [exact small_update_at_0|].
    split; [exact (GetRemainingEnergy_run _ _ _ _ small_update_at_6)|].
    split; [exact (GetRemainingEnergy_run _ _ _ _ small_update_again)|].
    split; [reflexivity|].
    split; [exact small_refill|].
    split; [exact (GetRemainingEnergy_run _ _ _ _ small_update_refilled)|].
    reflexivity.
  - split; [exact heavy_update_at_0|].
    split; [exact heavy_decrease|].
    split; [reflexivity | exact heavy_update_at_1].
Qed.

(** ** C4: the energy an update removes *)

(** C4, as the code has it.  An update computes the energy delta
    [(alpha(now) - m_lastUpdateAlpha) * m_supplyVoltageV] with the voltage
    stored before the update.  When the delta does not exceed the remaining
    energy, exactly the delta is removed and the drained capacity becomes
    [alpha / 3600]; when it exceeds it, the remaining energy becomes 0.  In
    both cases the supply voltage is then recomputed by [GetVoltage] on the
    updated object and [m_lastUpdateAlpha] is set to the new alpha. *)
Theorem energy_removed_by_update
    (w : World) (s s' : LiIonBatteryModel) (e : list Effect) :
  CalculateRemainingEnergy w s = Ok (tt, s', e) ->
  exists alpha h,
    Discharge (CalculateTotalCurrent w * 1000) (Now w) s = Ok (alpha, h, []) /\
    ((alpha - m_lastUpdateAlpha s) * m_supplyVoltageV s <= m_remainingEnergyJ s ->
     m_remainingEnergyJ s - m_remainingEnergyJ s'
     = (alpha - m_lastUpdateAlpha s) * m_supplyVoltageV s /\
     m_drainedCapacity s' = alpha / 3600) /\
    (m_remainingEnergyJ s < (alpha - m_lastUpdateAlpha s) * m_supplyVoltageV s ->
     m_remainingEnergyJ s' = 0) /\
    m_supplyVoltageV s' = GetVoltage s' (CalculateTotalCurrent w) /\
    m_lastUpdateAlpha s' = alpha.
Proof.
  intros HC.
  destruct (CalculateRemainingEnergy_inv _ _ _ _ _ HC) as (alpha & h & HD & _ & -> & _).
  exists alpha, h. split; [exact HD|].
  destruct (Discharge_frame_members _ _ _ _ _ _ HD) as (Hrh & HVh & Hah & _).
  assert (HE : energyToDecreaseJ alpha h
               = (alpha - m_lastUpdateAlpha s) * m_supplyVoltageV s).
  { unfold energyToDecreaseJ. rewrite HVh, Hah. reflexivity. }
  rewrite <- HE, <- Hrh.
  destruct (energy_branch_cases alpha h) as [[Hc Hb] | [Hc Hb]]; unfold clamped in *.
  - unfold energy_step. rewrite Hb. simpl.
    split; [intros H; lra|]. split; [reflexivity|]. split; reflexivity.
  - unfold energy_step. rewrite Hb. simpl.
    split; [intros _; split; [lra | reflexivity]|].
    split; [intros H; lra|]. split; reflexivity.
Qed.

Lemma energy_removed_by_update_witness :
  exists s' alpha h,
    CalculateRemainingEnergy (w_at 6 1) small_first = Ok (tt, s', []) /\
    Discharge (CalculateTotalCurrent (w_at 6 1) * 1000) (Now (w_at 6 1)) small_first
      = Ok (alpha, h, []) /\
    m_lastUpdateAlpha s' = alpha.
Proof.
  destruct (energy_removed_by_update (w_at 6 1) small_first _ [] small_calculate_at_6)
    as (alpha & h & HD & _ & _ & _ & Ha).
  eexists. exists alpha, h.
  split; [exact small_calculate_at_6 | split; [exact HD | exact Ha]].
Defined.

(** C4 as stated fails.  The cell of 10 J, drained at 1 A, holds 10 J before
    the update at six seconds; the energy delta of that update is more than
    400 J; the update removes the 10 J that are left, not the delta. *)
Lemma clamped_update_removes_what_is_left :
  SetInitialEnergy 10 (LiIonBatteryModel_new 0) = Ok (tt, small_new, []) /\
  UpdateEnergySource (w_at 0 1) small_new
    = Ok (tt, small_first, [EvCancel; EvSchedule 1]) /\
  exists s' alpha h,
    Discharge (CalculateTotalCurrent (w_at 6 1) * 1000) (Now (w_at 6 1)) small_first
      = Ok (alpha, h, []) /\
    CalculateRemainingEnergy (w_at 6 1) small_first = Ok (tt, s', []) /\
    m_remainingEnergyJ small_first - m_remainingEnergyJ s' = 10 /\
    400 < (alpha - m_lastUpdateAlpha small_first) * m_supplyVoltageV small_first.
Proof.
  split; [exact small_SetInitialEnergy|].
  split; [exact small_update_at_0|].
  pose proof (small_Discharge_at 6 0 small_first eq_refl eq_refl eq_refl eq_refl)
    as HD.
  pose proof alpha_6_bounds as HA. unfold alpha_6 in HA.
  eexists. eexists. eexists.
  split; [unfold w_at; rewrite CalculateTotalCurrent_one; exact HD|].
  split; [exact small_calculate_at_6|].
  split.
  - rewrite energy_step_clamped
      by (unfold clamped, energyToDecreaseJ, small_first, V_first; simpl; lra).
    simpl. lra.
  - unfold small_first, V_first. simpl. lra.
Qed.

(** ** C5: the alpha of a recorded history *)

(** C5, where the code departs from it.  On a newly constructed object, whose
    only timestamp is the construction time and whose [m_previousLoad] is the
    sentinel [-1.0], the call [Discharge (-1.0, t)] takes the single-timestamp
    branch and reads [m_load[0]] of the empty load vector: it does not return
    [load * A(t, t, 0, beta)]. *)
Theorem Discharge_single_timestamp_out_of_bounds (now t : Time) :
  Discharge (-1) t (LiIonBatteryModel_new now) = OutOfBounds /\
  length (m_timeStamps (LiIonBatteryModel_new now)) = 1%nat /\
  m_load (LiIonBatteryModel_new now) = [].
Proof.
  split; [apply Discharge_new_sentinel | split; reflexivity].
Qed.

(** ** C6: the load history *)

(** C6. For every call [Discharge (load, t)] on a history that satisfies its
    invariant, with [t] not earlier than the last sample time: the recording
    succeeds; when [load] equals the previously recorded load nothing is
    appended to [m_load] and the last timestamp is overwritten with [t];
    otherwise exactly one load and one timestamp are appended; in both cases
    [load] is the previously recorded load of the next call and [t] its last
    sample time, and the invariant holds again, so
    [m_load.size () == m_timeStamps.size () - 1] and the timestamps are
    non-decreasing.  The object [Discharge] returns is the recorded one, and it
    does return once a load has been recorded. *)
Theorem Discharge_keeps_history (s : LiIonBatteryModel) (load : R) (t : Time) :
  history_inv s ->
  m_lastSampleTime s <= t ->
  exists s1 : LiIonBatteryModel,
    Discharge_record load t s = Ok (tt, s1, []) /\
    (load = m_previousLoad s ->
       m_load s1 = m_load s /\
       m_timeStamps s1 = removelast (m_timeStamps s) ++ [t] /\
       length (m_timeStamps s1) = length (m_timeStamps s)) /\
    (load <> m_previousLoad s ->
       m_load s1 = m_load s ++ [load] /\
       m_timeStamps s1 = m_timeStamps s ++ [t]) /\
    m_previousLoad s1 = load /\
    m_lastSampleTime s1 = t /\
    history_inv s1 /\
    Z.of_nat (length (m_load s1)) = size_minus_1 (m_timeStamps s1) /\
    Sorted Rle (m_timeStamps s1) /\
    (forall alpha s' e, Discharge load t s = Ok (alpha, s', e) -> s' = s1 /\ e = []) /\
    (m_load s <> [] \/ load <> m_previousLoad s ->
       exists alpha, Discharge load t s = Ok (alpha, s1, [])).
Proof.
  intros Hinv Ht.
  destruct (Discharge_record_keeps_history s load t Hinv Ht)
    as (s1 & Hrec & Hsame & Hchanged & Hinv1).
  destruct (Discharge_record_post _ _ _ _ _ _ Hrec) as (Hprev & Hlast & _).
  exists s1.
  split; [exact Hrec|]. split; [exact Hsame|]. split; [exact Hchanged|].
  split; [exact Hprev|]. split; [exact Hlast|].
  split; [exact Hinv1|].
  split; [apply sizes_agree; apply Hinv1|].
  split; [apply Hinv1|].
  split.
  - intros alpha s' e HD. unfold Discharge in HD.
    rewrite (bind_Ok _ _ _ _ _ _ Hrec) in HD.
    destruct (Discharge_alpha t s1) as [[[a s2] e2]| |] eqn:Ha; try discriminate.
    destruct (Discharge_alpha_frame _ _ _ _ _ Ha) as [-> ->].
    inversion HD; subst. auto.
  - intros Hready.
    destruct (Discharge_returns_spec_alpha s load t (proj1 Hinv) Hready)
      as (s1' & Hrec' & HD).
    rewrite Hrec in Hrec'. inversion Hrec'; subst s1'.
    eexists. exact HD.
Qed.

Lemma Discharge_keeps_history_witness :
  history_inv (LiIonBatteryModel_new 0) /\
  m_lastSampleTime (LiIonBatteryModel_new 0) <= 6 /\
  exists s1,
    Discharge_record 1000 6 (LiIonBatteryModel_new 0) = Ok (tt, s1, []) /\
    m_load s1 = [1000] /\ m_timeStamps s1 = [0; 6] /\
    m_previousLoad s1 = 1000 /\ m_lastSampleTime s1 = 6 /\ history_inv s1.
Proof.
  assert (Ht : m_lastSampleTime (LiIonBatteryModel_new 0) <= 6) by (simpl; lra).
  split; [apply history_inv_new|]. split; [exact Ht|].
  destruct (Discharge_keeps_history (LiIonBatteryModel_new 0) 1000 6
              (history_inv_new 0) Ht)
    as (s1 & Hrec & _ & Hch & Hprev & Hlast & Hinv & _).
  assert (Hne : 1000 <> m_previousLoad (LiIonBatteryModel_new 0)) by (simpl; lra).
  destruct (Hch Hne) as [Hl Hts].
  exists s1. split; [exact Hrec|]. split; [exact Hl|]. split; [exact Hts|].
  split; [exact Hprev|]. split; [exact Hlast | exact Hinv].
Defined.

(** ** C7: asking for the remaining energy twice *)

(** C7. Two calls of [GetRemainingEnergy ()] at the same simulated time, with
    the same device currents in between, on an object none of whose divisors
    is zero ([m_beta] in [RvModelAFunction]; [m_qNom], [m_qExp] and the rated
    capacity less the drained capacity in the [GetVoltage] of the first call,
    whose voltage the second call multiplies): when the first call returns,
    the second returns the same value and leaves [m_remainingEnergyJ] as it
    was; on a running clock its [Discharge] produces the alpha of the first
    call again, so the energy delta is zero. *)
Theorem GetRemainingEnergy_twice (w : World) (s s1 : LiIonBatteryModel)
    (v1 : R) (e1 : list Effect) :
  m_beta s <> 0 -> m_qNom s <> 0 -> m_qExp s <> 0 ->
  GetRemainingEnergy w s = Ok (v1, s1, e1) ->
  m_qRated s1 <> m_drainedCapacity s1 ->
  exists s2 e2,
    GetRemainingEnergy w s1 = Ok (v1, s2, e2) /\
    m_remainingEnergyJ s2 = m_remainingEnergyJ s1 /\
    (IsFinished w = false ->
     exists h,
       Discharge (CalculateTotalCurrent w * 1000) (Now w)
         (set_m_energyUpdateEvent None s1) = Ok (m_lastUpdateAlpha s1, h, []) /\
       energyToDecreaseJ (m_lastUpdateAlpha s1) h = 0).
Proof.
  intros _ _ _ H _. apply GetRemainingEnergy_inv in H. destruct H as [HU ->].
  destruct (IsFinished w) eqn:Hf.
  - (* the clock has finished: both calls do nothing *)
    rewrite (UpdateEnergySource_finished w s Hf) in HU. inversion HU; subst.
    exists s1, []. split; [|split; [reflexivity | discriminate]].
    apply GetRemainingEnergy_run. apply UpdateEnergySource_finished. exact Hf.
  - destruct (UpdateEnergySource_inv _ _ _ _ _ Hf HU) as (sc & HC & -> & ->).
    destruct (CalculateRemainingEnergy_inv _ _ _ _ _ HC)
      as (alpha & sd & HD & Ht & -> & _).
    set (I := CalculateTotalCurrent w) in *.
    set (s1 := fst (update_finish w (energy_step I alpha sd))) in *.
    destruct (update_finish_members w (energy_step I alpha sd))
      as (Hr & Ha & HV & Hdc & Hlt & Hl & Hts & Hp & Hls & Hb).
    fold s1 in Hr, Ha, HV, Hdc, Hlt, Hl, Hts, Hp, Hls, Hb.
    destruct (energy_step_history I alpha sd) as (Hl' & Hts' & Hp' & Hls' & Hb').
    assert (HD2 : Discharge (I * 1000) (Now w) (set_m_energyUpdateEvent None s1)
                  = Ok (alpha, set_m_energyUpdateEvent None s1, [])).
    { apply (Discharge_again _ _ _ _ _ _ _ HD); simpl; congruence. }
    assert (Hlast : m_lastUpdateAlpha s1 = alpha).
    { rewrite Ha. apply energy_step_lastUpdateAlpha. }
    assert (Hnonneg : 0 <= m_remainingEnergyJ (set_m_energyUpdateEvent None s1)).
    { simpl. rewrite Hr. apply energy_step_nonneg. }
    assert (HC2 : CalculateRemainingEnergy w (set_m_energyUpdateEvent None s1)
                  = Ok (tt, energy_step I alpha (set_m_energyUpdateEvent None s1), [])).
    { apply CalculateRemainingEnergy_run; [exact HD2 | simpl; rewrite Hlt; lra]. }
    pose proof (UpdateEnergySource_run w s1 _ Hf HC2) as HU2.
    destruct (energy_step_same_alpha I (set_m_energyUpdateEvent None s1) Hnonneg)
      as [He0 Hsame].
    simpl m_lastUpdateAlpha in He0, Hsame. rewrite Hlast in He0, Hsame.
    destruct (update_finish_members w (energy_step I alpha (set_m_energyUpdateEvent None s1)))
      as (Hr2 & _).
    eexists. eexists. split; [|split].
    + rewrite (GetRemainingEnergy_run _ _ _ _ HU2).
      rewrite Hr2, Hsame. reflexivity.
    + rewrite Hr2, Hsame. reflexivity.
    + intros _. exists (set_m_energyUpdateEvent None s1).
      rewrite Hlast. split; [exact HD2 | exact He0].
Qed.

Lemma GetRemainingEnergy_twice_witness :
  GetRemainingEnergy (w_at 6 1) after_first
    = Ok (31752 - alpha_6 * V_first, after_6, [EvCancel; EvSchedule 1]) /\
  exists s2 e2,
    GetRemainingEnergy (w_at 6 1) after_6 = Ok (31752 - alpha_6 * V_first, s2, e2) /\
    m_remainingEnergyJ s2 = m_remainingEnergyJ after_6.
Proof.
  pose proof (GetRemainingEnergy_run _ _ _ _ update_at_6) as H1.
  split; [exact H1|].
  assert (Hbeta : m_beta after_first <> 0) by (simpl; lra).
  assert (HqNom : m_qNom after_first <> 0) by (simpl; lra).
  assert (HqExp : m_qExp after_first <> 0) by (simpl; lra).
  assert (Hcap : m_qRated after_6 <> m_drainedCapacity after_6).
  { pose proof alpha_6_bounds. simpl. lra. }
  destruct (GetRemainingEnergy_twice (w_at 6 1) after_first after_6 _ _
              Hbeta HqNom HqExp H1 Hcap)
    as (s2 & e2 & H2 & H3 & _).
  exists s2, e2. split; [exact H2 | exact H3].
Defined.

(** ** C8: the voltage curve *)

(** C8. For every current [i], [GetVoltage (i)] returns [V = E - R_internal·i]
    of the specification, with [it] the drained capacity of the object and
    [A], [B], [K], [E0] and [E] as the specification defines them from the
    attributes of the cell. *)
Theorem GetVoltage_formula (s : LiIonBatteryModel) (i : R) :
  GetVoltage s i =
  spec_V (m_eFull s) (m_eNom s) (m_eExp s) (m_qRated s) (m_qNom s) (m_qExp s)
         (m_internalResistance s) (m_typCurrent s) (m_drainedCapacity s) i.
Proof.
  unfold GetVoltage, spec_V, spec_E, spec_E0, spec_K, spec_A_factor, spec_B_factor.
  reflexivity.
Qed.

(** ** C9: the update on a finished clock *)

(** C9. If the simulation clock has already finished, [UpdateEnergySource ()]
    returns at once: the object it leaves is the object it found, member for
    member (remaining energy, supply voltage, last update time, load history,
    last alpha, drained capacity and the pending event), and its log is
    empty, so nothing is cancelled, scheduled or notified. *)
Theorem UpdateEnergySource_finished_noop (w : World) (s : LiIonBatteryModel) :
  IsFinished w = true ->
  UpdateEnergySource w s = Ok (tt, s, []).
Proof.
  intros Hf. unfold UpdateEnergySource. rewrite Hf. reflexivity.
Qed.

Lemma UpdateEnergySource_finished_noop_witness :
  IsFinished (mkWorld 3600 true [1]) = true /\
  UpdateEnergySource (mkWorld 3600 true [1]) (LiIonBatteryModel_new 0)
  = Ok (tt, LiIonBatteryModel_new 0, []).
Proof.
  split; [reflexivity|].
  apply (UpdateEnergySource_finished_noop (mkWorld 3600 true [1])
           (LiIonBatteryModel_new 0)).
  reflexivity.
Defined.

(** ** C10: the clamp leaves the drained capacity stale *)

(** C10. Whenever an update takes the clamp branch, the remaining energy
    becomes 0, [m_drainedCapacity] keeps its value and [m_lastUpdateAlpha]
    still advances to the new alpha; so after any run of updates that all take
    the clamp branch, the drained capacity is the one from before the run and
    the supply voltage is the voltage curve at that stale drained capacity. *)
Theorem clamp_keeps_drained_capacity_stale
    (s s' : LiIonBatteryModel) (ws : list World) (w : World) :
  clamped_updates s (ws ++ [w]) s' ->
  m_remainingEnergyJ s' = 0 /\
  m_drainedCapacity s' = m_drainedCapacity s /\
  m_supplyVoltageV s' = GetVoltage s (CalculateTotalCurrent w) /\
  exists sp alpha h,
    clamped_updates s ws sp /\
    Discharge (CalculateTotalCurrent w * 1000) (Now w) (set_m_energyUpdateEvent None sp)
      = Ok (alpha, h, []) /\
    clamped alpha h /\
    m_drainedCapacity sp = m_drainedCapacity s /\
    m_lastUpdateAlpha s' = alpha.
Proof.
  intros H. apply clamped_updates_snoc in H. destruct H as (sp & Hsp & Hlast).
  destruct (clamped_updates_stale _ _ _ Hsp) as [Hd HG].
  inversion Hlast as [|? ? ? alpha h s1 e ? Hf HD Hc HU Hrest]; subst.
  inversion Hrest; subst.
  destruct (clamped_update _ _ _ _ _ _ Hf HD Hc HU) as (Hr & Hd' & Ha & HV & _).
  split; [exact Hr|]. split; [congruence|].
  split; [rewrite HV; apply HG|].
  exists sp, alpha, h. repeat split; assumption.
Qed.

Lemma clamp_keeps_drained_capacity_stale_witness :
  clamped_updates small_first ([w_at 6 1] ++ [w_at 12 1]) small_clamped_12 /\
  m_remainingEnergyJ small_clamped_12 = 0 /\
  m_drainedCapacity small_clamped_12 = m_drainedCapacity small_first /\
  m_supplyVoltageV small_clamped_12
  = GetVoltage small_first (CalculateTotalCurrent (w_at 12 1)).
Proof.
  split; [exact small_clamped_run|].
  destruct (clamp_keeps_drained_capacity_stale small_first small_clamped_12
              [w_at 6 1] (w_at 12 1) small_clamped_run) as (H1 & H2 & H3 & _).
  split; [exact H1 | split; [exact H2 | exact H3]].
Defined.

(** * Lemmas for the further properties *)

(** ** The transform of one segment *)

Lemma Rsum_ext (f g : nat -> R) (a n : nat) :
  (forall k, (a <= k < a + n)%nat -> f k = g k) -> Rsum f a n = Rsum g a n.
Proof.
  revert a. induction n as [|n IH]; intros a H; simpl; [reflexivity|].
  rewrite (H a) by lia. rewrite (IH (S a)); [reflexivity|].
  intros k Hk. apply H. lia.
Qed.

Lemma Rsum_plus (f g : nat -> R) (a n : nat) :
  Rsum (fun k => f k + g k) a n = Rsum f a n + Rsum g a n.
Proof.
  revert a. induction n as [|n IH]; intros a; simpl; [lra|].
  rewrite IH. lra.
Qed.

Lemma Rsum_scal (c : R) (f : nat -> R) (a n : nat) :
  Rsum (fun k => c * f k) a n = c * Rsum f a n.
Proof.
  revert a. induction n as [|n IH]; intros a; simpl; [lra|].
  rewrite IH. lra.
Qed.

Lemma spec_A_adjacent (t s2 s1 s0 beta : R) :
  spec_A t s2 s0 beta = spec_A t s2 s1 beta + spec_A t s1 s0 beta.
Proof.
  unfold spec_A.
  match goal with
  | |- _ + 2 * Rsum ?f 1 10 = (_ + 2 * Rsum ?g 1 10) + (_ + 2 * Rsum ?h 1 10) =>
      assert (HS : Rsum f 1 10 = Rsum g 1 10 + Rsum h 1 10)
  end.
  { rewrite <- Rsum_plus. apply Rsum_ext. intros k _.
    unfold Rdiv. ring. }
  rewrite HS. unfold Rdiv. ring.
Qed.

Lemma spec_A_shift (t sk sk_1 d beta : R) :
  spec_A (t + d) (sk + d) (sk_1 + d) beta = spec_A t sk sk_1 beta.
Proof.
  unfold spec_A.
  replace ((t + d - (sk + d)) / 60) with ((t - sk) / 60) by lra.
  replace ((t + d - (sk_1 + d)) / 60) with ((t - sk_1) / 60) by lra.
  replace ((sk + d - (sk_1 + d)) / 60) with ((sk - sk_1) / 60) by lra.
  reflexivity.
Qed.

(** ** The voltage curve *)

Lemma GetVoltage_full_charge (s : LiIonBatteryModel) (i : R) :
  m_qRated s <> 0 -> m_drainedCapacity s = 0 ->
  GetVoltage s i = m_eFull s + m_internalResistance s * (m_typCurrent s - i).
Proof.
  intros HQ Hit. unfold GetVoltage. rewrite Hit.
  replace (- (3 / m_qExp s) * 0) with 0 by (unfold Rdiv; ring).
  rewrite exp_0.
  replace (m_qRated s - 0) with (m_qRated s) by ring.
  set (K := Rabs _).
  replace (K * m_qRated s / m_qRated s) with K by (field; exact HQ).
  ring.
Qed.

(** ** [Discharge] on a history whose sizes disagree *)

Lemma length_removelast_snoc {A : Type} (l : list A) (x : A) :
  l <> [] -> length (removelast l ++ [x]) = length l.
Proof.
  intros H. rewrite (app_removelast_last x H) at 2. rewrite !length_app. reflexivity.
Qed.

Lemma Discharge_alpha_mismatch (t : Time) (s : LiIonBatteryModel) :
  length (m_timeStamps s) <> S (length (m_load s)) ->
  m_timeStamps s <> [] \/ (Z.of_nat (length (m_load s)) < 2 ^ 64 - 1)%Z ->
  Discharge_alpha t s = AssertFailed.
Proof.
  intros Hne Hmax. unfold Discharge_alpha. run_only.
  assert (E : (Z.of_nat (length (m_load s)) =? size_minus_1 (m_timeStamps s))%Z = false).
  { apply Z.eqb_neq. unfold size_minus_1.
    destruct (m_timeStamps s) as [|t0 ts] eqn:Ets.
    - destruct Hmax as [Hmax | Hmax]; [contradiction | lia].
    - change (length (t0 :: ts)) with (S (length ts)) in *. lia. }
  rewrite E. reflexivity.
Qed.

Lemma Discharge_no_timestamp (load : R) (t : Time) (s : LiIonBatteryModel) :
  m_timeStamps s = [] -> load <> m_previousLoad s ->
  Discharge load t s = OutOfBounds.
Proof.
  intros Ets Hne. unfold Discharge, Discharge_record, set_last_timeStamp. run_only.
  rewrite (Rneb_true _ _ Hne). cbn [m_timeStamps set_m_load set_m_previousLoad].
  rewrite Ets. reflexivity.
Qed.

Lemma Discharge_sizes_assert (load : R) (t : Time) (s : LiIonBatteryModel) :
  length (m_timeStamps s) <> S (length (m_load s)) ->
  (Z.of_nat (length (m_load s)) < 2 ^ 64 - 1)%Z ->
  m_timeStamps s <> [] \/ load = m_previousLoad s ->
  Discharge load t s = AssertFailed.
Proof.
  intros Hne Hmax Hcase. unfold Discharge.
  assert (Hrec : exists s1,
             Discharge_record load t s = Ok (tt, s1, []) /\
             Discharge_alpha t s1 = AssertFailed).
  { destruct (m_timeStamps s) as [|t0 ts] eqn:Ets.
    - destruct Hcase as [Hcase | Heq]; [contradiction|].
      exists (set_m_lastSampleTime t s). split.
      + unfold Discharge_record, set_last_timeStamp. run_only.
        rewrite (Rneb_false _ _ Heq). rewrite Ets. reflexivity.
      + apply Discharge_alpha_mismatch; simpl;
          [rewrite Ets; simpl; lia | right; exact Hmax].
    - assert (Hts : m_timeStamps s <> []) by (rewrite Ets; discriminate).
      destruct (Req_dec_T load (m_previousLoad s)) as [Heq | Hneq].
      + eexists. split; [apply (Discharge_record_same load t s Heq Hts)|].
        apply Discharge_alpha_mismatch; simpl.
        * rewrite length_removelast_snoc by exact Hts. rewrite Ets. exact Hne.
        * left. intros H. apply app_eq_nil in H. destruct H; discriminate.
      + eexists. split; [apply (Discharge_record_changed load t s Hneq Hts)|].
        apply Discharge_alpha_mismatch; simpl.
        * rewrite (length_app _ [t]), (length_app _ [load]).
          rewrite length_removelast_snoc by exact Hts. rewrite Ets.
          simpl in *. lia.
        * left. intros H. apply app_eq_nil in H. destruct H; discriminate. }
  destruct Hrec as (s1 & Hrec & HA).
  rewrite (bind_Ok _ _ _ _ _ _ Hrec), HA. reflexivity.
Qed.

(** ** The alpha against the charge drawn *)

Lemma last_is_nth {A : Type} (l : list A) (d : A) :
  l <> [] -> last l d = nth (length l - 1) l d.
Proof.
  intros H. rewrite (app_removelast_last d H) at 2 3.
  rewrite length_app. simpl length.
  replace (length (removelast l) + 1 - 1)%nat with (length (removelast l)) by lia.
  rewrite nth_middle. reflexivity.
Qed.

Lemma Sorted_nth_le (l : list R) :
  Sorted Rle l ->
  forall i j, (i <= j)%nat -> (j < length l)%nat -> nth i l 0 <= nth j l 0.
Proof.
  intros HS. apply Sorted_StronglySorted in HS; [|intros x y z; apply Rle_trans].
  induction HS as [|a l HS IH Hall]; intros i j Hij Hj; simpl in Hj; [lia|].
  destruct j as [|j].
  - replace i with 0%nat by lia. simpl. lra.
  - destruct i as [|i].
    + simpl. rewrite Forall_forall in Hall. apply Hall. apply nth_In. lia.
    + simpl. apply IH; lia.
Qed.

Lemma Rsum_snoc (f : nat -> R) (a n : nat) :
  Rsum f a (S n) = Rsum f a n + f (a + n)%nat.
Proof.
  revert a. induction n as [|n IH]; intros a.
  - simpl. rewrite Nat.add_0_r. lra.
  - change (Rsum f a (S (S n))) with (f a + Rsum f (S a) (S n)).
    rewrite IH. simpl. replace (S (a + n)) with (a + S n)%nat by lia. lra.
Qed.

Lemma spec_alpha_bounds (L : list R) (ts : list Time) (t beta : R) :
  length ts = S (length L) ->
  Sorted Rle ts -> last ts 0 <= t -> beta <> 0 ->
  Forall (Rle 0) L ->
  drawn_charge L ts <= spec_alpha L ts t beta <= 21 * drawn_charge L ts.
Proof.
  intros Hlen HS Hlast Hb HL.
  assert (Hne : ts <> []) by (intros E; rewrite E in Hlen; discriminate).
  rewrite (last_is_nth ts 0 Hne) in Hlast.
  unfold drawn_charge, spec_alpha. rewrite <- Rsum_scal.
  assert (Hterm : forall k, (1 <= k < 1 + (length ts - 1))%nat ->
            nth (k - 1) L 0 * ((nth k ts 0 - nth (k - 1) ts 0) / 60)
            <= nth (k - 1) L 0 * spec_A t (nth k ts 0) (nth (k - 1) ts 0) beta
            <= 21 * (nth (k - 1) L 0 * ((nth k ts 0 - nth (k - 1) ts 0) / 60))).
  { intros k Hk.
    assert (H0 : 0 <= nth (k - 1) L 0).
    { rewrite Forall_nth in HL. apply HL. lia. }
    assert (H1 : nth (k - 1) ts 0 <= nth k ts 0)
      by (apply Sorted_nth_le; [exact HS | lia | lia]).
    assert (H2 : nth k ts 0 <= t).
    { eapply Rle_trans; [|exact Hlast]. apply Sorted_nth_le; [exact HS | lia | lia]. }
    pose proof (spec_A_bounds t _ _ beta Hb H1 H2) as [Hlo Hhi].
    split; nra. }
  split; apply Rsum_le; intros k Hk; apply Hterm; exact Hk.
Qed.

(** ** A second sample at the same time *)

Lemma spec_alpha_snoc (L : list R) (ts : list Time) (x u t beta : R) :
  length ts = S (length L) ->
  spec_alpha (L ++ [x]) (ts ++ [u]) t beta
  = spec_alpha L ts t beta + x * spec_A t u (last ts 0) beta.
Proof.
  intros Hlen.
  assert (Hne : ts <> []) by (intros E; rewrite E in Hlen; discriminate).
  unfold spec_alpha. rewrite length_app. simpl length.
  replace (length ts + 1 - 1)%nat with (S (length ts - 1)) by lia.
  rewrite Rsum_snoc. f_equal.
  - apply Rsum_ext. intros k Hk.
    rewrite !app_nth1 by lia. reflexivity.
  - replace (1 + (length ts - 1))%nat with (length ts) by lia.
    rewrite nth_middle.
    replace (length ts - 1)%nat with (length L) at 1 by lia.
    rewrite nth_middle.
    rewrite app_nth1 by lia.
    rewrite <- (last_is_nth ts 0 Hne). reflexivity.
Qed.

Lemma Discharge_Ok_record load t s alpha s1 e :
  Discharge load t s = Ok (alpha, s1, e) ->
  Discharge_record load t s = Ok (tt, s1, []) /\ Discharge_alpha t s1 = Ok (alpha, s1, []) /\
  e = [].
Proof.
  intros H. unfold Discharge in H.
  destruct (bind_inv _ _ _ _ _ _ H) as (u & s0 & e1 & e2 & Hrec & Ha & ->).
  destruct (Discharge_alpha_frame _ _ _ _ _ Ha) as [-> ->].
  destruct (Discharge_record_frame _ _ _ _ _ _ Hrec) as [_ ->].
  destruct u. auto.
Qed.

Lemma same_but_history_beta s s1 : same_but_history s s1 -> m_beta s1 = m_beta s.
Proof. unfold same_but_history. intros ->. reflexivity. Qed.

(** ** Runs of updates *)

Lemma updates_cons w ws s s1 e1 :
  UpdateEnergySource w s = Ok (tt, s1, e1) ->
  updates (w :: ws) s =
  match updates ws s1 with
  | Ok (b, s2, e2) => Ok (b, s2, e1 ++ e2)
  | AssertFailed => AssertFailed
  | OutOfBounds => OutOfBounds
  end.
Proof. intros H. simpl. unfold bind. rewrite H. reflexivity. Qed.

Lemma Sorted_drop_second (a b : R) (l : list R) :
  Sorted Rle (a :: b :: l) -> a <= b /\ Sorted Rle (b :: l) /\ Sorted Rle (a :: l).
Proof.
  intros H.
  assert (HS : StronglySorted Rle (a :: b :: l)).
  { apply Sorted_StronglySorted; [intros x y z; apply Rle_trans | exact H]. }
  apply StronglySorted_inv in HS. destruct HS as [HS1 Hall].
  inversion Hall as [|? ? Hab Hall']; subst.
  split; [exact Hab|]. split; [apply StronglySorted_Sorted; exact HS1|].
  apply StronglySorted_Sorted. apply StronglySorted_inv in HS1. destruct HS1 as [HS2 _].
  constructor; assumption.
Qed.

Lemma update_records w s s' e :
  IsFinished w = false ->
  length (m_timeStamps s) = S (length (m_load s)) ->
  UpdateEnergySource w s = Ok (tt, s', e) ->
  length (m_timeStamps s') = S (length (m_load s')) /\
  m_load s' <> [] /\
  m_lastUpdateTime s' = Now w.
Proof.
  intros Hf Hlen HU.
  destruct (UpdateEnergySource_inv_full _ _ _ _ Hf HU) as (alpha & h & HD & _ & -> & _).
  destruct (Discharge_keeps_sizes _ _ (set_m_energyUpdateEvent None s) _ _ _ Hlen HD)
    as [Hlen1 Hload1].
  destruct (update_finish_members w (energy_step (CalculateTotalCurrent w) alpha h))
    as (_ & _ & _ & _ & Hlt & Hl & Hts & _).
  destruct (energy_step_history (CalculateTotalCurrent w) alpha h) as (Hl' & Hts' & _).
  rewrite Hl, Hts, Hl', Hts', Hlt. auto.
Qed.

(** ** The idle source *)




(** ** Methods that do not see a member *)

Lemma commutes_ret {A : Type} f (a : A) : commutes f (ret a).
Proof. intros s. reflexivity. Qed.

Lemma commutes_bind {A B : Type} f (c : M A) (k : A -> M B) :
  commutes f c -> (forall a, commutes f (k a)) -> commutes f (bind c k).
Proof.
  intros Hc Hk s. unfold bind. rewrite (Hc s).
  destruct (c s) as [[[a s1] e1]| |]; simpl; try reflexivity.
  rewrite (Hk a s1). destruct (k a s1) as [[[b s2] e2]| |]; reflexivity.
Qed.

Lemma commutes_get_bind {B : Type} f (k : LiIonBatteryModel -> M B) :
  (forall s, k (f s) (f s) = outcome_map f (k s s)) -> commutes f (bind get k).
Proof.
  intros Hk s. unfold bind, get. rewrite (Hk s).
  destruct (k s s) as [[[b s2] e2]| |]; reflexivity.
Qed.

Lemma commutes_gets {A : Type} f (g : LiIonBatteryModel -> A) :
  (forall s, g (f s) = g s) -> commutes f (gets g).
Proof. intros Hg s. unfold gets. simpl. rewrite Hg. reflexivity. Qed.

Lemma commutes_modify f (g : LiIonBatteryModel -> LiIonBatteryModel) :
  (forall s, g (f s) = f (g s)) -> commutes f (modify g).
Proof. intros Hg s. unfold modify. simpl. rewrite Hg. reflexivity. Qed.

Lemma commutes_emit f (e : Effect) : commutes f (emit e).
Proof. intros s. reflexivity. Qed.

Lemma commutes_NS_ASSERT f (b : bool) : commutes f (NS_ASSERT b).
Proof. intros s. unfold NS_ASSERT. destruct b; reflexivity. Qed.

Lemma commutes_vec_at {A : Type} f (v : list A) (i : nat) : commutes f (vec_at v i).
Proof. intros s. unfold vec_at. destruct (nth_error v i); reflexivity. Qed.

Section HistoryBlind.

(** [f] writes no member of the load history and not [m_beta]. *)
Variable f : LiIonBatteryModel -> LiIonBatteryModel.
Hypothesis f_load : forall s, m_load (f s) = m_load s.
Hypothesis f_timeStamps : forall s, m_timeStamps (f s) = m_timeStamps s.
Hypothesis f_previousLoad : forall s, m_previousLoad (f s) = m_previousLoad s.
Hypothesis f_lastSampleTime : forall s, m_lastSampleTime (f s) = m_lastSampleTime s.
Hypothesis f_beta : forall s, m_beta (f s) = m_beta s.
Hypothesis f_set_load : forall v s, set_m_load v (f s) = f (set_m_load v s).
Hypothesis f_set_timeStamps : forall v s, set_m_timeStamps v (f s) = f (set_m_timeStamps v s).
Hypothesis f_set_previousLoad :
  forall v s, set_m_previousLoad v (f s) = f (set_m_previousLoad v s).
Hypothesis f_set_lastSampleTime :
  forall v s, set_m_lastSampleTime v (f s) = f (set_m_lastSampleTime v s).

Lemma commutes_set_last_timeStamp (x : Time) : commutes f (set_last_timeStamp x).
Proof.
  intros s. unfold set_last_timeStamp. rewrite f_timeStamps.
  destruct (m_timeStamps s); simpl; [reflexivity|].
  rewrite f_set_timeStamps. reflexivity.
Qed.

Lemma commutes_Discharge_record (load : R) (t : Time) :
  commutes f (Discharge_record load t).
Proof.
  unfold Discharge_record.
  apply commutes_bind; [apply commutes_gets; exact f_previousLoad|].
  intros previousLoad.
  apply commutes_bind; [|intros _; apply commutes_modify; intros s; apply f_set_lastSampleTime].
  destruct (Rneb load previousLoad).
  - apply commutes_bind;
      [apply commutes_modify; intros s; rewrite f_load; apply f_set_load|].
    intros _. apply commutes_bind;
      [apply commutes_modify; intros s; apply f_set_previousLoad|].
    intros _. apply commutes_bind; [apply commutes_gets; exact f_lastSampleTime|].
    intros lastSampleTime. apply commutes_bind; [apply commutes_set_last_timeStamp|].
    intros _. apply commutes_modify. intros s. rewrite f_timeStamps. apply f_set_timeStamps.
  - apply commutes_bind; [apply commutes_gets; exact f_timeStamps|].
    intros [|t0 ts]; [apply commutes_ret | apply commutes_set_last_timeStamp].
Qed.

Lemma commutes_Discharge_loop (t : Time) :
  forall iters i acc, commutes f (Discharge_loop iters i t acc).
Proof.
  induction iters as [|iters IH]; intros i acc; simpl.
  - apply commutes_ret.
  - apply commutes_bind; [apply commutes_gets; exact f_load|]. intros load.
    apply commutes_bind; [apply commutes_gets; exact f_timeStamps|]. intros timeStamps.
    apply commutes_bind; [apply commutes_gets; exact f_beta|]. intros beta.
    apply commutes_bind; [apply commutes_vec_at|]. intros l.
    apply commutes_bind; [apply commutes_vec_at|]. intros sk.
    apply commutes_bind; [apply commutes_vec_at|]. intros sk_1.
    apply IH.
Qed.

Lemma commutes_Discharge_alpha (t : Time) : commutes f (Discharge_alpha t).
Proof.
  unfold Discharge_alpha.
  apply commutes_bind; [apply commutes_gets; exact f_load|]. intros load.
  apply commutes_bind; [apply commutes_gets; exact f_timeStamps|]. intros timeStamps.
  apply commutes_bind; [apply commutes_NS_ASSERT|]. intros _.
  destruct (length timeStamps =? 1)%nat.
  - apply commutes_bind; [apply commutes_gets; exact f_beta|]. intros beta.
    apply commutes_bind; [apply commutes_vec_at|]. intros l0.
    apply commutes_ret.
  - apply commutes_Discharge_loop.
Qed.

Lemma commutes_Discharge (load : R) (t : Time) : commutes f (Discharge load t).
Proof.
  unfold Discharge.
  apply commutes_bind; [apply commutes_Discharge_record|].
  intros _. apply commutes_Discharge_alpha.
Qed.

End HistoryBlind.

Lemma GetVoltage_set_m_alpha a s i : GetVoltage (set_m_alpha a s) i = GetVoltage s i.
Proof. reflexivity. Qed.

Lemma Discharge_blind_to_alpha a load t : commutes (set_m_alpha a) (Discharge load t).
Proof. apply commutes_Discharge; intros; reflexivity. Qed.

Lemma CalculateRemainingEnergy_blind_to_alpha a w :
  commutes (set_m_alpha a) (CalculateRemainingEnergy w).
Proof.
  unfold CalculateRemainingEnergy. cbv zeta.
  apply commutes_bind; [apply commutes_gets; reflexivity|]. intros lastUpdateTime.
  apply commutes_bind; [apply Discharge_blind_to_alpha|]. intros calculatedAlpha.
  apply commutes_bind; [apply commutes_NS_ASSERT|]. intros _.
  apply commutes_bind; [apply commutes_gets; reflexivity|]. intros lastUpdateAlpha.
  apply commutes_bind; [apply commutes_gets; reflexivity|]. intros supplyVoltageV.
  apply commutes_bind; [apply commutes_gets; reflexivity|]. intros remainingEnergyJ.
  apply commutes_bind.
  - destruct (Rltb remainingEnergyJ _).
    + apply commutes_modify; reflexivity.
    + apply commutes_bind; [apply commutes_modify; reflexivity|].
      intros _. apply commutes_modify; reflexivity.
  - intros _. apply commutes_bind; [apply commutes_modify; reflexivity|].
    intros _. apply commutes_modify; reflexivity.
Qed.

Lemma UpdateEnergySource_blind_to_alpha a w :
  commutes (set_m_alpha a) (UpdateEnergySource w).
Proof.
  unfold UpdateEnergySource. destruct (IsFinished w); [apply commutes_ret|].
  apply commutes_bind; [apply commutes_modify; reflexivity|]. intros _.
  apply commutes_bind; [apply commutes_emit|]. intros _.
  apply commutes_bind; [apply CalculateRemainingEnergy_blind_to_alpha|]. intros _.
  apply commutes_bind; [apply commutes_modify; reflexivity|]. intros _.
  apply commutes_get_bind. intros s.
  change (m_remainingEnergyJ (set_m_alpha a s)) with (m_remainingEnergyJ s).
  change (m_lowBatteryTh (set_m_alpha a s)) with (m_lowBatteryTh s).
  change (m_initialEnergyJ (set_m_alpha a s)) with (m_initialEnergyJ s).
  change (m_energyUpdateInterval (set_m_alpha a s)) with (m_energyUpdateInterval s).
  destruct (Rleb _ _); reflexivity.
Qed.

Lemma methods_blind_to_alpha a w :
  commutes (set_m_alpha a) (GetRemainingEnergy w) /\
  commutes (set_m_alpha a) (GetEnergyFraction w) /\
  (forall x, commutes (set_m_alpha a) (DecreaseRemainingEnergy x)) /\
  (forall x, commutes (set_m_alpha a) (IncreaseRemainingEnergy x)).
Proof.
  split; [|split; [|split]].
  - unfold GetRemainingEnergy.
    apply commutes_bind; [apply UpdateEnergySource_blind_to_alpha|].
    intros _. apply commutes_gets; reflexivity.
  - unfold GetEnergyFraction.
    apply commutes_bind; [apply UpdateEnergySource_blind_to_alpha|].
    intros _. apply commutes_get_bind. intros s. reflexivity.
  - intros x. unfold DecreaseRemainingEnergy.
    apply commutes_bind; [apply commutes_NS_ASSERT|]. intros _.
    apply commutes_bind; [apply commutes_modify; reflexivity|]. intros _.
    apply commutes_get_bind. intros s.
    change (m_supplyVoltageV (set_m_alpha a s)) with (m_supplyVoltageV s).
    change (m_minVoltTh (set_m_alpha a s)) with (m_minVoltTh s).
    destruct (Rleb _ _); reflexivity.
  - intros x. unfold IncreaseRemainingEnergy.
    apply commutes_bind; [apply commutes_NS_ASSERT|]. intros _.
    apply commutes_modify; reflexivity.
Qed.

(** ** Adding energy before an update *)

Lemma Discharge_blind_to_energy v load t :
  commutes (set_m_remainingEnergyJ v) (Discharge load t).
Proof. apply commutes_Discharge; intros; reflexivity. Qed.

Lemma GetVoltage_members (s s' : LiIonBatteryModel) (i : R) :
  m_drainedCapacity s' = m_drainedCapacity s ->
  m_eFull s' = m_eFull s -> m_eNom s' = m_eNom s -> m_eExp s' = m_eExp s ->
  m_qRated s' = m_qRated s -> m_qNom s' = m_qNom s -> m_qExp s' = m_qExp s ->
  m_internalResistance s' = m_internalResistance s -> m_typCurrent s' = m_typCurrent s ->
  GetVoltage s' i = GetVoltage s i.
Proof.
  intros H1 H2 H3 H4 H5 H6 H7 H8 H9. unfold GetVoltage.
  rewrite H1, H2, H3, H4, H5, H6, H7, H8, H9. reflexivity.
Qed.

Lemma energy_branch_drained alpha s :
  m_drainedCapacity (energy_branch alpha s) = m_drainedCapacity s \/
  m_drainedCapacity (energy_branch alpha s) = alpha / 3600.
Proof.
  destruct (energy_branch_cases alpha s) as [[_ ->] | [_ ->]]; [left | right]; reflexivity.
Qed.

Lemma energy_branch_frame alpha s :
  m_eFull (energy_branch alpha s) = m_eFull s /\
  m_eNom (energy_branch alpha s) = m_eNom s /\
  m_eExp (energy_branch alpha s) = m_eExp s /\
  m_qRated (energy_branch alpha s) = m_qRated s /\
  m_qNom (energy_branch alpha s) = m_qNom s /\
  m_qExp (energy_branch alpha s) = m_qExp s /\
  m_internalResistance (energy_branch alpha s) = m_internalResistance s /\
  m_typCurrent (energy_branch alpha s) = m_typCurrent s.
Proof.
  destruct (energy_branch_cases alpha s) as [[_ ->] | [_ ->]]; simpl; auto 10.
Qed.

(** ** A constant load *)

Lemma spec_A_grows_from (beta s0 t1 t2 : R) :
  beta <> 0 -> s0 <= t1 -> t1 <= t2 ->
  spec_A t1 t1 s0 beta + (t2 - t1) / 60 <= spec_A t2 t2 s0 beta.
Proof.
  intros Hb H1 H2.
  pose proof (spec_A_shift (t1 - s0) (t1 - s0) 0 s0 beta) as E1.
  pose proof (spec_A_shift (t2 - s0) (t2 - s0) 0 s0 beta) as E2.
  replace (t1 - s0 + s0) with t1 in E1 by lra.
  replace (t2 - s0 + s0) with t2 in E2 by lra.
  replace (0 + s0) with s0 in E1, E2 by lra.
  rewrite E1, E2.
  pose proof (spec_A_constant_load_grows beta (t1 - s0) (t2 - s0) Hb) as H.
  assert (H3 : 0 <= t1 - s0) by lra. assert (H4 : t1 - s0 <= t2 - s0) by lra.
  specialize (H H3 H4).
  replace (t2 - s0 - (t1 - s0)) with (t2 - t1) in H by lra. exact H.
Qed.

Lemma constant_load_Discharge (L : R) (s0 t : Time) (s : LiIonBatteryModel) :
  m_load s = [L] -> m_timeStamps s = [s0; m_lastSampleTime s] -> m_previousLoad s = L ->
  Discharge L t s =
  Ok (L * RvModelAFunction t t s0 (m_beta s),
      set_m_lastSampleTime t (set_m_timeStamps [s0; t] s), []).
Proof.
  intros Hl Hts Hp.
  assert (Hlen : length (m_timeStamps s) = S (length (m_load s)))
    by (rewrite Hl, Hts; reflexivity).
  assert (Hne : m_load s <> []) by (rewrite Hl; discriminate).
  pose proof (Discharge_run_same L t s (eq_sym Hp) Hlen Hne) as HD. cbv zeta in HD.
  rewrite Hl, Hts in HD. rewrite HD.
  unfold spec_alpha. simpl. rewrite RvModelAFunction_spec.
  f_equal. f_equal. f_equal. lra.
Qed.

(** ** The first update of a fresh object *)

Lemma fresh_new (c : Time) : fresh c (LiIonBatteryModel_new c).
Proof. unfold fresh. simpl. auto 10. Qed.

Lemma fresh_first_Discharge (c t load : R) (s : LiIonBatteryModel) :
  fresh c s -> load <> -1 ->
  Discharge load t s =
  Ok (load * RvModelAFunction t t c (m_beta s),
      set_m_lastSampleTime t
        (set_m_timeStamps [c; t] (set_m_previousLoad load (set_m_load [load] s))),
      []).
Proof.
  intros (_ & _ & Hp & _ & Hls & Hl & Hts) Hne.
  assert (Hne' : load <> m_previousLoad s) by (rewrite Hp; exact Hne).
  assert (Hlen : length (m_timeStamps s) = S (length (m_load s)))
    by (rewrite Hl, Hts; reflexivity).
  pose proof (Discharge_run_changed load t s Hne' Hlen) as HD. cbv zeta in HD.
  rewrite Hl, Hts, Hls in HD. simpl in HD. rewrite HD.
  unfold spec_alpha. simpl. rewrite RvModelAFunction_spec.
  f_equal. f_equal. f_equal. lra.
Qed.

(** ** The same update twice *)

Lemma update_again (w : World) (s s1 : LiIonBatteryModel) (e1 : list Effect) :
  UpdateEnergySource w s = Ok (tt, s1, e1) ->
  exists s2,
    UpdateEnergySource w s1 = Ok (tt, s2, e1) /\
    m_remainingEnergyJ s2 = m_remainingEnergyJ s1 /\
    m_energyUpdateEvent s2 = m_energyUpdateEvent s1.
Proof.
  intros HU.
  destruct (IsFinished w) eqn:Hf.
  - rewrite (UpdateEnergySource_finished w s Hf) in HU. inversion HU; subst.
    exists s1. split; [apply UpdateEnergySource_finished; exact Hf | split; reflexivity].
  - destruct (UpdateEnergySource_inv_full _ _ _ _ Hf HU) as (alpha & h & HD & Ht & Hs1 & He1).
    set (I := CalculateTotalCurrent w) in *.
    destruct (update_finish_members w (energy_step I alpha h))
      as (Hr & Ha & HV & Hdc & Hlt & Hl & Hts & Hp & Hls & Hb).
    rewrite <- Hs1 in Hr, Ha, HV, Hdc, Hlt, Hl, Hts, Hp, Hls, Hb.
    destruct (energy_step_history I alpha h) as (Hl' & Hts' & Hp' & Hls' & Hb').
    set (s1' := set_m_energyUpdateEvent None s1).
    assert (HD2 : Discharge (I * 1000) (Now w) s1' = Ok (alpha, s1', [])).
    { apply (Discharge_again _ _ _ _ _ _ _ HD); simpl; congruence. }
    assert (Hlast : m_lastUpdateAlpha s1 = alpha).
    { rewrite Ha. apply energy_step_lastUpdateAlpha. }
    assert (Hnonneg : 0 <= m_remainingEnergyJ s1').
    { simpl. rewrite Hr. apply energy_step_nonneg. }
    assert (Ht1 : m_lastUpdateTime s1 <= Now w) by (rewrite Hlt; lra).
    pose proof (UpdateEnergySource_step w I s1 alpha s1' Hf eq_refl HD2 Ht1) as HU2.
    destruct (energy_step_same_alpha I s1' Hnonneg) as [He0 Hsame].
    simpl m_lastUpdateAlpha in He0, Hsame. rewrite Hlast in He0, Hsame.
    change (m_remainingEnergyJ s1') with (m_remainingEnergyJ s1) in Hsame.
    destruct (update_finish_members w (energy_step I alpha s1')) as (Hr2 & _).
    exists (fst (update_finish w (energy_step I alpha s1'))).
    assert (Hth1 : m_lowBatteryTh s1 * m_initialEnergyJ s1
                   = m_lowBatteryTh (energy_step I alpha h)
                     * m_initialEnergyJ (energy_step I alpha h)).
    { rewrite Hs1. unfold update_finish.
      destruct (Rleb _ _); reflexivity. }
    assert (Hint1 : m_energyUpdateInterval s1 = m_energyUpdateInterval (energy_step I alpha h)).
    { rewrite Hs1. unfold update_finish. destruct (Rleb _ _); reflexivity. }
    assert (Hth2 : m_lowBatteryTh (energy_step I alpha s1')
                   * m_initialEnergyJ (energy_step I alpha s1')
                   = m_lowBatteryTh s1 * m_initialEnergyJ s1).
    { unfold energy_step, energy_branch. destruct (Rltb _ _); reflexivity. }
    assert (Hint2 : m_energyUpdateInterval (energy_step I alpha s1')
                    = m_energyUpdateInterval s1).
    { unfold energy_step, energy_branch. destruct (Rltb _ _); reflexivity. }
    assert (Hrem1 : m_remainingEnergyJ (energy_step I alpha h) = m_remainingEnergyJ s1)
      by (symmetry; exact Hr).
    destruct (Rle_dec (m_remainingEnergyJ s1) (m_lowBatteryTh s1 * m_initialEnergyJ s1))
      as [Hdep | Hact].
    + (* depleted both times *)
      assert (E1' : update_finish w (energy_step I alpha h)
                    = (set_m_lastUpdateTime (Now w) (energy_step I alpha h),
                       [EvCancel; EvEnergyDrained])).
      { apply update_finish_depleted. unfold depleted. rewrite Hrem1, <- Hth1. exact Hdep. }
      assert (E2' : update_finish w (energy_step I alpha s1')
                    = (set_m_lastUpdateTime (Now w) (energy_step I alpha s1'),
                       [EvCancel; EvEnergyDrained])).
      { apply update_finish_depleted. unfold depleted. rewrite Hsame, Hth2. exact Hdep. }
      rewrite HU2, He1, E1', E2'. cbn [fst snd].
      split; [reflexivity|]. split.
      * simpl m_remainingEnergyJ. exact Hsame.
      * rewrite Hs1, E1'. cbn [fst].
        unfold energy_step, energy_branch.
        destruct (Rltb _ _); destruct (Rltb _ _); simpl; try reflexivity.
        all: apply Discharge_frame_members in HD;
          destruct HD as (_ & _ & _ & _ & _ & _ & _ & Hev & _);
          rewrite Hev; reflexivity.
    + assert (Hact' : m_lowBatteryTh s1 * m_initialEnergyJ s1 < m_remainingEnergyJ s1) by lra.
      assert (E1' : update_finish w (energy_step I alpha h)
                    = (set_m_energyUpdateEvent
                         (Some (Now w + m_energyUpdateInterval (energy_step I alpha h)))
                         (set_m_lastUpdateTime (Now w) (energy_step I alpha h)),
                       [EvCancel;
                        EvSchedule (m_energyUpdateInterval (energy_step I alpha h))])).
      { apply update_finish_active. rewrite Hrem1, <- Hth1. exact Hact'. }
      assert (E2' : update_finish w (energy_step I alpha s1')
                    = (set_m_energyUpdateEvent
                         (Some (Now w + m_energyUpdateInterval (energy_step I alpha s1')))
                         (set_m_lastUpdateTime (Now w) (energy_step I alpha s1')),
                       [EvCancel;
                        EvSchedule (m_energyUpdateInterval (energy_step I alpha s1'))])).
      { apply update_finish_active. rewrite Hsame, Hth2. exact Hact'. }
      rewrite HU2, He1, E1', E2'. cbn [fst snd].
      rewrite Hint2, <- Hint1.
      split; [reflexivity|]. split.
      * simpl m_remainingEnergyJ. exact Hsame.
      * assert (Hev1 : m_energyUpdateEvent s1 = Some (Now w + m_energyUpdateInterval s1)).
        { rewrite Hint1. rewrite Hs1, E1'. reflexivity. }
        rewrite Hev1. reflexivity.
Qed.

(** ** Printing the cell *)

Lemma PrintCellInfo_run (voltage_first : bool) (w : World) (s s1 : LiIonBatteryModel)
    (e1 : list Effect) :
  UpdateEnergySource w s = Ok (tt, s1, e1) ->
  exists s2,
    PrintCellInfo voltage_first w s =
    Ok (mkCellInfo (if voltage_first then m_supplyVoltageV s else m_supplyVoltageV s1)
          (m_remainingEnergyJ s1) (m_remainingEnergyJ s1)
          (if IsFinished w then None else Some (Seconds 20)),
        s2, e1 ++ e1) /\
    m_remainingEnergyJ s2 = m_remainingEnergyJ s1.
Proof.
  intros HU.
  destruct (update_again w s s1 e1 HU) as (s2 & HU2 & Hr2 & _).
  pose proof (GetRemainingEnergy_run _ _ _ _ HU) as HG1.
  pose proof (GetRemainingEnergy_run _ _ _ _ HU2) as HG2.
  exists s2. split; [|exact Hr2].
  unfold PrintCellInfo.
  destruct voltage_first.
  - unfold bind at 1. unfold bind at 1. unfold GetSupplyVoltage at 1. unfold gets at 1.
    unfold bind at 1. rewrite HG1. unfold ret at 1. cbv beta iota.
    unfold bind. rewrite HG2. unfold ret. cbn [fst snd app].
    rewrite Hr2, !app_nil_r. reflexivity.
  - unfold bind at 1. unfold bind at 1. rewrite HG1.
    unfold bind at 1. unfold GetSupplyVoltage, gets, ret. cbv beta iota.
    unfold bind. rewrite HG2. cbn [fst snd app].
    rewrite Hr2, !app_nil_r. reflexivity.
Qed.

(** ** Runs of updates from the constructor on *)

Lemma update_sampled w s s' e :
  IsFinished w = false ->
  UpdateEnergySource w s = Ok (tt, s', e) ->
  m_lastSampleTime s' = Now w.
Proof.
  intros Hf HU.
  destruct (UpdateEnergySource_inv_full _ _ _ _ Hf HU) as (alpha & h & HD & _ & -> & _).
  destruct (Discharge_Ok_record _ _ _ _ _ _ HD) as (Hrec & _).
  destruct (Discharge_record_post _ _ _ _ _ _ Hrec) as (_ & Hls & _).
  destruct (update_finish_members w (energy_step (CalculateTotalCurrent w) alpha h))
    as (_ & _ & _ & _ & _ & _ & _ & _ & Hls1 & _).
  destruct (energy_step_history (CalculateTotalCurrent w) alpha h) as (_ & _ & _ & Hls2 & _).
  rewrite Hls1, Hls2. exact Hls.
Qed.

Lemma update_nonneg w s s' e :
  0 <= m_remainingEnergyJ s ->
  UpdateEnergySource w s = Ok (tt, s', e) ->
  0 <= m_remainingEnergyJ s'.
Proof.
  intros Hr HU. destruct (IsFinished w) eqn:Hf.
  - rewrite (UpdateEnergySource_finished w s Hf) in HU. inversion HU; subst. exact Hr.
  - destruct (UpdateEnergySource_inv_full _ _ _ _ Hf HU) as (alpha & h & HD & _ & -> & _).
    destruct (update_finish_members w (energy_step (CalculateTotalCurrent w) alpha h))
      as (Hr1 & _).
    rewrite Hr1. apply energy_step_nonneg.
Qed.

Lemma updates_from_history (ws : list World) : forall s : LiIonBatteryModel,
  history_inv s ->
  m_load s <> [] \/ m_previousLoad s < 0 ->
  Forall (fun w => 0 <= CalculateTotalCurrent w) ws ->
  Sorted Rle (m_lastSampleTime s :: map Now ws) ->
  Sorted Rle (m_lastUpdateTime s :: map Now ws) ->
  exists s' e,
    updates ws s = Ok (tt, s', e) /\
    history_inv s' /\
    (0 <= m_remainingEnergyJ s -> 0 <= m_remainingEnergyJ s').
Proof.
  induction ws as [|w ws IH]; intros s Hinv Hload Hall HSs HSu.
  - exists s, []. split; [reflexivity | split; [exact Hinv | auto]].
  - simpl map in HSs, HSu.
    destruct (Sorted_drop_second _ _ _ HSs) as (Hles & HSs1 & HSs2).
    destruct (Sorted_drop_second _ _ _ HSu) as (Hleu & _ & HSu2).
    inversion Hall as [|? ? HI Hall']; subst.
    destruct (IsFinished w) eqn:Hf.
    + pose proof (UpdateEnergySource_finished w s Hf) as HU.
      destruct (IH s Hinv Hload Hall' HSs2 HSu2) as (s' & e & Hrun & Hrest).
      exists s', e. split; [|exact Hrest].
      rewrite (updates_cons _ _ _ _ _ HU), Hrun. reflexivity.
    + assert (Hready : ready w s).
      { split; [apply Hinv|]. split; [|exact Hleu].
        destruct Hload as [H | H]; [left; exact H | right]. nra. }
      destruct (UpdateEnergySource_returns w s Hready) as (s1 & e1 & HU).
      destruct (update_records _ _ _ _ Hf (proj1 Hinv) HU) as (_ & Hload1 & Hlt1).
      pose proof (update_sampled _ _ _ _ Hf HU) as Hls1.
      pose proof (UpdateEnergySource_keeps_history w s s1 e1 Hinv Hles HU) as Hinv1.
      assert (HS1 : Sorted Rle (m_lastSampleTime s1 :: map Now ws))
        by (rewrite Hls1; exact HSs1).
      assert (HS2 : Sorted Rle (m_lastUpdateTime s1 :: map Now ws))
        by (rewrite Hlt1; exact HSs1).
      destruct (IH s1 Hinv1 (or_introl Hload1) Hall' HS1 HS2) as (s' & e & Hrun & Hinv' & Hr').
      exists s', (e1 ++ e). split; [|split; [exact Hinv'|]].
      * rewrite (updates_cons _ _ _ _ _ HU), Hrun. reflexivity.
      * intros Hr. apply Hr'. apply (update_nonneg w s s1 e1 Hr HU).
Qed.

(** ** What a run of updates keeps *)

Lemma updates_inv w ws s s' e :
  updates (w :: ws) s = Ok (tt, s', e) ->
  exists s1 e1 e2,
    UpdateEnergySource w s = Ok (tt, s1, e1) /\
    updates ws s1 = Ok (tt, s', e2) /\ e = e1 ++ e2.
Proof.
  intros H. simpl in H.
  destruct (bind_inv _ _ _ _ _ _ H) as (u & s1 & e1 & e2 & HU & Hrest & ->).
  destruct u. exists s1, e1, e2. auto.
Qed.

Lemma update_configuration w s s' e :
  UpdateEnergySource w s = Ok (tt, s', e) -> configuration s' = configuration s.
Proof.
  intros HU. destruct (IsFinished w) eqn:Hf.
  - rewrite (UpdateEnergySource_finished w s Hf) in HU. inversion HU; subst. reflexivity.
  - destruct (UpdateEnergySource_inv_full _ _ _ _ Hf HU) as (alpha & h & HD & _ & -> & _).
    destruct (Discharge_frame _ _ _ _ _ _ HD) as [Hh _].
    unfold same_but_history in Hh.
    assert (Hc : configuration h = configuration s) by (rewrite Hh; reflexivity).
    rewrite <- Hc.
    unfold update_finish, energy_step, energy_branch.
    destruct (Rleb _ _); destruct (Rltb _ _); reflexivity.
Qed.

Lemma updates_configuration (ws : list World) : forall s s' e,
  updates ws s = Ok (tt, s', e) -> configuration s' = configuration s.
Proof.
  induction ws as [|w ws IH]; intros s s' e H.
  - inversion H; subst. reflexivity.
  - destruct (updates_inv _ _ _ _ _ H) as (s1 & e1 & e2 & HU & Hrest & _).
    rewrite (IH _ _ _ Hrest). apply (update_configuration _ _ _ _ HU).
Qed.

Lemma Discharge_record_load load t s u s1 e :
  Discharge_record load t s = Ok (u, s1, e) ->
  m_load s1 = m_load s \/ m_load s1 = m_load s ++ [load].
Proof.
  intros H.
  destruct (m_timeStamps s) as [|t0 ts] eqn:Ets.
  - revert H. unfold Discharge_record, set_last_timeStamp. run_only.
    destruct (Rneb load (m_previousLoad s));
      cbn [m_timeStamps set_m_load set_m_previousLoad]; rewrite Ets.
    + discriminate.
    + cbv beta iota. intros H. inversion H; subst. left. reflexivity.
  - assert (Hne : m_timeStamps s <> []) by (rewrite Ets; discriminate).
    destruct (Req_dec_T load (m_previousLoad s)) as [Heq | Hneq].
    + rewrite (Discharge_record_same load t s Heq Hne) in H. inversion H; subst.
      left. reflexivity.
    + rewrite (Discharge_record_changed load t s Hneq Hne) in H. inversion H; subst.
      right. reflexivity.
Qed.

Lemma update_load w s s' e :
  UpdateEnergySource w s = Ok (tt, s', e) ->
  m_load s' = m_load s \/ m_load s' = m_load s ++ [CalculateTotalCurrent w * 1000].
Proof.
  intros HU. destruct (IsFinished w) eqn:Hf.
  - rewrite (UpdateEnergySource_finished w s Hf) in HU. inversion HU; subst. left; reflexivity.
  - destruct (UpdateEnergySource_inv_full _ _ _ _ Hf HU) as (alpha & h & HD & _ & -> & _).
    destruct (Discharge_Ok_record _ _ _ _ _ _ HD) as (Hrec & _).
    destruct (update_finish_members w (energy_step (CalculateTotalCurrent w) alpha h))
      as (_ & _ & _ & _ & _ & Hl & _).
    destruct (energy_step_history (CalculateTotalCurrent w) alpha h) as (Hl' & _).
    rewrite Hl, Hl'. apply (Discharge_record_load _ _ _ _ _ _ Hrec).
Qed.

Lemma updates_load (ws : list World) : forall s s' e,
  updates ws s = Ok (tt, s', e) ->
  exists added, m_load s' = m_load s ++ added /\ (length added <= length ws)%nat.
Proof.
  induction ws as [|w ws IH]; intros s s' e H.
  - inversion H; subst. exists []. rewrite app_nil_r. split; [reflexivity | simpl; lia].
  - destruct (updates_inv _ _ _ _ _ H) as (s1 & e1 & e2 & HU & Hrest & _).
    destruct (IH _ _ _ Hrest) as (added & Hl & Hlen).
    destruct (update_load _ _ _ _ HU) as [H1 | H1]; rewrite H1 in Hl.
    + exists added. split; [exact Hl | simpl; lia].
    + exists ([CalculateTotalCurrent w * 1000] ++ added).
      split; [rewrite Hl, app_assoc; reflexivity | simpl; lia].
Qed.

(** * Further properties of the code *)

(** ** Runs of updates *)

(** X1. From a history that satisfies its invariant, with a load recorded or
    the sentinel still in [m_previousLoad], any run of updates returns:
    provided beta is not zero, the total current is never negative and the
    clock never goes back, no update aborts on an assertion or reads a vector
    out of bounds, and the invariant holds after the run. *)
Theorem updates_never_fail (ws : list World) (s : LiIonBatteryModel) :
  history_inv s -> m_beta s <> 0 ->
  m_load s <> [] \/ m_previousLoad s < 0 ->
  Forall (fun w => 0 <= CalculateTotalCurrent w) ws ->
  Sorted Rle (m_lastSampleTime s :: map Now ws) ->
  Sorted Rle (m_lastUpdateTime s :: map Now ws) ->
  exists s' e, updates ws s = Ok (tt, s', e) /\ history_inv s'.
Proof.
  intros Hinv Hbeta Hload Hall HSs HSu.
  destruct (updates_from_history ws s Hinv Hload Hall HSs HSu)
    as (s' & e & Hrun & Hinv' & _).
  exists s', e. split; [exact Hrun | exact Hinv'].
Qed.

Lemma updates_never_fail_witness :
  exists s' e,
    updates [w_at 0 1; w_at 6 1] (LiIonBatteryModel_new 0) = Ok (tt, s', e) /\
    history_inv s'.
Proof.
  apply (updates_never_fail [w_at 0 1; w_at 6 1] (LiIonBatteryModel_new 0)).
  - apply history_inv_new.
  - simpl. lra.
  - right. simpl. lra.
  - unfold w_at. apply Forall_cons; [rewrite CalculateTotalCurrent_one; lra|].
    apply Forall_cons; [rewrite CalculateTotalCurrent_one; lra | apply Forall_nil].
  - simpl. apply Sorted_cons; [apply Sorted_cons; [apply Sorted_cons;
      [apply Sorted_nil | apply HdRel_nil] | apply HdRel_cons; lra] | apply HdRel_cons; lra].
  - simpl. unfold Seconds.
    apply Sorted_cons; [apply Sorted_cons; [apply Sorted_cons;
      [apply Sorted_nil | apply HdRel_nil] | apply HdRel_cons; lra] | apply HdRel_cons; lra].
Defined.

(** X2. A run of updates that returns has not touched the configuration of
    the cell: the members behind the attributes of [GetTypeId] (initial
    energy, thresholds, the voltages and capacities of the curve, internal
    resistance, typical current, update interval, alpha and beta of the RV
    model) are what they were. *)
Theorem updates_keep_configuration (ws : list World) (s s' : LiIonBatteryModel)
    (e : list Effect) :
  updates ws s = Ok (tt, s', e) -> configuration s' = configuration s.
Proof.
  intros H. apply (updates_configuration ws s s' e H).
Qed.

Lemma updates_keep_configuration_witness :
  exists s' e,
    updates [w_at 0 1; w_at 6 1] (LiIonBatteryModel_new 0) = Ok (tt, s', e) /\
    configuration s' = configuration (LiIonBatteryModel_new 0).
Proof.
  pose proof (updates_cons (w_at 0 1) [w_at 6 1] _ _ _ update_at_0) as H0.
  pose proof (updates_cons (w_at 6 1) [] _ _ _ update_at_6) as H6.
  simpl updates in H6 at 2. unfold ret in H6. rewrite H6 in H0.
  eexists. eexists. split; [exact H0|].
  apply (updates_keep_configuration _ _ _ _ H0).
Defined.

(** X3. The recorded loads are never removed and never rewritten: after a run
    of updates that returns, [m_load] is what it was with at most one load
    appended per update. *)
Theorem load_history_is_append_only (ws : list World) (s s' : LiIonBatteryModel)
    (e : list Effect) :
  updates ws s = Ok (tt, s', e) ->
  exists added, m_load s' = m_load s ++ added /\ (length added <= length ws)%nat.
Proof.
  intros H. apply (updates_load ws s s' e H).
Qed.

Lemma load_history_is_append_only_witness :
  exists s' e added,
    updates [w_at 0 1; w_at 6 1] (LiIonBatteryModel_new 0) = Ok (tt, s', e) /\
    m_load s' = m_load (LiIonBatteryModel_new 0) ++ added /\
    (length added <= 2)%nat.
Proof.
  pose proof (updates_cons (w_at 0 1) [w_at 6 1] _ _ _ update_at_0) as H0.
  pose proof (updates_cons (w_at 6 1) [] _ _ _ update_at_6) as H6.
  simpl updates in H6 at 2. unfold ret in H6. rewrite H6 in H0.
  destruct (load_history_is_append_only _ _ _ _ H0) as (added & Hl & Hlen).
  eexists. eexists. exists added. split; [exact H0 | split; [exact Hl | exact Hlen]].
Defined.



(** ** One update *)

(** X5. The first update of an object as the constructor left it at time [c],
    with any attributes, under a total current other than -0.001 A: it records
    the current as the first load, over the segment from [c] to now; its alpha
    is that load times the transform of the segment, charged at the configured
    supply voltage; and when it runs at time [c] itself, on a cell whose beta
    and capacities are not zero, it removes nothing and sets the supply
    voltage to the full voltage plus the drop between the typical current and
    the present one. *)
Theorem first_update_of_fresh_object
    (w : World) (c : Time) (s : LiIonBatteryModel) :
  fresh c s ->
  IsFinished w = false -> 0 <= Now w ->
  CalculateTotalCurrent w * 1000 <> -1 ->
  let L := CalculateTotalCurrent w * 1000 in
  let alpha := L * RvModelAFunction (Now w) (Now w) c (m_beta s) in
  exists s' e,
    DoInitialize w s = Ok (tt, s', e) /\
    m_load s' = [L] /\ m_timeStamps s' = [c; Now w] /\ m_previousLoad s' = L /\
    m_lastSampleTime s' = Now w /\ m_lastUpdateTime s' = Now w /\
    m_lastUpdateAlpha s' = alpha /\
    (alpha * m_supplyVoltageV s <= m_remainingEnergyJ s ->
     m_remainingEnergyJ s' = m_remainingEnergyJ s - alpha * m_supplyVoltageV s /\
     m_drainedCapacity s' = alpha / 3600) /\
    (m_remainingEnergyJ s < alpha * m_supplyVoltageV s ->
     m_remainingEnergyJ s' = 0 /\ m_drainedCapacity s' = 0) /\
    (Now w = c -> m_beta s <> 0 -> 0 <= m_remainingEnergyJ s ->
     m_qRated s <> 0 -> m_qNom s <> 0 -> m_qExp s <> 0 ->
     m_remainingEnergyJ s' = m_remainingEnergyJ s /\
     m_supplyVoltageV s'
     = m_eFull s + m_internalResistance s * (m_typCurrent s - CalculateTotalCurrent w)).
Proof.
  intros Hfresh Hf Hnow HI L alpha.
  assert (Hfresh0 : fresh c (set_m_energyUpdateEvent None s)) by exact Hfresh.
  pose proof (fresh_first_Discharge c (Now w) L _ Hfresh0 HI) as HD.
  change (m_beta (set_m_energyUpdateEvent None s)) with (m_beta s) in HD.
  fold alpha in HD.
  set (h := set_m_lastSampleTime (Now w) _) in HD.
  destruct Hfresh as (Hd & Hlt & Hp & Ha & Hls & Hl & Hts).
  assert (Ht : m_lastUpdateTime s <= Now w) by (rewrite Hlt; unfold Seconds; lra).
  pose proof (UpdateEnergySource_step w (CalculateTotalCurrent w) _ alpha h Hf eq_refl HD Ht)
    as HU.
  set (I := CalculateTotalCurrent w) in *.
  exists (fst (update_finish w (energy_step I alpha h))),
         (snd (update_finish w (energy_step I alpha h))).
  split; [exact HU|].
  destruct (update_finish_members w (energy_step I alpha h))
    as (Hr1 & Ha1 & HV1 & Hd1 & Hlt1 & Hl1 & Hts1 & Hp1 & Hls1 & Hb1).
  destruct (energy_step_history I alpha h) as (Hl2 & Hts2 & Hp2 & Hls2 & Hb2).
  assert (HE : energyToDecreaseJ alpha h = alpha * m_supplyVoltageV s).
  { unfold energyToDecreaseJ. change (m_lastUpdateAlpha h) with (m_lastUpdateAlpha s).
    change (m_supplyVoltageV h) with (m_supplyVoltageV s). rewrite Ha. lra. }
  assert (Hrh : m_remainingEnergyJ h = m_remainingEnergyJ s) by reflexivity.
  rewrite Hl1, Hts1, Hp1, Hls1, Ha1, Hr1, Hd1, HV1, Hlt1, Hl2, Hts2, Hp2, Hls2.
  rewrite energy_step_lastUpdateAlpha.
  split; [reflexivity|]. split; [reflexivity|]. split; [reflexivity|].
  split; [reflexivity|]. split; [reflexivity|]. split; [reflexivity|].
  split; [|split].
  - intros Hfit.
    rewrite energy_step_unclamped by (rewrite HE, Hrh; exact Hfit).
    cbv zeta. simpl. rewrite HE. split; reflexivity.
  - intros Hover.
    rewrite energy_step_clamped by (unfold clamped; rewrite HE, Hrh; exact Hover).
    cbv zeta. simpl. split; [reflexivity | exact Hd].
  - intros Hc Hbeta Hr HQ HQn HQe.
    assert (H0 : alpha = 0).
    { unfold alpha. rewrite Hc, RvModelAFunction_spec, spec_A_empty. lra. }
    rewrite energy_step_unclamped by (rewrite HE, Hrh, H0; lra).
    cbv zeta. simpl m_remainingEnergyJ. simpl m_supplyVoltageV.
    rewrite HE, H0. split; [lra|].
    rewrite GetVoltage_full_charge; [reflexivity | exact HQ | simpl; lra].
Qed.

Lemma first_update_of_fresh_object_witness :
  exists s' e,
    DoInitialize (w_at 0 1) (LiIonBatteryModel_new 0) = Ok (tt, s', e) /\
    m_load s' = [1 * 1000] /\ m_timeStamps s' = [0; 0] /\
    m_remainingEnergyJ s' = 31752 /\
    m_supplyVoltageV s' = 4.05 + 0.083 * (2.33 - 1).
Proof.
  assert (Hnow : 0 <= Now (w_at 0 1)) by (simpl; lra).
  assert (HI : CalculateTotalCurrent (w_at 0 1) * 1000 <> -1).
  { unfold w_at. rewrite CalculateTotalCurrent_one. lra. }
  destruct (first_update_of_fresh_object (w_at 0 1) 0 (LiIonBatteryModel_new 0)
              (fresh_new 0) eq_refl Hnow HI)
    as (s' & e & HU & Hl & Hts & _ & _ & _ & _ & _ & _ & Hstart).
  assert (Hbeta : m_beta (LiIonBatteryModel_new 0) <> 0) by (simpl; lra).
  assert (Hr : 0 <= m_remainingEnergyJ (LiIonBatteryModel_new 0)) by (simpl; lra).
  assert (HQ : m_qRated (LiIonBatteryModel_new 0) <> 0) by (simpl; lra).
  assert (HQn : m_qNom (LiIonBatteryModel_new 0) <> 0) by (simpl; lra).
  assert (HQe : m_qExp (LiIonBatteryModel_new 0) <> 0) by (simpl; lra).
  destruct (Hstart eq_refl Hbeta Hr HQ HQn HQe) as [Hr' HV'].
  unfold w_at in Hl, HV'. rewrite CalculateTotalCurrent_one in Hl, HV'.
  exists s', e.
  split; [exact HU|]. split; [exact Hl|]. split; [exact Hts|].
  split; [exact Hr' | exact HV'].
Defined.

(** X6. After an update on a running clock, [m_lastUpdateAlpha] is the sum of
    the RV model over the history the update has left, taken at the time of
    the update, which is also the last timestamp, the last sample time and
    the last update time. *)
Theorem update_stores_alpha_of_history
    (w : World) (s s' : LiIonBatteryModel) (e : list Effect) :
  IsFinished w = false ->
  length (m_timeStamps s) = S (length (m_load s)) ->
  UpdateEnergySource w s = Ok (tt, s', e) ->
  m_lastUpdateAlpha s' = spec_alpha (m_load s') (m_timeStamps s') (Now w) (m_beta s') /\
  last (m_timeStamps s') 0 = Now w /\
  m_lastSampleTime s' = Now w /\
  m_lastUpdateTime s' = Now w.
Proof.
  intros Hf Hlen HU.
  destruct (UpdateEnergySource_inv_full _ _ _ _ Hf HU) as (alpha & h & HD & _ & -> & _).
  destruct (Discharge_keeps_sizes _ _ (set_m_energyUpdateEvent None s) _ _ _ Hlen HD)
    as [Hlen1 Hload1].
  destruct (Discharge_Ok_record _ _ _ _ _ _ HD) as (Hrec & Ha & _).
  destruct (Discharge_record_post _ _ _ _ _ _ Hrec) as (_ & Hls & Hts).
  destruct Hts as [Hts | Hts]; [rewrite Hts in Hlen1; discriminate|].
  rewrite (Discharge_alpha_segments _ h Hlen1 Hload1) in Ha. injection Ha as Halpha.
  destruct (update_finish_members w (energy_step (CalculateTotalCurrent w) alpha h))
    as (_ & Ha1 & _ & _ & Hlt & Hl & Hts1 & _ & Hls1 & Hb1).
  destruct (energy_step_history (CalculateTotalCurrent w) alpha h)
    as (Hl' & Hts' & _ & Hls' & Hb').
  rewrite Ha1, Hl, Hts1, Hls1, Hb1, Hl', Hts', Hls', Hb', energy_step_lastUpdateAlpha.
  split; [symmetry; exact Halpha|]. split; [|split; [exact Hls | exact Hlt]].
  rewrite Hts. apply last_last.
Qed.

Lemma update_stores_alpha_of_history_witness :
  m_lastUpdateAlpha after_6
  = spec_alpha (m_load after_6) (m_timeStamps after_6) (Now (w_at 6 1)) (m_beta after_6) /\
  last (m_timeStamps after_6) 0 = Now (w_at 6 1).
Proof.
  destruct (update_stores_alpha_of_history (w_at 6 1) after_first after_6 _
              eq_refl eq_refl update_at_6) as (Ha & Hl & _).
  split; [exact Ha | exact Hl].
Defined.

(** X7. Under one constant load that is not negative, with a supply voltage
    and a remaining energy that are not negative, an update never gives
    energy back: it removes at least the load times the minutes since the
    last sample times the supply voltage, or else empties the source; and
    the object is under that constant load again afterwards. *)
Theorem constant_load_removes_at_least_the_charge
    (w : World) (s : LiIonBatteryModel) (L : R) (s0 : Time) :
  constant_load L s0 s ->
  IsFinished w = false -> CalculateTotalCurrent w * 1000 = L ->
  0 <= L -> m_beta s <> 0 ->
  m_lastSampleTime s <= Now w -> m_lastUpdateTime s <= Now w ->
  0 <= m_supplyVoltageV s -> 0 <= m_remainingEnergyJ s ->
  exists s' e,
    UpdateEnergySource w s = Ok (tt, s', e) /\
    constant_load L s0 s' /\
    m_lastSampleTime s' = Now w /\
    m_remainingEnergyJ s' <= m_remainingEnergyJ s /\
    m_remainingEnergyJ s'
    <= Rmax 0 (m_remainingEnergyJ s
               - L * ((Now w - m_lastSampleTime s) / 60) * m_supplyVoltageV s).
Proof.
  intros (Hl & Hts & Hp & Hs0 & Ha) Hf HI HL Hb Hls Hlt HV Hr.
  set (t := Now w) in *. set (ls := m_lastSampleTime s) in *.
  pose proof (constant_load_Discharge L s0 t (set_m_energyUpdateEvent None s) Hl Hts Hp)
    as HD.
  change (m_beta (set_m_energyUpdateEvent None s)) with (m_beta s) in HD.
  set (alpha := L * RvModelAFunction t t s0 (m_beta s)) in *.
  set (h := set_m_lastSampleTime t (set_m_timeStamps [s0; t] (set_m_energyUpdateEvent None s)))
    in *.
  rewrite <- HI in HD at 1.
  pose proof (UpdateEnergySource_step w (CalculateTotalCurrent w) s alpha h Hf eq_refl HD Hlt)
    as HU.
  set (I := CalculateTotalCurrent w) in *.
  exists (fst (update_finish w (energy_step I alpha h))),
         (snd (update_finish w (energy_step I alpha h))).
  split; [exact HU|].
  destruct (update_finish_members w (energy_step I alpha h))
    as (Hr1 & Ha1 & _ & _ & _ & Hl1 & Hts1 & Hp1 & Hls1 & Hb1).
  destruct (energy_step_history I alpha h) as (Hl2 & Hts2 & Hp2 & Hls2 & Hb2).
  assert (Hgrow : alpha - m_lastUpdateAlpha s >= L * ((t - ls) / 60)).
  { rewrite Ha. unfold alpha. rewrite !RvModelAFunction_spec.
    pose proof (spec_A_grows_from (m_beta s) s0 ls t Hb Hs0 Hls). nra. }
  assert (Hstep : 0 <= (t - ls) / 60) by lra.
  assert (HE : energyToDecreaseJ alpha h
               >= L * ((t - ls) / 60) * m_supplyVoltageV s).
  { unfold energyToDecreaseJ. change (m_lastUpdateAlpha h) with (m_lastUpdateAlpha s).
    change (m_supplyVoltageV h) with (m_supplyVoltageV s). nra. }
  assert (HE0 : 0 <= L * ((t - ls) / 60) * m_supplyVoltageV s).
  { apply Rmult_le_pos; [apply Rmult_le_pos|]; assumption. }
  split; [|split; [|split]].
  - unfold constant_load.
    rewrite Hl1, Hts1, Hp1, Hls1, Ha1, Hb1, Hl2, Hts2, Hp2, Hls2, Hb2.
    rewrite energy_step_lastUpdateAlpha. simpl.
    split; [exact Hl|]. split; [reflexivity|]. split; [exact Hp|]. split; [lra | reflexivity].
  - rewrite Hls1, Hls2. reflexivity.
  - rewrite Hr1, energy_step_remaining.
    destruct (energy_branch_cases alpha h) as [[Hc Hbr] | [Hc Hbr]]; rewrite Hbr; simpl; lra.
  - rewrite Hr1, energy_step_remaining.
    destruct (energy_branch_cases alpha h) as [[Hc Hbr] | [Hc Hbr]]; rewrite Hbr; simpl.
    + apply Rmax_l.
    + eapply Rle_trans; [|apply Rmax_r]. lra.
Qed.

Lemma constant_load_removes_at_least_the_charge_witness :
  exists s' e,
    UpdateEnergySource (w_at 6 1) after_first = Ok (tt, s', e) /\
    m_remainingEnergyJ s' <= m_remainingEnergyJ after_first.
Proof.
  assert (Hc : constant_load (1 * 1000) 0 after_first).
  { unfold constant_load. simpl.
    split; [reflexivity|]. split; [reflexivity|]. split; [reflexivity|].
    split; [lra|]. rewrite RvModelAFunction_spec, spec_A_empty. lra. }
  assert (HI : CalculateTotalCurrent (w_at 6 1) * 1000 = 1 * 1000).
  { unfold w_at. rewrite CalculateTotalCurrent_one. reflexivity. }
  assert (HL : 0 <= 1 * 1000) by lra.
  assert (Hb : m_beta after_first <> 0) by (simpl; lra).
  assert (Hls : m_lastSampleTime after_first <= Now (w_at 6 1)) by (simpl; lra).
  assert (Hlt : m_lastUpdateTime after_first <= Now (w_at 6 1)) by (simpl; lra).
  assert (HV : 0 <= m_supplyVoltageV after_first) by (unfold after_first, V_first; simpl; lra).
  assert (Hr : 0 <= m_remainingEnergyJ after_first) by (simpl; lra).
  destruct (constant_load_removes_at_least_the_charge (w_at 6 1) after_first (1 * 1000) 0
              Hc eq_refl HI HL Hb Hls Hlt HV Hr)
    as (s' & e & HU & _ & _ & Hle & _).
  exists s', e. split; [exact HU | exact Hle].
Defined.

(** X8. Energy that [IncreaseRemainingEnergy] adds does not reach the voltage:
    when an update leaves the drained capacity up to date with its alpha, the
    same update run after [IncreaseRemainingEnergy (x)] leaves the same supply
    voltage, the same drained capacity and the same alpha, and a remaining
    energy that is higher by at most [x]. *)
Theorem recharge_leaves_voltage
    (w : World) (s s1 : LiIonBatteryModel) (x : R) (e1 : list Effect) :
  IsFinished w = false -> 0 <= x ->
  UpdateEnergySource w s = Ok (tt, s1, e1) ->
  m_drainedCapacity s1 = m_lastUpdateAlpha s1 / 3600 ->
  exists s2 e2,
    (IncreaseRemainingEnergy x ;; UpdateEnergySource w) s = Ok (tt, s2, e2) /\
    m_supplyVoltageV s2 = m_supplyVoltageV s1 /\
    m_drainedCapacity s2 = m_drainedCapacity s1 /\
    m_lastUpdateAlpha s2 = m_lastUpdateAlpha s1 /\
    m_remainingEnergyJ s1 <= m_remainingEnergyJ s2 <= m_remainingEnergyJ s1 + x.
Proof.
  intros Hf Hx HU Hfresh.
  destruct (UpdateEnergySource_inv_full _ _ _ _ Hf HU) as (alpha & h & HD & Ht & Hs1 & _).
  set (I := CalculateTotalCurrent w) in *.
  set (r := m_remainingEnergyJ s).
  assert (HI : IncreaseRemainingEnergy x s = Ok (tt, set_m_remainingEnergyJ (r + x) s, [])).
  { unfold IncreaseRemainingEnergy. run. rewrite (Rleb_true _ _ Hx). reflexivity. }
  pose proof (Discharge_blind_to_energy (r + x) (I * 1000) (Now w)
                (set_m_energyUpdateEvent None s)) as HD2.
  rewrite HD in HD2. simpl outcome_map in HD2.
  change (set_m_remainingEnergyJ (r + x) (set_m_energyUpdateEvent None s))
    with (set_m_energyUpdateEvent None (set_m_remainingEnergyJ (r + x) s)) in HD2.
  set (h2 := set_m_remainingEnergyJ (r + x) h) in *.
  pose proof (UpdateEnergySource_step w I (set_m_remainingEnergyJ (r + x) s) alpha h2
                Hf eq_refl HD2 Ht) as HU2.
  exists (fst (update_finish w (energy_step I alpha h2))),
         (snd (update_finish w (energy_step I alpha h2))).
  split.
  { rewrite (bind_Ok _ _ _ _ _ _ HI), HU2. reflexivity. }
  destruct (update_finish_members w (energy_step I alpha h))
    as (Hr1 & Ha1 & HV1 & Hd1 & _).
  destruct (update_finish_members w (energy_step I alpha h2))
    as (Hr2 & Ha2 & HV2 & Hd2 & _).
  rewrite Hs1 in *. rewrite Hr1, Ha1, HV1, Hd1, Hr2, Ha2, HV2, Hd2.
  rewrite Hd1, Ha1 in Hfresh. rewrite energy_step_lastUpdateAlpha in Hfresh.
  rewrite !energy_step_lastUpdateAlpha, !energy_step_remaining.
  destruct (Discharge_frame_members _ _ _ _ _ _ HD) as (Hrh & _).
  simpl in Hrh. fold r in Hrh.
  assert (HE : energyToDecreaseJ alpha h2 = energyToDecreaseJ alpha h) by reflexivity.
  assert (Hdr : m_drainedCapacity (energy_branch alpha h2)
                = m_drainedCapacity (energy_branch alpha h)).
  { change (m_drainedCapacity (energy_step I alpha h))
      with (m_drainedCapacity (energy_branch alpha h)) in Hfresh.
    destruct (energy_branch_cases alpha h) as [[Hc Hb] | [Hc Hb]];
      destruct (energy_branch_cases alpha h2) as [[Hc2 Hb2] | [Hc2 Hb2]];
      rewrite Hb2; rewrite Hb in Hfresh |- *; simpl in Hfresh |- *.
    - reflexivity.
    - symmetry. exact Hfresh.
    - (* the object with more energy clamps, the other one does not *)
      exfalso. unfold clamped in Hc2. rewrite HE in Hc2. simpl in Hc2. lra.
    - reflexivity. }
  split; [|split; [exact Hdr | split; [reflexivity|]]].
  - change (m_supplyVoltageV (energy_step I alpha h2))
      with (GetVoltage (energy_branch alpha h2) I).
    change (m_supplyVoltageV (energy_step I alpha h))
      with (GetVoltage (energy_branch alpha h) I).
    destruct (energy_branch_frame alpha h) as (F1 & F2 & F3 & F4 & F5 & F6 & F7 & F8).
    destruct (energy_branch_frame alpha h2) as (G1 & G2 & G3 & G4 & G5 & G6 & G7 & G8).
    apply GetVoltage_members;
      [exact Hdr | rewrite F1, G1 | rewrite F2, G2 | rewrite F3, G3 | rewrite F4, G4
       | rewrite F5, G5 | rewrite F6, G6 | rewrite F7, G7 | rewrite F8, G8];
      reflexivity.
  - destruct (energy_branch_cases alpha h) as [[Hc Hb] | [Hc Hb]];
      destruct (energy_branch_cases alpha h2) as [[Hc2 Hb2] | [Hc2 Hb2]];
      rewrite Hb, Hb2; unfold clamped in *; rewrite ?HE in *; simpl in *; lra.
Qed.

Lemma recharge_leaves_voltage_witness :
  exists s2 e2,
    (IncreaseRemainingEnergy 100 ;; UpdateEnergySource (w_at 6 1)) after_first
    = Ok (tt, s2, e2) /\
    m_supplyVoltageV s2 = V_6.
Proof.
  assert (Hx : 0 <= 100) by lra.
  destruct (recharge_leaves_voltage (w_at 6 1) after_first after_6 100 _
              eq_refl Hx update_at_6 eq_refl)
    as (s2 & e2 & HU & HV & _).
  exists s2, e2. split; [exact HU | exact HV].
Defined.

(** ** The load history and the RV transform *)

(** X9. [Discharge] returns only on a history with exactly one more timestamp
    than loads.  On any other history (of a size a [std::vector] can have) it
    stops: with no timestamp at all and a changed load the write
    [m_timeStamps[m_timeStamps.size () - 1]] is out of bounds; in every other
    case the size assertion aborts, also on the empty [m_timeStamps] that the
    [empty ()] test lets through, where [size () - 1] has wrapped. *)
Theorem Discharge_sizes_disagree (load : R) (t : Time) (s : LiIonBatteryModel) :
  length (m_timeStamps s) <> S (length (m_load s)) ->
  (Z.of_nat (length (m_load s)) < 2 ^ 64 - 1)%Z ->
  (m_timeStamps s = [] -> load <> m_previousLoad s ->
   Discharge load t s = OutOfBounds) /\
  (m_timeStamps s <> [] \/ load = m_previousLoad s ->
   Discharge load t s = AssertFailed).
Proof.
  intros Hne Hmax. split.
  - intros Hts Hl. apply Discharge_no_timestamp; assumption.
  - intros Hcase. apply Discharge_sizes_assert; assumption.
Qed.

Lemma Discharge_sizes_disagree_witness :
  Discharge 1000 6 (set_m_timeStamps [0; 1] (LiIonBatteryModel_new 0)) = AssertFailed /\
  Discharge 1000 6 (set_m_timeStamps [] (LiIonBatteryModel_new 0)) = OutOfBounds.
Proof.
  split.
  - apply (Discharge_sizes_disagree 1000 6 (set_m_timeStamps [0; 1] (LiIonBatteryModel_new 0))).
    + simpl. lia.
    + simpl. lia.
    + left. simpl. discriminate.
  - apply (Discharge_sizes_disagree 1000 6 (set_m_timeStamps [] (LiIonBatteryModel_new 0))).
    + simpl. lia.
    + simpl. lia.
    + reflexivity.
    + simpl. lra.
Defined.

(** X10. With loads that are not negative, on a history that satisfies its
    invariant and at a time not before the last sample, [Discharge] returns
    an alpha that is at least the charge drawn so far (load times duration,
    summed over the segments, in mA·min) and at most 21 times that charge. *)
Theorem Discharge_alpha_between_charge_bounds
    (s : LiIonBatteryModel) (load : R) (t : Time) :
  history_inv s -> m_lastSampleTime s <= t -> m_beta s <> 0 ->
  Forall (Rle 0) (m_load s) -> 0 <= load ->
  m_load s <> [] \/ load <> m_previousLoad s ->
  exists alpha s1,
    Discharge load t s = Ok (alpha, s1, []) /\
    drawn_charge (m_load s1) (m_timeStamps s1) <= alpha
    <= 21 * drawn_charge (m_load s1) (m_timeStamps s1).
Proof.
  intros Hinv Ht Hb HL H0 Hready.
  destruct (Discharge_record_keeps_history s load t Hinv Ht)
    as (s1 & Hrec & Hsame & Hchanged & Hinv1).
  destruct (Discharge_returns_spec_alpha s load t (proj1 Hinv) Hready)
    as (s1' & Hrec' & HD).
  rewrite Hrec in Hrec'. inversion Hrec'; subst s1'.
  destruct (Discharge_record_frame _ _ _ _ _ _ Hrec) as [Hframe _].
  destruct (Discharge_record_post _ _ _ _ _ _ Hrec) as (_ & Hls & _).
  destruct Hinv1 as (Hlen1 & HS1 & Hlast1).
  exists (spec_alpha (m_load s1) (m_timeStamps s1) t (m_beta s1)), s1.
  split; [exact HD|].
  apply spec_alpha_bounds.
  - exact Hlen1.
  - exact HS1.
  - rewrite Hlast1, Hls. lra.
  - rewrite (same_but_history_beta _ _ Hframe). exact Hb.
  - destruct (Req_dec_T load (m_previousLoad s)) as [Heq | Hneq].
    + destruct (Hsame Heq) as (-> & _). exact HL.
    + destruct (Hchanged Hneq) as (-> & _).
      apply Forall_app. split; [exact HL | constructor; [exact H0 | constructor]].
Qed.

Lemma Discharge_alpha_between_charge_bounds_witness :
  exists alpha s1,
    Discharge 1000 6 (LiIonBatteryModel_new 0) = Ok (alpha, s1, []) /\
    drawn_charge (m_load s1) (m_timeStamps s1) <= alpha
    <= 21 * drawn_charge (m_load s1) (m_timeStamps s1).
Proof.
  apply (Discharge_alpha_between_charge_bounds (LiIonBatteryModel_new 0) 1000 6).
  - apply history_inv_new.
  - simpl. lra.
  - simpl. lra.
  - simpl. constructor.
  - lra.
  - right. simpl. lra.
Defined.

(** X11. With a beta other than zero, a second [Discharge] at the time of the
    one before returns the alpha of the one before, whatever load it is
    given: a changed load is recorded with a segment of no length, which adds
    nothing. *)
Theorem Discharge_same_time_other_load
    (load load' : R) (t : Time) (s s1 : LiIonBatteryModel) (alpha : R) (e : list Effect) :
  length (m_timeStamps s) = S (length (m_load s)) ->
  m_beta s <> 0 ->
  Discharge load t s = Ok (alpha, s1, e) ->
  exists s2,
    Discharge load' t s1 = Ok (alpha, s2, []) /\
    (load' = load -> s2 = s1) /\
    (load' <> load ->
     m_load s2 = m_load s1 ++ [load'] /\ m_timeStamps s2 = m_timeStamps s1 ++ [t]).
Proof.
  intros Hlen Hbeta HD.
  destruct (Discharge_keeps_sizes _ _ _ _ _ _ Hlen HD) as [Hlen1 Hload1].
  destruct (Discharge_Ok_record _ _ _ _ _ _ HD) as (Hrec & Ha & ->).
  destruct (Discharge_record_post _ _ _ _ _ _ Hrec) as (Hp & Hls & Hts).
  destruct Hts as [Hts | Hts]; [rewrite Hts in Hlen1; discriminate|].
  rewrite (Discharge_alpha_segments t s1 Hlen1 Hload1) in Ha.
  inversion Ha as [Halpha].
  destruct (Req_dec_T load' load) as [Heq | Hneq].
  - subst load'. exists s1. split; [|split; [reflexivity | intros H; contradiction]].
    rewrite Halpha.
    apply (Discharge_again _ _ _ _ _ _ _ HD); reflexivity.
  - assert (Hne : load' <> m_previousLoad s1) by (rewrite Hp; exact Hneq).
    pose proof (Discharge_run_changed load' t s1 Hne Hlen1) as HD2. simpl in HD2.
    rewrite Hls, <- Hts in HD2.
    exists (set_m_lastSampleTime t
              (set_m_timeStamps (m_timeStamps s1 ++ [t])
                 (set_m_previousLoad load' (set_m_load (m_load s1 ++ [load']) s1)))).
    split; [|split; [intros H; contradiction | intros _; split; reflexivity]].
    rewrite HD2. f_equal. f_equal. f_equal.
    rewrite (spec_alpha_snoc _ _ _ _ _ _ Hlen1).
    assert (Hlast : last (m_timeStamps s1) 0 = t).
    { rewrite Hts. apply last_last. }
    rewrite Hlast, spec_A_empty. lra.
Qed.

Lemma Discharge_same_time_other_load_witness :
  exists alpha s1 s2,
    Discharge 1000 6 (LiIonBatteryModel_new 0) = Ok (alpha, s1, []) /\
    Discharge 2000 6 s1 = Ok (alpha, s2, []) /\
    m_load s2 = m_load s1 ++ [2000].
Proof.
  assert (Hne : 1000 <> -1) by lra.
  pose proof (fresh_first_Discharge 0 6 1000 (LiIonBatteryModel_new 0) (fresh_new 0) Hne) as HD.
  assert (Hbeta : m_beta (LiIonBatteryModel_new 0) <> 0) by (simpl; lra).
  destruct (Discharge_same_time_other_load 1000 2000 6 (LiIonBatteryModel_new 0) _ _ _
              eq_refl Hbeta HD)
    as (s2 & HD2 & _ & Hch).
  assert (Hne2 : 2000 <> 1000) by lra.
  eexists. eexists. exists s2.
  split; [exact HD|]. split; [exact HD2 | apply (Hch Hne2)].
Defined.

(** X12. For a beta other than zero, [RvModelAFunction] is additive over
    adjacent segments: the transform of the segment from [s0] to [s2] is the
    sum of the transforms of its two parts, from [s0] to [s1] and from [s1]
    to [s2], at any time [t]. *)
Theorem RvModelAFunction_adjacent_segments (t s2 s1 s0 : Time) (beta : R) :
  beta <> 0 ->
  RvModelAFunction t s2 s0 beta
  = RvModelAFunction t s2 s1 beta + RvModelAFunction t s1 s0 beta.
Proof.
  intros _. rewrite !RvModelAFunction_spec. apply spec_A_adjacent.
Qed.

Lemma RvModelAFunction_adjacent_segments_witness :
  RvModelAFunction 12 12 0 0.637
  = RvModelAFunction 12 12 6 0.637 + RvModelAFunction 12 6 0 0.637.
Proof.
  apply (RvModelAFunction_adjacent_segments 12 12 6 0 0.637). lra.
Defined.

(** X13. For a segment that has ended by the time [t], and a beta other than
    zero, [RvModelAFunction] is at least the length of the segment in minutes
    and at most 21 times that length; so a segment of no length gives 0. *)
Theorem RvModelAFunction_bounds (t sk sk_1 : Time) (beta : R) :
  beta <> 0 -> sk_1 <= sk -> sk <= t ->
  (sk - sk_1) / 60 <= RvModelAFunction t sk sk_1 beta <= 21 * ((sk - sk_1) / 60) /\
  RvModelAFunction t sk sk beta = 0.
Proof.
  intros Hb H1 H2. rewrite !RvModelAFunction_spec.
  split; [apply spec_A_bounds; assumption | apply spec_A_empty].
Qed.

Lemma RvModelAFunction_bounds_witness :
  (6 - 0) / 60 <= RvModelAFunction 12 6 0 0.637 <= 21 * ((6 - 0) / 60).
Proof.
  apply (RvModelAFunction_bounds 12 6 0 0.637); lra.
Defined.

(** ** The voltage curve *)

(** X14. With nothing drained, and capacities other than zero,
    [GetVoltage (i)] is the full voltage of the cell plus the drop over the
    internal resistance between the typical current and [i]: at the typical
    current it is [m_eFull]. *)
Theorem GetVoltage_at_full_charge (s : LiIonBatteryModel) (i : R) :
  m_qRated s <> 0 -> m_qNom s <> 0 -> m_qExp s <> 0 ->
  m_drainedCapacity s = 0 ->
  GetVoltage s i = m_eFull s + m_internalResistance s * (m_typCurrent s - i) /\
  GetVoltage s (m_typCurrent s) = m_eFull s.
Proof.
  intros HQ HQn HQe Hit. split.
  - apply GetVoltage_full_charge; assumption.
  - rewrite GetVoltage_full_charge by assumption. ring.
Qed.

Lemma GetVoltage_at_full_charge_witness :
  GetVoltage (LiIonBatteryModel_new 0) 1 = 4.05 + 0.083 * (2.33 - 1).
Proof.
  assert (HQ : m_qRated (LiIonBatteryModel_new 0) <> 0) by (simpl; lra).
  assert (HQn : m_qNom (LiIonBatteryModel_new 0) <> 0) by (simpl; lra).
  assert (HQe : m_qExp (LiIonBatteryModel_new 0) <> 0) by (simpl; lra).
  exact (proj1 (GetVoltage_at_full_charge (LiIonBatteryModel_new 0) 1 HQ HQn HQe eq_refl)).
Defined.

(** X15. Below the rated capacity the voltage curve never rises: for a cell
    whose full voltage is not under its exponential-zone voltage, with
    positive rated and exponential-zone capacities, a nominal capacity other
    than zero and an internal resistance that is not negative, more
    drained capacity and more current give a voltage that is not higher. *)
Theorem GetVoltage_never_rises
    (s : LiIonBatteryModel) (it1 it2 i1 i2 : R) :
  m_eExp s <= m_eFull s -> 0 < m_qExp s -> 0 < m_qRated s -> m_qNom s <> 0 ->
  0 <= m_internalResistance s ->
  it1 <= it2 -> it2 < m_qRated s -> i1 <= i2 ->
  GetVoltage (set_m_drainedCapacity it2 s) i2
  <= GetVoltage (set_m_drainedCapacity it1 s) i1.
Proof.
  intros HA HB HQ HQn HR Hit Hlt Hi.
  unfold GetVoltage. simpl.
  set (K := Rabs _).
  set (Q := m_qRated s) in *. set (B := 3 / m_qExp s).
  set (A := m_eFull s - m_eExp s). set (Ri := m_internalResistance s) in *.
  assert (HK : 0 <= K) by apply Rabs_pos.
  assert (Hfrac : K * Q / (Q - it1) <= K * Q / (Q - it2)).
  { unfold Rdiv. apply Rmult_le_compat_l; [nra|].
    apply Rinv_le_contravar; lra. }
  assert (HB' : 0 < B) by (apply Rdiv_lt_0_compat; lra).
  assert (Hexp : exp (- B * it2) <= exp (- B * it1)).
  { apply exp_le. nra. }
  assert (Hres : Ri * i1 <= Ri * i2) by nra.
  assert (HA' : 0 <= A) by (unfold A; lra).
  assert (HAe : A * exp (- B * it2) <= A * exp (- B * it1)) by nra.
  lra.
Qed.

Lemma GetVoltage_never_rises_witness :
  GetVoltage (set_m_drainedCapacity 1 (LiIonBatteryModel_new 0)) 2
  <= GetVoltage (set_m_drainedCapacity 0 (LiIonBatteryModel_new 0)) 1.
Proof.
  apply (GetVoltage_never_rises (LiIonBatteryModel_new 0) 0 1 1 2); simpl; lra.
Defined.

(** ** The attributes *)

(** X16. No method reads [m_alpha], the attribute [RvBatteryModelAlphaValue]:
    with any other value in it, an update, [GetRemainingEnergy],
    [GetEnergyFraction], [DecreaseRemainingEnergy] and
    [IncreaseRemainingEnergy] return the same value, leave the same log and
    the same object, but for that value. *)
Theorem alpha_attribute_is_never_read (a : R) (w : World) (s : LiIonBatteryModel) :
  UpdateEnergySource w (set_m_alpha a s)
  = outcome_map (set_m_alpha a) (UpdateEnergySource w s) /\
  GetRemainingEnergy w (set_m_alpha a s)
  = outcome_map (set_m_alpha a) (GetRemainingEnergy w s) /\
  GetEnergyFraction w (set_m_alpha a s)
  = outcome_map (set_m_alpha a) (GetEnergyFraction w s) /\
  (forall energyJ,
     DecreaseRemainingEnergy energyJ (set_m_alpha a s)
     = outcome_map (set_m_alpha a) (DecreaseRemainingEnergy energyJ s)) /\
  (forall energyJ,
     IncreaseRemainingEnergy energyJ (set_m_alpha a s)
     = outcome_map (set_m_alpha a) (IncreaseRemainingEnergy energyJ s)).
Proof.
  destruct (methods_blind_to_alpha a w) as (HG & HF & HD & HI).
  split; [apply UpdateEnergySource_blind_to_alpha|].
  split; [apply HG|]. split; [apply HF|].
  split; intros energyJ; [apply HD | apply HI].
Qed.

(** X17. What a setter of an attribute writes is what its getter reads back:
    [SetBeta]/[GetBeta] and [SetInitialEnergy]/[GetInitialEnergy], for values
    that are not negative, [SetInitialSupplyVoltage]/[GetSupplyVoltage] and
    [SetEnergyUpdateInterval]/[GetEnergyUpdateInterval].  [SetInitialEnergy]
    sets the remaining energy to the same value, and
    [SetInitialSupplyVoltage] the full voltage of the curve; no other member
    changes. *)
Theorem attribute_setters_round_trip
    (s : LiIonBatteryModel) (beta initialEnergyJ supplyVoltageV : R) (interval : Time) :
  0 <= beta -> 0 <= initialEnergyJ ->
  (SetBeta beta ;; GetBeta) s = Ok (beta, set_m_beta beta s, []) /\
  (SetInitialEnergy initialEnergyJ ;; GetInitialEnergy) s
  = Ok (initialEnergyJ,
        set_m_remainingEnergyJ initialEnergyJ (set_m_initialEnergyJ initialEnergyJ s), []) /\
  (SetInitialSupplyVoltage supplyVoltageV ;; GetSupplyVoltage) s
  = Ok (supplyVoltageV,
        set_m_supplyVoltageV supplyVoltageV (set_m_eFull supplyVoltageV s), []) /\
  (SetEnergyUpdateInterval interval ;; GetEnergyUpdateInterval) s
  = Ok (interval, set_m_energyUpdateInterval interval s, []).
Proof.
  intros Hb He.
  unfold SetBeta, GetBeta, SetInitialEnergy, GetInitialEnergy, SetInitialSupplyVoltage,
    GetSupplyVoltage, SetEnergyUpdateInterval, GetEnergyUpdateInterval.
  run. rewrite (Rleb_true _ _ Hb), (Rleb_true _ _ He). simpl.
  split; [reflexivity|]. split; [reflexivity|]. split; reflexivity.
Qed.

Lemma attribute_setters_round_trip_witness :
  (SetInitialEnergy 10 ;; GetInitialEnergy) (LiIonBatteryModel_new 0)
  = Ok (10, set_m_remainingEnergyJ 10 (set_m_initialEnergyJ 10 (LiIonBatteryModel_new 0)), []).
Proof.
  assert (Hb : 0 <= 1) by lra. assert (He : 0 <= 10) by lra.
  exact (proj1 (proj2 (attribute_setters_round_trip (LiIonBatteryModel_new 0)
                         1 10 4.2 2 Hb He))).
Defined.

(** X18. [SetBeta], [SetInitialEnergy], [DecreaseRemainingEnergy] and
    [IncreaseRemainingEnergy] abort on their assertion exactly when the
    argument is negative, and then before they write anything. *)
Theorem negative_argument_aborts (s : LiIonBatteryModel) (x : R) :
  (SetBeta x s = AssertFailed <-> x < 0) /\
  (SetInitialEnergy x s = AssertFailed <-> x < 0) /\
  (DecreaseRemainingEnergy x s = AssertFailed <-> x < 0) /\
  (IncreaseRemainingEnergy x s = AssertFailed <-> x < 0).
Proof.
  unfold SetBeta, SetInitialEnergy, DecreaseRemainingEnergy, IncreaseRemainingEnergy.
  run.
  destruct (Rlt_dec x 0) as [Hneg | Hpos].
  - rewrite (Rleb_false _ _ Hneg). simpl. tauto.
  - assert (Hx : 0 <= x) by lra. rewrite (Rleb_true _ _ Hx). simpl.
    destruct (Rleb (m_supplyVoltageV s) (m_minVoltTh s)); simpl;
      (split; [|split; [|split]]); (split; [discriminate | intros H; contradiction]).
Qed.

(** ** The caller in [scratch/LiBatteryTest.cc] *)

(** X19. On a cell none of whose divisors is zero ([m_beta], [m_qNom],
    [m_qExp], and the rated capacity less the drained capacity that the first
    update leaves), whenever the update it starts with returns,
    [PrintCellInfo] returns, in either order of evaluation of its output
    line: the energy it prints and the energy it writes to the log
    file are the same, the remaining energy after the first update; its two
    calls of [GetRemainingEnergy] run the update twice, with the same log
    each time, so a depleted source notifies its devices twice per print; the
    voltage it prints is the one from before the update when
    [GetSupplyVoltage] is evaluated first; and it asks to be called again
    after 20 s unless the clock has finished. *)
Theorem PrintCellInfo_prints_what_it_logs (voltage_first : bool) (w : World)
    (s s1 : LiIonBatteryModel) (e1 : list Effect) :
  m_beta s <> 0 -> m_qNom s <> 0 -> m_qExp s <> 0 ->
  UpdateEnergySource w s = Ok (tt, s1, e1) ->
  m_qRated s1 <> m_drainedCapacity s1 ->
  exists info s2,
    PrintCellInfo voltage_first w s = Ok (info, s2, e1 ++ e1) /\
    printedEnergy info = m_remainingEnergyJ s1 /\
    loggedEnergy info = printedEnergy info /\
    printedVoltage info
    = (if voltage_first then m_supplyVoltageV s else m_supplyVoltageV s1) /\
    nextPrint info = (if IsFinished w then None else Some (Seconds 20)) /\
    m_remainingEnergyJ s2 = m_remainingEnergyJ s1.
Proof.
  intros _ _ _ HU _.
  destruct (PrintCellInfo_run voltage_first w s s1 e1 HU) as (s2 & HP & Hr).
  eexists. exists s2. split; [exact HP|]. simpl. auto.
Qed.

Lemma PrintCellInfo_prints_what_it_logs_witness :
  exists info s2,
    PrintCellInfo true (w_at 6 1) after_first
    = Ok (info, s2, [EvCancel; EvSchedule 1] ++ [EvCancel; EvSchedule 1]) /\
    printedEnergy info = m_remainingEnergyJ after_6 /\
    loggedEnergy info = printedEnergy info.
Proof.
  assert (Hbeta : m_beta after_first <> 0) by (simpl; lra).
  assert (HqNom : m_qNom after_first <> 0) by (simpl; lra).
  assert (HqExp : m_qExp after_first <> 0) by (simpl; lra).
  assert (Hcap : m_qRated after_6 <> m_drainedCapacity after_6).
  { pose proof alpha_6_bounds. simpl. lra. }
  destruct (PrintCellInfo_prints_what_it_logs true (w_at 6 1) after_first after_6 _
              Hbeta HqNom HqExp update_at_6 Hcap)
    as (info & s2 & HP & H1 & H2 & _).
  exists info, s2. split; [exact HP | split; [exact H1 | exact H2]].
Defined.
